(** * lyricsx: LRC timestamps, lines, parsers and the translation merge

    A shallow embedding of [lyricsx/model.py], [lyricsx/enhanced_model.py]
    and [lyricsx/parser/lrc_parser.py], followed by the properties of the
    timestamp model, the two parsers and the merge algorithm.

    Conventions.  A Python [str] is the list of its code points, a Python
    [int] is a [Z], an operation that can raise returns a [result].  Library
    functions ([str.isdigit], [int], [str.ljust], [str.strip],
    [str.splitlines], [re], [datetime.timedelta], [float], [round],
    [list.sort], [copy.deepcopy]) are modelled by what they compute on the
    arguments the program passes to them. *)

From Stdlib Require Import ZArith List Bool Lia Arith Permutation Sorted.
Import ListNotations.
Open Scope Z_scope.

Set Implicit Arguments.

(** ** Exceptions *)

Inductive exn : Type :=
| TypeError
| ValueError
| OverflowError
| IndexError.

Inductive result (A : Type) : Type :=
| Ok (a : A)
| Raise (e : exn).

Arguments Ok {A} a.
Arguments Raise {A} e.

Definition bind {A B : Type} (r : result A) (k : A -> result B) : result B :=
  match r with
  | Ok a => k a
  | Raise e => Raise e
  end.

Notation "x <- r ;; k" := (bind r (fun x => k))
  (at level 61, r at next level, right associativity).

Fixpoint mapM {A B : Type} (f : A -> result B) (l : list A) : result (list B) :=
  match l with
  | [] => Ok []
  | a :: l' => b <- f a ;; bs <- mapM f l' ;; Ok (b :: bs)
  end.

(** ** Strings *)

Definition codepoint := Z.
Definition str := list codepoint.

Definition str_eqb (a b : str) : bool :=
  if list_eq_dec Z.eq_dec a b then true else false.

(** The few ASCII characters the program names. *)
Definition chr_newline : codepoint := 10.
Definition chr_minus : codepoint := 45.
Definition chr_dot : codepoint := 46.
Definition chr_0 : codepoint := 48.
Definition chr_colon : codepoint := 58.
Definition chr_lbracket : codepoint := 91.
Definition chr_rbracket : codepoint := 93.

Module Unicode.

(** Character tables of the Unicode database (version 14.0, the one of
    CPython 3.11), as closed ranges of code points. *)

Definition in_ranges (rs : list (Z * Z)) (c : codepoint) : bool :=
  existsb (fun r => (fst r <=? c) && (c <=? snd r)) rs.

(** General category Nd.  Every range starts at a digit of value zero and
    the values repeat with period ten. *)
Definition decimal_ranges : list (Z * Z) :=
  [(48, 57); (1632, 1641); (1776, 1785); (1984, 1993); (2406, 2415);
   (2534, 2543); (2662, 2671); (2790, 2799); (2918, 2927); (3046, 3055);
   (3174, 3183); (3302, 3311); (3430, 3439); (3558, 3567); (3664, 3673);
   (3792, 3801); (3872, 3881); (4160, 4169); (4240, 4249); (6112, 6121);
   (6160, 6169); (6470, 6479); (6608, 6617); (6784, 6793); (6800, 6809);
   (6992, 7001); (7088, 7097); (7232, 7241); (7248, 7257); (42528, 42537);
   (43216, 43225); (43264, 43273); (43472, 43481); (43504, 43513);
   (43600, 43609); (44016, 44025); (65296, 65305); (66720, 66729);
   (68912, 68921); (69734, 69743); (69872, 69881); (69942, 69951);
   (70096, 70105); (70384, 70393); (70736, 70745); (70864, 70873);
   (71248, 71257); (71360, 71369); (71472, 71481); (71904, 71913);
   (72016, 72025); (72784, 72793); (73040, 73049); (73120, 73129);
   (92768, 92777); (92864, 92873); (93008, 93017); (120782, 120831);
   (123200, 123209); (123632, 123641); (125264, 125273); (130032, 130041)].

(** Numeric_Type=Digit without Numeric_Type=Decimal: superscripts,
    circled digits and the like. *)
Definition other_digit_ranges : list (Z * Z) :=
  [(178, 179); (185, 185); (4969, 4977); (6618, 6618); (8304, 8304);
   (8308, 8313); (8320, 8329); (9312, 9320); (9332, 9340); (9352, 9360);
   (9450, 9450); (9461, 9469); (9471, 9471); (10102, 10110);
   (10112, 10120); (10122, 10130); (68160, 68163); (69216, 69224);
   (69714, 69722); (127232, 127242)].

(** Characters for which [str.isspace] holds. *)
Definition space_ranges : list (Z * Z) :=
  [(9, 13); (28, 32); (133, 133); (160, 160); (5760, 5760); (8192, 8202);
   (8232, 8233); (8239, 8239); (8287, 8287); (12288, 12288)].

(** Line boundaries of [str.splitlines] (besides the pair CR LF). *)
Definition linebreaks : list codepoint :=
  [10; 11; 12; 13; 28; 29; 30; 133; 8232; 8233].

Definition isdecimal (c : codepoint) : bool := in_ranges decimal_ranges c.

Definition isdigit (c : codepoint) : bool :=
  isdecimal c || in_ranges other_digit_ranges c.

Definition isspace (c : codepoint) : bool := in_ranges space_ranges c.

Definition islinebreak (c : codepoint) : bool :=
  existsb (Z.eqb c) linebreaks.

(** The value of a decimal digit. *)
Definition decimal_value (c : codepoint) : option Z :=
  match find (fun r => (fst r <=? c) && (c <=? snd r)) decimal_ranges with
  | Some r => Some ((c - fst r) mod 10)
  | None => None
  end.

End Unicode.

(** [s.isdigit()]: non-empty and made of digits only. *)
Definition isdigit (s : str) : bool :=
  match s with
  | [] => false
  | _ => forallb Unicode.isdigit s
  end.

(** [s.isspace()]. *)
Definition isspace (s : str) : bool :=
  match s with
  | [] => false
  | _ => forallb Unicode.isspace s
  end.

(** [s.ljust(width, fill)]. *)
Definition ljust (s : str) (width : nat) (fill : codepoint) : str :=
  s ++ repeat fill (width - length s)%nat.

(** The interpreter's limit on the decimal digits of an integer that is
    read from or written to a string ([sys.int_max_str_digits], 4300 unless
    it is reconfigured): [int] and the decimal formats raise [ValueError]
    beyond it. *)
Definition int_max_str_digits : Z := 4300.

(** [int(s)] on a string that passed [s.isdigit()], which leaves no room for
    a sign, an underscore or surrounding blanks: [ValueError] when the
    string has more digits than the interpreter's limit, the decimal value
    when every character is a decimal digit, [ValueError] otherwise (a
    superscript two is a digit but not a decimal). *)
Fixpoint int_acc (acc : Z) (s : str) : result Z :=
  match s with
  | [] => Ok acc
  | c :: s' =>
      match Unicode.decimal_value c with
      | Some d => int_acc (10 * acc + d) s'
      | None => Raise ValueError
      end
  end.

Definition int (s : str) : result Z :=
  match s with
  | [] => Raise ValueError
  | _ =>
      if int_max_str_digits <? Z.of_nat (length s) then Raise ValueError
      else int_acc 0 s
  end.

(** Decimal digits of a non-negative integer, least significant first. *)
Fixpoint digits_le (fuel : nat) (x : Z) : str :=
  match fuel with
  | O => []
  | S fuel' =>
      (chr_0 + x mod 10) ::
      (if x / 10 =? 0 then [] else digits_le fuel' (x / 10))
  end.

Definition digits (x : Z) : str :=
  rev (digits_le (S (Z.to_nat (Z.log2 x))) x).

Definition zfill (s : str) (width : nat) : str :=
  repeat chr_0 (width - length s)%nat ++ s.

(** The text of the format specification [0<width>d] (and [0<width>],
    which is the same on an integer): the sign first, then zeros up to the
    width. *)
Definition padded (width : nat) (x : Z) : str :=
  if x <? 0 then chr_minus :: zfill (digits (- x)) (width - 1)
  else zfill (digits x) width.

(** [f"{x:0<width>d}"]: [ValueError] when the number has more decimal
    digits than the interpreter's limit (the sign does not count), the
    padded text otherwise. *)
Definition format_0d (width : nat) (x : Z) : result str :=
  if int_max_str_digits <? Z.of_nat (length (digits (Z.abs x)))
  then Raise ValueError
  else Ok (padded width x).

(** [sep.join(parts)]. *)
Fixpoint join (sep : str) (parts : list str) : str :=
  match parts with
  | [] => []
  | [p] => p
  | p :: ps => p ++ sep ++ join sep ps
  end.

(** ** Binary64 arithmetic *)

Module Float.

(** A finite double is [mant * 2 ^ expo].  Inside the range of
    [timedelta] every quotient and product below is zero or a normal
    double, so neither overflow nor gradual underflow is modelled. *)
Record float : Type := mk { mant : Z; expo : Z }.

(** The integer nearest to [a / b] for [b > 0], ties to the even one. *)
Definition round_half_even (a b : Z) : Z :=
  let q := a / b in
  let r := a mod b in
  if 2 * r <? b then q
  else if b <? 2 * r then q + 1
  else if Z.even q then q else q + 1.

(** [floor (log2 (a / b))] for [a > 0] and [b > 0]. *)
Definition floor_log2 (a b : Z) : Z :=
  let k := Z.log2 a - Z.log2 b in
  if a * 2 ^ Z.max 0 (- k) <? b * 2 ^ Z.max 0 k then k - 1 else k.

(** The double nearest to the rational [p / q] ([q > 0]), ties to even:
    a 53-bit significand scaled by a power of two. *)
Definition nearest (p q : Z) : float :=
  if p =? 0 then mk 0 0
  else
    let a := Z.abs p in
    let e := floor_log2 a q - 52 in
    let m := round_half_even (a * 2 ^ Z.max 0 (- e)) (q * 2 ^ Z.max 0 e) in
    mk (Z.sgn p * m) e.

(** [float(n)]. *)
Definition of_int (n : Z) : float := nearest n 1.

(** [a / b] on two integers (true division, correctly rounded). *)
Definition true_div (a b : Z) : float := nearest a b.

(** [x * y] on two doubles. *)
Definition mul (x y : float) : float :=
  let e := expo x + expo y in
  nearest (mant x * mant y * 2 ^ Z.max 0 e) (2 ^ Z.max 0 (- e)).

(** [round(x)]: the nearest integer, ties to even. *)
Definition round (x : float) : Z :=
  round_half_even (mant x * 2 ^ Z.max 0 (expo x)) (2 ^ Z.max 0 (- expo x)).

End Float.

(** ** [datetime.timedelta] *)

Record timedelta : Type := mk_timedelta {
  td_days : Z;
  td_seconds : Z;
  td_microseconds : Z
}.

Definition MAX_DELTA_DAYS : Z := 999999999.

(** [timedelta(minutes=.., seconds=.., milliseconds=..)] on integers: the
    duration is normalised to days, seconds in [0, 86400) and microseconds
    in [0, 10^6), and refused when the days leave the supported range. *)
Definition timedelta_new (minutes seconds milliseconds : Z) : result timedelta :=
  let us := (minutes * 60 + seconds) * 1000000 + milliseconds * 1000 in
  let d := us / 86400000000 in
  if Z.abs d >? MAX_DELTA_DAYS then Raise OverflowError
  else Ok (mk_timedelta d (us mod 86400000000 / 1000000) (us mod 1000000)).

Definition timedelta_to_microseconds (t : timedelta) : Z :=
  (td_days t * 86400 + td_seconds t) * 1000000 + td_microseconds t.

(** [t.total_seconds()], the duration divided by one second, as a double. *)
Definition timedelta_total_seconds (t : timedelta) : Float.float :=
  Float.true_div (timedelta_to_microseconds t) 1000000.

(** Comparison of the triples (days, seconds, microseconds). *)
Definition timedelta_eqb (a b : timedelta) : bool :=
  (td_days a =? td_days b) && (td_seconds a =? td_seconds b)
  && (td_microseconds a =? td_microseconds b).

Definition timedelta_ltb (a b : timedelta) : bool :=
  (td_days a <? td_days b)
  || ((td_days a =? td_days b)
      && ((td_seconds a <? td_seconds b)
          || ((td_seconds a =? td_seconds b)
              && (td_microseconds a <? td_microseconds b)))).

(** ** [LRCTime] *)

Record LRCTime : Type := mk_LRCTime { time : timedelta }.

(** [LRCTime.__init__].  The arguments are strings, so the type check
    passes. *)
Definition LRCTime_init (minutes seconds milliseconds : str) : result LRCTime :=
  if negb (forallb isdigit [minutes; seconds; milliseconds])
  then Raise ValueError
  else
    min_val <- int minutes ;;
    sec_val <- int seconds ;;
    ms_val <- int (ljust milliseconds 3 chr_0) ;;
    if min_val <? 0 then Raise ValueError
    else if negb ((0 <=? sec_val) && (sec_val <=? 59)) then Raise ValueError
    else if negb ((0 <=? ms_val) && (ms_val <=? 999)) then Raise ValueError
    else
      t <- timedelta_new min_val sec_val ms_val ;;
      Ok (mk_LRCTime t).

(** [LRCTime.from_total_milliseconds]. *)
Definition LRCTime_from_total_milliseconds (milliseconds : Z) : result LRCTime :=
  let minutes := milliseconds / 60000 in
  let seconds := milliseconds mod 60000 / 1000 in
  let milliseconds_val := milliseconds mod 1000 in
  m <- format_0d 2 minutes ;;
  s <- format_0d 2 seconds ;;
  ms <- format_0d 3 milliseconds_val ;;
  LRCTime_init m s ms.

(** The property [total_milliseconds]:
    [round(self.time.total_seconds() * 1000)]. *)
Definition LRCTime_total_milliseconds (t : LRCTime) : Z :=
  Float.round (Float.mul (timedelta_total_seconds (time t)) (Float.of_int 1000)).

Definition LRCTime_milliseconds (t : LRCTime) : Z :=
  LRCTime_total_milliseconds t mod 1000.

Definition LRCTime_seconds (t : LRCTime) : Z :=
  LRCTime_total_milliseconds t / 1000 mod 60.

Definition LRCTime_minutes (t : LRCTime) : Z :=
  LRCTime_total_milliseconds t / 60000.

(** [LRCTime.__str__].  The three numbers come from [round] of a double,
    so they stay below 2^1024 and have at most 309 digits: the limit on
    the digits of an integer cannot be reached here, and the format is its
    text. *)
Definition LRCTime_str (t : LRCTime) : str :=
  padded 2 (LRCTime_minutes t) ++ [chr_colon]
  ++ padded 2 (LRCTime_seconds t) ++ [chr_dot]
  ++ padded 3 (LRCTime_milliseconds t).

(** [LRCTime.__eq__] and [LRCTime.__lt__] between two timestamps. *)
Definition LRCTime_eqb (a b : LRCTime) : bool := timedelta_eqb (time a) (time b).
Definition LRCTime_ltb (a b : LRCTime) : bool := timedelta_ltb (time a) (time b).

(** ** Regular expressions

    The fragment of [re] the parsers use: a pattern is a sequence of items,
    an item is one character of a class or a greedy bounded repetition of a
    class, captured or not.  Matching backtracks over the repetitions from
    the longest run down. *)

Module Regex.

Inductive cclass : Type :=
| Char (c : codepoint)            (* an escaped or plain literal *)
| Digit                           (* \d, a Unicode decimal digit *)
| Dot                             (* . , anything but a newline *)
| OneOf (ranges : list (Z * Z))   (* [a-zA-Z] *)
| NoneOf (ranges : list (Z * Z)). (* [^...] *)

Definition cmatch (k : cclass) (c : codepoint) : bool :=
  match k with
  | Char d => c =? d
  | Digit => Unicode.isdecimal c
  | Dot => negb (c =? chr_newline)
  | OneOf rs => Unicode.in_ranges rs c
  | NoneOf rs => negb (Unicode.in_ranges rs c)
  end.

Inductive item : Type :=
| One (k : cclass)
| Rep (capture : bool) (k : cclass) (lo : nat) (hi : option nat).

Definition pattern := list item.

(** Length of the longest prefix of [s] inside the class, capped. *)
Fixpoint run (k : cclass) (hi : option nat) (s : str) : nat :=
  match hi with
  | Some O => O
  | _ =>
      match s with
      | c :: s' =>
          if cmatch k c
          then S (run k (option_map Nat.pred hi) s')
          else O
      | [] => O
      end
  end.

(** The first success among the lengths [n], [n - 1], ..., [lo]. *)
Fixpoint backoff {R : Type} (f : nat -> option R) (lo n : nat) : option R :=
  if (n <? lo)%nat then None
  else
    match f n with
    | Some r => Some r
    | None =>
        match n with
        | O => None
        | S n' => backoff f lo n'
        end
    end.

(** Match the pattern at the start of [s]: the captured groups in order
    and what is left of [s] after the match. *)
Fixpoint match_items (p : pattern) (s : str) : option (list str * str) :=
  match p with
  | [] => Some ([], s)
  | One k :: p' =>
      match s with
      | c :: s' => if cmatch k c then match_items p' s' else None
      | [] => None
      end
  | Rep capture k lo hi :: p' =>
      backoff
        (fun n =>
           match match_items p' (skipn n s) with
           | Some (groups, rest) =>
               Some (if capture then firstn n s :: groups else groups, rest)
           | None => None
           end)
        lo (run k hi s)
  end.

(** [re.match(p, s)]: the groups of a match at position zero. *)
Definition match_ (p : pattern) (s : str) : option (list str) :=
  option_map fst (match_items p s).

(** [re.findall(p, s)]: the groups of the successive matches, scanning
    from the left; [skip] characters belong to the previous match. *)
Fixpoint findall_from (p : pattern) (s : str) (skip : nat) : list (list str) :=
  match skip with
  | S k =>
      match s with
      | [] => []
      | _ :: s' => findall_from p s' k
      end
  | O =>
      match match_items p s with
      | Some (groups, rest) =>
          groups ::
          match s with
          | [] => []
          | _ :: s' => findall_from p s' (length s - length rest - 1)
          end
      | None =>
          match s with
          | [] => []
          | _ :: s' => findall_from p s' 0
          end
      end
  end.

Definition findall (p : pattern) (s : str) : list (list str) :=
  findall_from p s 0.

End Regex.

Import Regex.

(** ** Lines of text *)

Fixpoint dropwhile {A : Type} (f : A -> bool) (l : list A) : list A :=
  match l with
  | [] => []
  | a :: l' => if f a then dropwhile f l' else l
  end.

(** [s.strip()]. *)
Definition strip (s : str) : str :=
  rev (dropwhile Unicode.isspace (rev (dropwhile Unicode.isspace s))).

(** [s.splitlines()]; [cur] is the current line, reversed. *)
Fixpoint splitlines_from (cur : str) (s : str) : list str :=
  match s with
  | [] => match cur with [] => [] | _ => [rev cur] end
  | c :: s' =>
      if c =? 13 then
        match s' with
        | 10 :: s'' => rev cur :: splitlines_from [] s''
        | _ => rev cur :: splitlines_from [] s'
        end
      else if Unicode.islinebreak c then rev cur :: splitlines_from [] s'
      else splitlines_from (c :: cur) s'
  end.

Definition splitlines (s : str) : list str := splitlines_from [] s.

(** ** The standard model *)

Record LyricLine : Type := mk_LyricLine {
  line_time : LRCTime;
  texts : str
}.

(** [LyricLine.__str__]. *)
Definition LyricLine_str (l : LyricLine) : str :=
  [chr_lbracket] ++ LRCTime_str (line_time l) ++ [chr_rbracket] ++ texts l.

Definition LyricLine_ltb (a b : LyricLine) : bool :=
  LRCTime_ltb (line_time a) (line_time b).

Definition LyricLine_eqb (a b : LyricLine) : bool :=
  LRCTime_eqb (line_time a) (line_time b).

(** [LyricLine.empty_line]. *)
Definition LyricLine_empty_line : result LyricLine :=
  t <- LRCTime_init [48; 48] [48; 48] [48; 48; 48] ;;
  Ok (mk_LyricLine t []).

Record CombinedLyricLine : Type := mk_CombinedLyricLine {
  origin : LyricLine;
  combined_time : LRCTime;
  trans : list LyricLine
}.

(** [CombinedLyricLine.__init__], on values: each translation is copied and
    the copy is given the time of the origin.  The same constructor on the
    object store, where copying can be told from overwriting, is
    [Store.CombinedLyricLine_init] below. *)
Definition CombinedLyricLine_init (o : LyricLine) (ts : list LyricLine)
  : CombinedLyricLine :=
  mk_CombinedLyricLine o (line_time o)
    (map (fun t => mk_LyricLine (line_time o) (texts t)) ts).

Definition str_is_empty (s : str) : bool :=
  match s with [] => true | _ => false end.

(** [CombinedLyricLine.__str__]. *)
Definition CombinedLyricLine_str (c : CombinedLyricLine) : str :=
  if str_is_empty (texts (origin c)) then
    [chr_lbracket] ++ LRCTime_str (combined_time c) ++ [chr_rbracket]
    ++ texts (origin c)
  else
    join [chr_newline]
      (LyricLine_str (origin c)
       :: map LyricLine_str
            (filter (fun t => negb (str_is_empty (texts t))) (trans c))).

Definition CombinedLyricLine_ltb (a b : CombinedLyricLine) : bool :=
  LRCTime_ltb (combined_time a) (combined_time b).

Record LyricMeta : Type := mk_LyricMeta { tag : str; value : str }.

(** [LyricMeta.__init__]. *)
Definition LyricMeta_init (tag value : str) : result LyricMeta :=
  if str_is_empty tag || str_is_empty value then Raise ValueError
  else Ok (mk_LyricMeta tag value).

Definition LyricMeta_str (m : LyricMeta) : str :=
  [chr_lbracket] ++ tag m ++ [chr_colon] ++ value m ++ [chr_rbracket].

(** [StandardLyricDocument]; [L] is the kind of line the producer stores
    ([LyricLine] after [parse], [CombinedLyricLine] after the merge). *)
Record StandardLyricDocument (L : Type) : Type := mk_StandardLyricDocument {
  lines : list L;
  meta : list LyricMeta
}.

Definition to_lrc {L : Type} (line_str : L -> str)
  (d : StandardLyricDocument L) : str :=
  join [chr_newline] (map LyricMeta_str (meta d) ++ map line_str (lines d)).

(** ** [list.sort]

    Python sorts stably and compares with [<] only.  For an order in which
    incomparable elements are equivalent, as all the orders here are, the
    stable sorted arrangement is unique; it is computed by insertion. *)

Section Sort.
Variable A : Type.
Variable ltb : A -> A -> bool.

Fixpoint insert (x : A) (l : list A) : list A :=
  match l with
  | [] => [x]
  | y :: l' => if ltb y x then y :: insert x l' else x :: l
  end.

Definition sort (l : list A) : list A := fold_right insert [] l.
End Sort.

(** ** The standard parser *)

Definition exn_eqb (a b : exn) : bool :=
  match a, b with
  | TypeError, TypeError | ValueError, ValueError
  | OverflowError, OverflowError | IndexError, IndexError => true
  | _, _ => false
  end.

(** [try: r except e: handler]. *)
Definition try_except {A : Type} (r : result A) (e : exn) (handler : result A)
  : result A :=
  match r with
  | Raise e' => if exn_eqb e e' then handler else r
  | Ok _ => r
  end.

(** [l[i]]. *)
Definition getitem {A : Type} (l : list A) (i : nat) : result A :=
  match nth_error l i with
  | Some a => Ok a
  | None => Raise IndexError
  end.

(** The pattern "\[([a-zA-Z]{2,3}):([^]]+)]". *)
Definition tag_pattern : pattern :=
  [One (Char chr_lbracket);
   Rep true (OneOf [(97, 122); (65, 90)]) 2 (Some 3%nat);
   One (Char chr_colon);
   Rep true (NoneOf [(chr_rbracket, chr_rbracket)]) 1 None;
   One (Char chr_rbracket)].

(** The pattern "\[(\d{2}):(\d{2})\.(\d{1,3})]" followed by the group
    of ".*". *)
Definition time_text_pattern : pattern :=
  [One (Char chr_lbracket);
   Rep true Digit 2 (Some 2%nat);
   One (Char chr_colon);
   Rep true Digit 2 (Some 2%nat);
   One (Char chr_dot);
   Rep true Digit 1 (Some 3%nat);
   One (Char chr_rbracket);
   Rep true Dot 0 None].

(** The pattern "\[(\d{2}):(\d{2})\.(\d{1,3})\]" followed by the group
    of "[^\[\]]*". *)
Definition enhanced_pattern : pattern :=
  [One (Char chr_lbracket);
   Rep true Digit 2 (Some 2%nat);
   One (Char chr_colon);
   Rep true Digit 2 (Some 2%nat);
   One (Char chr_dot);
   Rep true Digit 1 (Some 3%nat);
   One (Char chr_rbracket);
   Rep true (NoneOf [(chr_lbracket, chr_lbracket); (chr_rbracket, chr_rbracket)])
       0 None].

(** What one physical line contributes to the document. *)
Inductive parsed : Type :=
| Meta (m : LyricMeta)
| Line (l : LyricLine)
| Nothing.

(** The body of the loop of [StandardLRCParser.parse] on one line, already
    stripped. *)
Definition parse_line (line : str) : result parsed :=
  match match_ tag_pattern line with
  | Some [g1; g2] => m <- LyricMeta_init g1 g2 ;; Ok (Meta m)
  | Some _ => Ok Nothing
  | None =>
      let time_text_match := findall time_text_pattern line in
      try_except
        (first <- getitem time_text_match 0 ;;
         match first with
         | [minute; sec; msec; text] =>
             let msec := ljust msec 3 chr_0 in
             lrc_time <- LRCTime_init minute sec msec ;;
             Ok (Line (mk_LyricLine lrc_time text))
         | _ => Ok Nothing
         end)
        IndexError (Ok Nothing)
  end.

Definition collect (d : StandardLyricDocument LyricLine) (p : parsed)
  : StandardLyricDocument LyricLine :=
  match p with
  | Meta m => mk_StandardLyricDocument (lines d) (meta d ++ [m])
  | Line l => mk_StandardLyricDocument (lines d ++ [l]) (meta d)
  | Nothing => d
  end.

Fixpoint parse_lines (d : StandardLyricDocument LyricLine) (ls : list str)
  : result (StandardLyricDocument LyricLine) :=
  match ls with
  | [] => Ok d
  | line :: ls' =>
      p <- parse_line (strip line) ;;
      parse_lines (collect d p) ls'
  end.

(** [StandardLRCParser.parse]. *)
Definition StandardLRCParser_parse (text : str)
  : result (StandardLyricDocument LyricLine) :=
  parse_lines (mk_StandardLyricDocument [] []) (splitlines text).

(** ** The merge *)

(** The comprehension that builds [available_tran]: the lines of one sorted
    translation document within [interval] of the origin line. *)
Definition available_tran (interval : Z) (o : LyricLine) (t : list LyricLine)
  : list LyricLine :=
  filter
    (fun x =>
       Z.abs (LRCTime_total_milliseconds (line_time x)
              - LRCTime_total_milliseconds (line_time o)) <=? interval)
    t.

(** The inner loop: at most one line from each translation document. *)
Definition available_trans (interval : Z) (o : LyricLine)
  (parsed_trans : list (list LyricLine)) : list LyricLine :=
  flat_map
    (fun t =>
       match available_tran interval o t with
       | [] => []
       | x :: _ => [x]
       end)
    parsed_trans.

(** The body of the outer loop. *)
Definition combine_line (interval : Z) (parsed_trans : list (list LyricLine))
  (o : LyricLine) : result CombinedLyricLine :=
  match available_trans interval o parsed_trans with
  | [] => e <- LyricLine_empty_line ;; Ok (CombinedLyricLine_init o [e])
  | ts => Ok (CombinedLyricLine_init o ts)
  end.

(** The merge of parsed documents: everything in [parse_with_translate]
    after the calls to [parse]. *)
Definition merge (interval : Z) (parsed_origin : StandardLyricDocument LyricLine)
  (parsed_trans : list (StandardLyricDocument LyricLine))
  : result (StandardLyricDocument CombinedLyricLine) :=
  let origin_lines := sort LyricLine_ltb (lines parsed_origin) in
  let trans_lines := map (fun t => sort LyricLine_ltb (lines t)) parsed_trans in
  final_lines <- mapM (combine_line interval trans_lines) origin_lines ;;
  Ok (mk_StandardLyricDocument (sort CombinedLyricLine_ltb final_lines)
        (meta parsed_origin)).

(** [StandardLRCParser.parse_with_translate]. *)
Definition StandardLRCParser_parse_with_translate (origin : str) (interval : Z)
  (trans : list str) : result (StandardLyricDocument CombinedLyricLine) :=
  parsed_origin <- StandardLRCParser_parse origin ;;
  parsed_trans <- mapM StandardLRCParser_parse trans ;;
  merge interval parsed_origin parsed_trans.

(** ** The enhanced model *)

Record TimedCharacter : Type := mk_TimedCharacter {
  char_time : LRCTime;
  character : str
}.

(** [TimedCharacter.standard_parse]. *)
Definition TimedCharacter_standard_parse (minutes seconds milliseconds : str)
  (character : str) : result TimedCharacter :=
  current_time <- LRCTime_init minutes seconds milliseconds ;;
  Ok (mk_TimedCharacter current_time character).

Record EnhancedLyricLine : Type := mk_EnhancedLyricLine {
  characters : list TimedCharacter;
  end_time_override : option LRCTime
}.

(** [EnhancedLyricLine.__init__]. *)
Definition EnhancedLyricLine_init (characters : list TimedCharacter)
  : EnhancedLyricLine :=
  mk_EnhancedLyricLine characters None.

Definition start_time (l : EnhancedLyricLine) : option LRCTime :=
  match characters l with
  | [] => None
  | c :: _ => Some (char_time c)
  end.

Definition end_time (l : EnhancedLyricLine) : option LRCTime :=
  match end_time_override l with
  | Some t => Some t
  | None =>
      match characters l with
      | [] => None
      | c :: cs => Some (char_time (last cs c))
      end
  end.

Definition text (l : EnhancedLyricLine) : str :=
  concat (map character (characters l)).

(** [EnhancedLyricLine.__lt__] between two enhanced lines. *)
Definition EnhancedLyricLine_ltb (self other : EnhancedLyricLine) : bool :=
  match start_time self with
  | None => false
  | Some self_time =>
      match start_time other with
      | None => true
      | Some other_time => LRCTime_ltb self_time other_time
      end
  end.

(** [EnhancedLyricLine.__eq__]: equality of two optional timestamps, where
    [None] equals [None] only. *)
Definition EnhancedLyricLine_eqb (self other : EnhancedLyricLine) : bool :=
  match start_time self, start_time other with
  | None, None => true
  | Some a, Some b => LRCTime_eqb a b
  | _, _ => false
  end.

(** [EnhancedLyricLine.from_string]. *)
Definition EnhancedLyricLine_from_string (line_str : str)
  : result EnhancedLyricLine :=
  let matches := findall enhanced_pattern line_str in
  characters <-
    mapM (fun m =>
            match m with
            | [minutes; seconds; milliseconds; char] =>
                TimedCharacter_standard_parse minutes seconds milliseconds char
            | _ => Raise ValueError
            end)
         matches ;;
  Ok (EnhancedLyricLine_init characters).

(** ** Objects

    [LyricLine] instances are mutable objects: a constructor that receives
    one holds a reference to it, and an assignment to [line.time] is seen
    through every reference.  The store maps a reference to the attributes
    of the object; [LRCTime] instances are never written to, so they stay
    values.  An attribute [time] can hold [None], which is what an enhanced
    line without characters reports as its start. *)

Module Store.

Record obj : Type := mk_obj {
  obj_time : option LRCTime;
  obj_texts : str
}.

Definition ref := nat.
Definition store := list obj.

(** A computation on the store; [None] is a reference to no object. *)
Definition M (A : Type) : Type := store -> option (A * store).

Definition ret {A : Type} (a : A) : M A := fun h => Some (a, h).

Definition bindM {A B : Type} (m : M A) (k : A -> M B) : M B :=
  fun h =>
    match m h with
    | Some (a, h') => k a h'
    | None => None
    end.

Fixpoint update (h : store) (r : ref) (o : obj) : store :=
  match h, r with
  | [], _ => []
  | _ :: h', O => o :: h'
  | x :: h', S r' => x :: update h' r' o
  end.

Definition read (r : ref) : M obj :=
  fun h =>
    match nth_error h r with
    | Some o => Some (o, h)
    | None => None
    end.

Definition alloc (o : obj) : M ref :=
  fun h => Some (length h, h ++ [o]).

(** [r.time = t]. *)
Definition set_time (r : ref) (t : option LRCTime) : M unit :=
  fun h =>
    match nth_error h r with
    | Some o => Some (tt, update h r (mk_obj t (obj_texts o)))
    | None => None
    end.

(** [deepcopy(r)]: a new object with copies of the attributes. *)
Definition deepcopy (r : ref) : M ref :=
  bindM (read r) alloc.

(** The loop [for t in trans: ...] of both constructors; [acc] is
    [self.trans]. *)
Fixpoint stamp_copies (time : option LRCTime) (ts : list ref) (acc : list ref)
  : M (list ref) :=
  match ts with
  | [] => ret acc
  | t :: ts' =>
      bindM (deepcopy t) (fun copy_line =>
      bindM (set_time copy_line time) (fun _ =>
      stamp_copies time ts' (acc ++ [copy_line])))
  end.

Record CombinedLyricLineObj : Type := mk_CombinedLyricLineObj {
  self_origin : ref;
  self_time : option LRCTime;
  self_trans : list ref
}.

(** [CombinedLyricLine.__init__(self, origin, *trans)]. *)
Definition CombinedLyricLine_init (origin : ref) (ts : list ref)
  : M CombinedLyricLineObj :=
  bindM (read origin) (fun o =>
  let time := obj_time o in
  bindM (stamp_copies time ts []) (fun copies =>
  ret (mk_CombinedLyricLineObj origin time copies))).

Record EnhancedCombinedLyricLineObj : Type := mk_EnhancedCombinedLyricLineObj {
  enh_origin : EnhancedLyricLine;
  enh_start_time : option LRCTime;
  enh_end_time : option LRCTime;
  enh_trans : list ref
}.

(** [EnhancedCombinedLyricLine.__init__(self, origin, *trans)]; the
    origin is an enhanced line, which the constructor only reads. *)
Definition EnhancedCombinedLyricLine_init (origin : EnhancedLyricLine)
  (ts : list ref) : M EnhancedCombinedLyricLineObj :=
  let start := start_time origin in
  bindM (stamp_copies start ts []) (fun copies =>
  ret (mk_EnhancedCombinedLyricLineObj origin start (end_time origin) copies)).

(** The object a [LyricLine] value denotes, and back. *)
Definition of_line (l : LyricLine) : obj :=
  mk_obj (Some (line_time l)) (texts l).

End Store.

(** ** The rest of the enhanced model *)

(** [a <= b] on timestamps, as [functools.total_ordering] derives it from
    [__lt__] and [__eq__]. *)
Definition LRCTime_leb (a b : LRCTime) : bool :=
  LRCTime_ltb a b || LRCTime_eqb a b.

(** [TimedCharacter.is_whitespace]. *)
Definition TimedCharacter_is_whitespace (c : TimedCharacter) : bool :=
  isspace (character c).

(** [TimedCharacter.is_empty]. *)
Definition TimedCharacter_is_empty (c : TimedCharacter) : bool :=
  str_is_empty (character c).

(** [TimedCharacter.__str__]. *)
Definition TimedCharacter_str (c : TimedCharacter) : str :=
  [chr_lbracket] ++ LRCTime_str (char_time c) ++ [chr_rbracket] ++ character c.

(** [TimedCharacter.__lt__] and [TimedCharacter.__eq__] between two timed
    characters. *)
Definition TimedCharacter_ltb (a b : TimedCharacter) : bool :=
  LRCTime_ltb (char_time a) (char_time b).

Definition TimedCharacter_eqb (a b : TimedCharacter) : bool :=
  LRCTime_eqb (char_time a) (char_time b)
  && str_eqb (character a) (character b).

(** [EnhancedLyricLine.add_character] and [extend_characters]. *)
Definition add_character (l : EnhancedLyricLine) (c : TimedCharacter)
  : EnhancedLyricLine :=
  mk_EnhancedLyricLine (characters l ++ [c]) (end_time_override l).

Definition extend_characters (l : EnhancedLyricLine) (cs : list TimedCharacter)
  : EnhancedLyricLine :=
  mk_EnhancedLyricLine (characters l ++ cs) (end_time_override l).

(** [set_end_time_override] and [clear_end_time_override]. *)
Definition set_end_time_override (l : EnhancedLyricLine) (t : LRCTime)
  : EnhancedLyricLine :=
  mk_EnhancedLyricLine (characters l) (Some t).

Definition clear_end_time_override (l : EnhancedLyricLine) : EnhancedLyricLine :=
  mk_EnhancedLyricLine (characters l) None.

(** The property [text_without_whitespace]. *)
Definition text_without_whitespace (l : EnhancedLyricLine) : str :=
  concat (map character
            (filter (fun c => negb (TimedCharacter_is_whitespace c))
               (characters l))).

(** The loop of [get_character_at_time]: [current_char] is the last
    character seen, the loop stops at the first character after [time]. *)
Fixpoint character_at_time_from (current_char : option TimedCharacter)
  (cs : list TimedCharacter) (time : LRCTime) : option TimedCharacter :=
  match cs with
  | [] => current_char
  | char :: cs' =>
      if LRCTime_leb (char_time char) time
      then character_at_time_from (Some char) cs' time
      else current_char
  end.

(** [EnhancedLyricLine.get_character_at_time]. *)
Definition get_character_at_time (l : EnhancedLyricLine) (time : LRCTime)
  : option TimedCharacter :=
  character_at_time_from None (characters l) time.

(** [EnhancedLyricLine.get_characters_in_range]. *)
Definition get_characters_in_range (l : EnhancedLyricLine)
  (start_time end_time : LRCTime) : list TimedCharacter :=
  filter (fun char => LRCTime_leb start_time (char_time char)
                      && LRCTime_leb (char_time char) end_time)
    (characters l).

(** The loop of [split_by_whitespace]: [words] and [current_word] are the
    two accumulators, in order. *)
Fixpoint split_words (words : list (list TimedCharacter))
  (current_word : list TimedCharacter) (cs : list TimedCharacter)
  : list (list TimedCharacter) :=
  match cs with
  | [] =>
      match current_word with
      | [] => words
      | _ => words ++ [current_word]
      end
  | char :: cs' =>
      if TimedCharacter_is_whitespace char || TimedCharacter_is_empty char
      then
        match current_word with
        | [] => split_words words [] cs'
        | _ => split_words (words ++ [current_word]) [] cs'
        end
      else split_words words (current_word ++ [char]) cs'
  end.

(** [EnhancedLyricLine.split_by_whitespace]. *)
Definition split_by_whitespace (l : EnhancedLyricLine)
  : list (list TimedCharacter) :=
  split_words [] [] (characters l).

(** [EnhancedLyricLine.sort_characters]. *)
Definition sort_characters (l : EnhancedLyricLine) : EnhancedLyricLine :=
  mk_EnhancedLyricLine (sort TimedCharacter_ltb (characters l))
    (end_time_override l).

(** [EnhancedLyricLine.is_empty]. *)
Definition EnhancedLyricLine_is_empty (l : EnhancedLyricLine) : bool :=
  (length (characters l) =? 0)%nat
  || forallb TimedCharacter_is_empty (characters l).

(** [EnhancedLyricLine.__str__]. *)
Definition EnhancedLyricLine_str (l : EnhancedLyricLine) : str :=
  concat (map TimedCharacter_str (characters l)).

(** [EnhancedLyricLine.empty_line]. *)
Definition EnhancedLyricLine_empty_line : EnhancedLyricLine :=
  EnhancedLyricLine_init [].

(** [EnhancedLyricDocument] and its [to_lrc]. *)
Record EnhancedLyricDocument : Type := mk_EnhancedLyricDocument {
  enhanced_lines : list EnhancedLyricLine;
  enhanced_meta : list LyricMeta
}.

Definition EnhancedLyricDocument_to_lrc (d : EnhancedLyricDocument) : str :=
  join [chr_newline]
    (map LyricMeta_str (enhanced_meta d)
     ++ map EnhancedLyricLine_str (enhanced_lines d)).

(** ** The enhanced parser *)

(** What one physical line contributes to an enhanced document. *)
Inductive enhanced_parsed : Type :=
| EMeta (m : LyricMeta)
| ELine (l : EnhancedLyricLine)
| ENothing.

(** The body of the loop of [EnhancedLyricParser.parse] on one line,
    already stripped. *)
Definition enhanced_parse_line (line : str) : result enhanced_parsed :=
  match match_ tag_pattern line with
  | Some [g1; g2] => m <- LyricMeta_init g1 g2 ;; Ok (EMeta m)
  | Some _ => Ok ENothing
  | None =>
      let time_text_match := findall enhanced_pattern line in
      match time_text_match with
      | [] => Ok ENothing
      | _ => l <- EnhancedLyricLine_from_string line ;; Ok (ELine l)
      end
  end.

Definition enhanced_collect (d : EnhancedLyricDocument) (p : enhanced_parsed)
  : EnhancedLyricDocument :=
  match p with
  | EMeta m => mk_EnhancedLyricDocument (enhanced_lines d) (enhanced_meta d ++ [m])
  | ELine l => mk_EnhancedLyricDocument (enhanced_lines d ++ [l]) (enhanced_meta d)
  | ENothing => d
  end.

Fixpoint enhanced_parse_lines (d : EnhancedLyricDocument) (ls : list str)
  : result EnhancedLyricDocument :=
  match ls with
  | [] => Ok d
  | line :: ls' =>
      p <- enhanced_parse_line (strip line) ;;
      enhanced_parse_lines (enhanced_collect d p) ls'
  end.

(** [EnhancedLyricParser.parse]. *)
Definition EnhancedLyricParser_parse (text : str)
  : result EnhancedLyricDocument :=
  enhanced_parse_lines (mk_EnhancedLyricDocument [] []) (splitlines text).

(** * Vocabulary of the properties *)


(** A non-empty string of decimal digits, and the number it writes. *)
Definition numeric (s : str) : Prop :=
  s <> [] /\ forallb Unicode.isdecimal s = true.

(** A string within the interpreter's limit on the digits of an integer. *)
Definition short (s : str) : Prop :=
  Z.of_nat (length s) <= int_max_str_digits.

Definition digit_val (c : codepoint) : Z :=
  match Unicode.decimal_value c with
  | Some d => d
  | None => 0
  end.

Definition str_value (s : str) : Z :=
  fold_left (fun a c => 10 * a + digit_val c) s 0.

Definition MAX_SECONDS : Z := 86400000000000.

(** The strings of the examples. *)
Definition s_00 : str := [48; 48].
Definition s_000 : str := [48; 48; 48].
Definition s_001 : str := [48; 48; 49].
(** "1440000000000": a thousand million days, in minutes. *)
Definition s_minutes_overflow : str :=
  [49; 52; 52; 48; 48; 48; 48; 48; 48; 48; 48; 48; 48].
(** "200000000000" *)
Definition s_minutes_large : str :=
  [50; 48; 48; 48; 48; 48; 48; 48; 48; 48; 48; 48].

(** The candidate test of the merge: the distance in milliseconds, as the
    program measures it, between a translation line and an origin line. *)
Definition distance (x o : LyricLine) : Z :=
  Z.abs (LRCTime_total_milliseconds (line_time x)
         - LRCTime_total_milliseconds (line_time o)).

(** The milliseconds a timestamp holds, read off its duration. *)
Definition held_milliseconds (t : LRCTime) : Z :=
  timedelta_to_microseconds (time t) / 1000.

(** The gap between the timestamps of two lines, in milliseconds. *)
Definition gap (x o : LyricLine) : Z :=
  Z.abs (held_milliseconds (line_time x) - held_milliseconds (line_time o)).

(** The line a translation document contributes for an origin line. *)
Definition selected (interval : Z) (o : LyricLine) (t : list LyricLine)
  : option LyricLine :=
  hd_error (available_tran interval o (sort LyricLine_ltb t)).

(** A document the standard parser returns for some text. *)
Definition parsed_document (d : StandardLyricDocument LyricLine) : Prop :=
  exists text, StandardLRCParser_parse text = Ok d.

(** The placeholder as the combined line stores it. *)
Definition placeholder (o : LyricLine) : LyricLine :=
  mk_LyricLine (line_time o) [].

(** A list in order: no element is strictly below one that precedes it. *)
Definition ordered (A : Type) (ltb : A -> A -> bool) : list A -> Prop :=
  StronglySorted (fun a b => ltb b a = false).

(** Lines for the examples of the merge: a line at [ms] milliseconds. *)
Definition line_at (ms : Z) (text : str) : LyricLine :=
  mk_LyricLine (mk_LRCTime (mk_timedelta 0 (ms / 1000) (ms mod 1000 * 1000)))
    text.

(** The line [LyricLine.empty_line()] returns. *)
Definition the_empty_line : LyricLine :=
  mk_LyricLine (mk_LRCTime (mk_timedelta 0 0 0)) [].

(** The combined line the merge builds for an origin line. *)
Definition combined (interval : Z) (parsed_trans : list (list LyricLine))
  (o : LyricLine) : CombinedLyricLine :=
  match available_trans interval o parsed_trans with
  | [] => CombinedLyricLine_init o [the_empty_line]
  | ts => CombinedLyricLine_init o ts
  end.

(** "[00:12.340]Hello world" *)
Definition s_hello_line : str :=
  [91; 48; 48; 58; 49; 50; 46; 51; 52; 48; 93;
   72; 101; 108; 108; 111; 32; 119; 111; 114; 108; 100].

(** "Hello world" *)
Definition s_hello : str :=
  [72; 101; 108; 108; 111; 32; 119; 111; 114; 108; 100].

(** "[00:12.340]Hello world\n[00:12.340]" *)
Definition s_hello_two_lines : str :=
  s_hello_line ++ [10; 91; 48; 48; 58; 49; 50; 46; 51; 52; 48; 93].

(** "[00:13.000]Bonjour" *)
Definition s_bonjour_line : str :=
  [91; 48; 48; 58; 49; 51; 46; 48; 48; 48; 93;
   66; 111; 110; 106; 111; 117; 114].

(** "[00:13.000]o", and the two lines "[00:13.000]b" and "[00:12.340]a":
    an origin text and a translation text, with the documents they parse
    to. *)
Definition s_origin_13 : str :=
  [91; 48; 48; 58; 49; 51; 46; 48; 48; 48; 93; 111].

Definition s_translation_13_12 : str :=
  [91; 48; 48; 58; 49; 51; 46; 48; 48; 48; 93; 98; 10;
   91; 48; 48; 58; 49; 50; 46; 51; 52; 48; 93; 97].

Definition origin_13 : StandardLyricDocument LyricLine :=
  mk_StandardLyricDocument [line_at 13000 [111]] [].

Definition translation_13_12 : StandardLyricDocument LyricLine :=
  mk_StandardLyricDocument [line_at 13000 [98]; line_at 12340 [97]] [].

(** "[00:12.340]o", and the two lines "[00:12.841]b" and "[00:12.840]a". *)
Definition s_origin_12 : str :=
  [91; 48; 48; 58; 49; 50; 46; 51; 52; 48; 93; 111].

Definition s_translation_841_840 : str :=
  [91; 48; 48; 58; 49; 50; 46; 56; 52; 49; 93; 98; 10;
   91; 48; 48; 58; 49; 50; 46; 56; 52; 48; 93; 97].

Definition origin_12 : StandardLyricDocument LyricLine :=
  mk_StandardLyricDocument [line_at 12340 [111]] [].

Definition translation_841_840 : StandardLyricDocument LyricLine :=
  mk_StandardLyricDocument [line_at 12841 [98]; line_at 12840 [97]] [].

(** The origin line of the example, as parsed. *)
Definition hello_line : LyricLine := line_at 12340 s_hello.

(** An enhanced line without characters. *)
Definition no_characters (l : EnhancedLyricLine) : bool :=
  match characters l with [] => true | _ => false end.

(** The text of the object a reference points to. *)
Definition texts_at (h : Store.store) (r : Store.ref) : str :=
  match nth_error h r with
  | Some o => Store.obj_texts o
  | None => []
  end.

(** The objects the constructors allocate: one per translation, with the
    time of the origin and the text of the translation. *)
Definition stamped (time : option LRCTime) (h : Store.store)
  (ts : list Store.ref) : list Store.obj :=
  map (fun t => Store.mk_obj time (texts_at h t)) ts.

(** Two enhanced lines and an empty one, for the examples. *)
Definition enhanced_at (ms : Z) : EnhancedLyricLine :=
  EnhancedLyricLine_init
    [mk_TimedCharacter (mk_LRCTime (mk_timedelta 0 (ms / 1000)
                                      (ms mod 1000 * 1000))) [97]].

Definition enhanced_empty : EnhancedLyricLine := EnhancedLyricLine_init [].

(** Attaching a captured group to the result of the rest of the pattern. *)
Definition with_group (capture : bool) (g : str)
  (r : option (list str * str)) : option (list str * str) :=
  match r with
  | Some (groups, rest) => Some (if capture then g :: groups else groups, rest)
  | None => None
  end.

(** Matching without backtracking: every repetition takes its longest
    run. *)
Fixpoint det_items (p : pattern) (s : str) : option (list str * str) :=
  match p with
  | [] => Some ([], s)
  | One k :: p' =>
      match s with
      | c :: s' => if cmatch k c then det_items p' s' else None
      | [] => None
      end
  | Rep capture k lo hi :: p' =>
      let n := run k hi s in
      if (lo <=? n)%nat
      then with_group capture (firstn n s) (det_items p' (skipn n s))
      else None
  end.

(** Patterns in which a repetition is last or followed by a literal outside
    its class: a shorter run can never succeed where the longest fails. *)
Fixpoint no_backtrack (p : pattern) : bool :=
  match p with
  | [] => true
  | One _ :: p' => no_backtrack p'
  | Rep _ k _ _ :: p' =>
      match p' with
      | [] => true
      | One (Char d) :: _ => negb (cmatch k d)
      | _ => false
      end && no_backtrack p'
  end.

(** A bracketed timestamp "[mm:ss.f]" with two, two and one to three
    decimal digits. *)
Definition stamp (mm ss f : str) : Prop :=
  length mm = 2%nat /\ length ss = 2%nat
  /\ (1 <= length f <= 3)%nat
  /\ forallb Unicode.isdecimal mm = true
  /\ forallb Unicode.isdecimal ss = true
  /\ forallb Unicode.isdecimal f = true.

Definition bracket (mm ss f : str) : str :=
  chr_lbracket :: mm ++ chr_colon :: ss ++ chr_dot :: f ++ [chr_rbracket].

Definition starts_with_stamp (s : str) : Prop :=
  exists mm ss f rest, stamp mm ss f /\ s = bracket mm ss f ++ rest.

(** No timestamp begins at any of the first [n] positions of [s]. *)
Definition no_stamp_before (n : nat) (s : str) : Prop :=
  forall i, (i < n)%nat -> ~ starts_with_stamp (skipn i s).

(** No timestamp begins anywhere in [s]. *)
Definition stamp_free (s : str) : Prop :=
  no_stamp_before (S (length s)) s.

Definition is_bracket (c : codepoint) : bool :=
  (c =? chr_lbracket) || (c =? chr_rbracket).

(** The timestamp a matched bracket denotes. *)
Definition stamp_time (mm ss f : str) : LRCTime :=
  mk_LRCTime
    (mk_timedelta ((str_value mm * 60 + str_value ss) / 86400)
       ((str_value mm * 60 + str_value ss) mod 86400)
       (str_value (ljust f 3 chr_0) * 1000)).

(** The two timestamp patterns differ in the class of the payload only. *)
Definition stamp_pattern (payload : cclass) : pattern :=
  [One (Char chr_lbracket);
   Rep true Digit 2 (Some 2%nat);
   One (Char chr_colon);
   Rep true Digit 2 (Some 2%nat);
   One (Char chr_dot);
   Rep true Digit 1 (Some 3%nat);
   One (Char chr_rbracket);
   Rep true payload 0 None].

Definition not_bracket : cclass :=
  NoneOf [(chr_lbracket, chr_lbracket); (chr_rbracket, chr_rbracket)].

(** "[00:19.845]" tsu "[00:20.084]" ma, the line of the test. *)
Definition s_tsuma : str :=
  [91; 48; 48; 58; 49; 57; 46; 56; 52; 53; 93; 12388;
   91; 48; 48; 58; 50; 48; 46; 48; 56; 52; 93; 12414].

(** "[00:60.000]x" *)
Definition s_sixty_seconds : str :=
  [91; 48; 48; 58; 54; 48; 46; 48; 48; 48; 93; 120].

(** "xx[00:12.340]Hello world" *)
Definition s_hello_after_junk : str := 120 :: 120 :: s_hello_line.

(** * Vocabulary of the further properties *)

(** The milliseconds a triple of numeric strings denotes. *)
Definition exact_milliseconds (m s ms : str) : Z :=
  (str_value m * 60 + str_value s) * 1000 + str_value (ljust ms 3 chr_0).

(** The timestamp that holds exactly [n] milliseconds. *)
Definition time_of_milliseconds (n : Z) : LRCTime :=
  mk_LRCTime
    (mk_timedelta (n / 1000 / 86400) (n / 1000 mod 86400) (n mod 1000 * 1000)).

(** The least number with more decimal digits than the interpreter's
    limit. *)
Definition int_max_str_value : Z := 10 ^ int_max_str_digits.

(** A string of ASCII digits. *)
Definition ascii_digits (s : str) : bool :=
  forallb (fun c => (chr_0 <=? c) && (c <=? 57)) s.

(** The value of a string of decimal digits read from its last one. *)
Definition value_le (l : str) : Z :=
  fold_right (fun c acc => 10 * acc + digit_val c) 0 l.

(** The two- and three-digit renderings, digit by digit. *)
Definition two_digits (v : Z) : str := [chr_0 + v / 10; chr_0 + v mod 10].

Definition three_digits (v : Z) : str :=
  [chr_0 + v / 100; chr_0 + v / 10 mod 10; chr_0 + v mod 10].

(** The text of a timestamp "mm:ss.fff". *)
Definition stamp_text (mm ss f : str) : str :=
  mm ++ [chr_colon] ++ ss ++ [chr_dot] ++ ljust f 3 chr_0.

(** The timed lines and the metadata among what the lines of a text
    contribute, each in the order of the text. *)
Definition lines_of (ps : list parsed) : list LyricLine :=
  flat_map (fun p => match p with Line l => [l] | _ => [] end) ps.

Definition metas_of (ps : list parsed) : list LyricMeta :=
  flat_map (fun p => match p with Meta m => [m] | _ => [] end) ps.

Definition enhanced_lines_of (ps : list enhanced_parsed)
  : list EnhancedLyricLine :=
  flat_map (fun p => match p with ELine l => [l] | _ => [] end) ps.

Definition enhanced_metas_of (ps : list enhanced_parsed) : list LyricMeta :=
  flat_map (fun p => match p with EMeta m => [m] | _ => [] end) ps.

(** ASCII letters, the class of a tag. *)
Definition letters : cclass := OneOf [(97, 122); (65, 90)].

(** Everything but a closing bracket, the class of a value. *)
Definition not_rbracket : cclass := NoneOf [(chr_rbracket, chr_rbracket)].

(** The text of a tag line "[tag:value]". *)
Definition tag_text (tg vl : str) : str :=
  chr_lbracket :: tg ++ chr_colon :: vl ++ [chr_rbracket].

(** The sorted lines of the translation documents, as the merge uses them. *)
Definition sorted_trans (pts : list (StandardLyricDocument LyricLine))
  : list (list LyricLine) :=
  map (fun t => sort LyricLine_ltb (lines t)) pts.

(** The origin document after its lines are sorted in place. *)
Definition sorted_document (d : StandardLyricDocument LyricLine)
  : StandardLyricDocument LyricLine :=
  mk_StandardLyricDocument (sort LyricLine_ltb (lines d)) (meta d).

(** Documents for the examples of the merge. *)
Definition origin_two_lines : StandardLyricDocument LyricLine :=
  mk_StandardLyricDocument [line_at 2000 [98]; line_at 1000 [97]] [].

Definition translation_near : StandardLyricDocument LyricLine :=
  mk_StandardLyricDocument [line_at 1200 [99]] [].

Definition combined_near : CombinedLyricLine :=
  combined 500 (sorted_trans [translation_near]) (line_at 1000 [97]).

(** A segment "[mm:ss.f]txt" of an enhanced line: the three digit groups
    of the timestamp and the text behind it. *)
Definition segment : Type := (str * str * str * str)%type.

Definition segment_source (g : segment) : str :=
  let '(mm, ss, f, txt) := g in bracket mm ss f ++ txt.

Definition segment_character (g : segment) : TimedCharacter :=
  let '(mm, ss, f, txt) := g in mk_TimedCharacter (stamp_time mm ss f) txt.

(** The segment with the fraction padded to three digits. *)
Definition segment_print (g : segment) : str :=
  let '(mm, ss, f, txt) := g in
  [chr_lbracket] ++ stamp_text mm ss f ++ [chr_rbracket] ++ txt.

(** A segment the parser accepts: a timestamp with seconds up to 59 and a
    text without brackets. *)
Definition accepted (g : segment) : Prop :=
  let '(mm, ss, f, txt) := g in
  stamp mm ss f /\ str_value ss <= 59
  /\ forallb (fun c => negb (is_bracket c)) txt = true.

Definition ascii_segment (g : segment) : Prop :=
  let '(mm, ss, f, _) := g in ascii_digits (mm ++ ss ++ f) = true.

Definition full_fraction (g : segment) : Prop :=
  let '(_, _, f, _) := g in length f = 3%nat.

(** "[00:19.845]" tsu and "[00:20.084]" ma, the segments of the test line. *)
Definition tsuma_segments : list segment :=
  [([48; 48], [49; 57], [56; 52; 53], [12388]);
   ([48; 48], [50; 48], [48; 56; 52], [12414])].

(** A character that ends a word: white space or the empty string. *)
Definition separates (c : TimedCharacter) : bool :=
  TimedCharacter_is_whitespace c || TimedCharacter_is_empty c.

(** The last element of a list, if any. *)
Definition last_error {A : Type} (l : list A) : option A := hd_error (rev l).

(** The characters that are due at [t]. *)
Definition due (t : LRCTime) (c : TimedCharacter) : bool :=
  LRCTime_leb (char_time c) t.

(** A line of three characters at 1, 2 and 3 seconds, the middle one a
    blank. *)
Definition a_blank_b : EnhancedLyricLine :=
  EnhancedLyricLine_init
    [mk_TimedCharacter (time_of_milliseconds 1000) [97];
     mk_TimedCharacter (time_of_milliseconds 2000) [32];
     mk_TimedCharacter (time_of_milliseconds 3000) [98]].

(** A line of one blank. *)
Definition blank_line : EnhancedLyricLine :=
  EnhancedLyricLine_init [mk_TimedCharacter (time_of_milliseconds 1000) [32]].

(** A string without line boundaries. *)
Definition no_linebreak (s : str) : bool :=
  forallb (fun c => negb (Unicode.islinebreak c)) s.

(** The lines and the metadata that can be read back from their text: a
    line below one hundred minutes whose text holds no line boundary and
    does not end in white space; a tag of two or three ASCII letters with a
    value that is not empty and holds no closing bracket and no line
    boundary. *)
Definition printable_line (l : LyricLine) : Prop :=
  (exists n, 0 <= n < 6000000 /\ line_time l = time_of_milliseconds n)
  /\ no_linebreak (texts l) = true
  /\ Unicode.isspace (last (texts l) chr_rbracket) = false.

Definition printable_meta (m : LyricMeta) : Prop :=
  (2 <= length (tag m) <= 3)%nat
  /\ forallb (cmatch letters) (tag m) = true
  /\ value m <> []
  /\ ~ In chr_rbracket (value m)
  /\ no_linebreak (value m) = true.

Definition printable (d : StandardLyricDocument LyricLine) : Prop :=
  Forall printable_line (lines d) /\ Forall printable_meta (meta d).

(** A document of one tag and one line, for the examples. *)
Definition tagged_hello : StandardLyricDocument LyricLine :=
  mk_StandardLyricDocument
    [mk_LyricLine (time_of_milliseconds 12340) s_hello]
    [mk_LyricMeta [97; 114] [65; 32; 66]].

(** The lines a combined line prints, one per line of text: the origin and
    the translations with a text, or the bare origin when its own text is
    empty. *)
Definition printed_lines (c : CombinedLyricLine) : list LyricLine :=
  if str_is_empty (texts (origin c))
  then [mk_LyricLine (combined_time c) (texts (origin c))]
  else origin c
       :: filter (fun t => negb (str_is_empty (texts t))) (trans c).

(** A printable origin and a printable translation 200 milliseconds
    apart. *)
Definition origin_hello : StandardLyricDocument LyricLine :=
  mk_StandardLyricDocument
    [mk_LyricLine (time_of_milliseconds 12340) s_hello]
    [mk_LyricMeta [97; 114] [65; 32; 66]].

Definition translation_salut : StandardLyricDocument LyricLine :=
  mk_StandardLyricDocument
    [mk_LyricLine (time_of_milliseconds 12540) [83; 97; 108; 117; 116]]
    [].

(** The segment a timed character prints. *)
Definition character_segment (c : TimedCharacter) : segment :=
  (padded 2 (LRCTime_minutes (char_time c)),
   padded 2 (LRCTime_seconds (char_time c)),
   padded 3 (LRCTime_milliseconds (char_time c)),
   character c).

(** The enhanced lines that can be read back from their text: no end time
    set by hand, at least one character, every character below one hundred
    minutes with a text without brackets and line boundaries, and no white
    space at the end of the last text. *)
Definition printable_character (c : TimedCharacter) : Prop :=
  (exists n, 0 <= n < 6000000 /\ char_time c = time_of_milliseconds n)
  /\ forallb (fun x => negb (is_bracket x)) (character c) = true
  /\ no_linebreak (character c) = true.

Definition printable_enhanced_line (l : EnhancedLyricLine) : Prop :=
  end_time_override l = None
  /\ Forall printable_character (characters l)
  /\ exists cs c,
       characters l = cs ++ [c]
       /\ Unicode.isspace (last (character c) chr_rbracket) = false.

Definition printable_enhanced (d : EnhancedLyricDocument) : Prop :=
  Forall printable_enhanced_line (enhanced_lines d)
  /\ Forall printable_meta (enhanced_meta d).

(** An enhanced document of one tag and the line of the test. *)
Definition tagged_tsuma : EnhancedLyricDocument :=
  mk_EnhancedLyricDocument
    [EnhancedLyricLine_init
       [mk_TimedCharacter (time_of_milliseconds 19845) [12388];
        mk_TimedCharacter (time_of_milliseconds 20084) [12414]]]
    [mk_LyricMeta [97; 114] [65; 32; 66]].

(** "[00:01.000]a ]": a blank in front of a stray bracket. *)
Definition s_blank_before_bracket : str :=
  [91; 48; 48; 58; 48; 49; 46; 48; 48; 48; 93; 97; 32; 93].

(** A line whose characters are out of order: 3, 1 and 2 seconds. *)
Definition out_of_order : EnhancedLyricLine :=
  EnhancedLyricLine_init
    [mk_TimedCharacter (time_of_milliseconds 3000) [99];
     mk_TimedCharacter (time_of_milliseconds 1000) [97];
     mk_TimedCharacter (time_of_milliseconds 2000) [98]].


(** * Properties *)

Unset Implicit Arguments.

(** ** Digits and integers *)

Lemma find_none_existsb (A : Type) (f : A -> bool) (l : list A) :
  find f l = None <-> existsb f l = false.
Proof.
  induction l as [|a l IH]; simpl.
  - tauto.
  - destruct (f a); simpl; [split; discriminate | exact IH].
Qed.

Lemma decimal_value_none (c : codepoint) :
  Unicode.decimal_value c = None <-> Unicode.isdecimal c = false.
Proof.
  unfold Unicode.decimal_value, Unicode.isdecimal, Unicode.in_ranges.
  rewrite <- find_none_existsb.
  destruct (find _ Unicode.decimal_ranges); split; congruence.
Qed.

Lemma decimal_value_some (c : codepoint) :
  Unicode.isdecimal c = true -> Unicode.decimal_value c = Some (digit_val c).
Proof.
  intros H. unfold digit_val.
  destruct (Unicode.decimal_value c) eqn:E; [reflexivity|].
  apply decimal_value_none in E. congruence.
Qed.

Lemma digit_val_range (c : codepoint) : 0 <= digit_val c <= 9.
Proof.
  unfold digit_val, Unicode.decimal_value.
  destruct (find _ _) as [r|]; [|lia].
  pose proof (Z.mod_pos_bound (c - fst r) 10). lia.
Qed.

Lemma isdecimal_ascii (c : codepoint) :
  48 <= c <= 57 -> Unicode.isdecimal c = true /\ digit_val c = c - 48.
Proof.
  intros H.
  assert (E : c = 48 \/ c = 49 \/ c = 50 \/ c = 51 \/ c = 52 \/ c = 53
              \/ c = 54 \/ c = 55 \/ c = 56 \/ c = 57) by lia.
  repeat (destruct E as [E|E]; [subst c; split; reflexivity|]).
  subst c; split; reflexivity.
Qed.

Lemma isdecimal_isdigit (c : codepoint) :
  Unicode.isdecimal c = true -> Unicode.isdigit c = true.
Proof. intros H. unfold Unicode.isdigit. rewrite H. reflexivity. Qed.

Lemma int_acc_spec (s : str) (acc : Z) :
  int_acc acc s =
  if forallb Unicode.isdecimal s
  then Ok (fold_left (fun a c => 10 * a + digit_val c) s acc)
  else Raise ValueError.
Proof.
  revert acc. induction s as [|c s IH]; intros acc; simpl.
  - reflexivity.
  - destruct (Unicode.isdecimal c) eqn:E; simpl.
    + rewrite (decimal_value_some _ E). apply IH.
    + apply decimal_value_none in E. rewrite E. reflexivity.
Qed.

Lemma int_spec (s : str) :
  int s =
  if negb (str_is_empty s) && (Z.of_nat (length s) <=? int_max_str_digits)
     && forallb Unicode.isdecimal s
  then Ok (str_value s)
  else Raise ValueError.
Proof.
  destruct s as [|c s]; [reflexivity|].
  unfold int. rewrite Z.leb_antisym.
  destruct (int_max_str_digits <? Z.of_nat (length (c :: s)));
    [reflexivity|].
  rewrite int_acc_spec. reflexivity.
Qed.

Lemma int_numeric (s : str) :
  numeric s -> short s -> int s = Ok (str_value s).
Proof.
  intros [Hne Hall] Hs. rewrite int_spec, Hall.
  apply Z.leb_le in Hs. rewrite Hs.
  destruct s; [congruence | reflexivity].
Qed.

Lemma int_long (s : str) : ~ short s -> int s = Raise ValueError.
Proof.
  intros H. rewrite int_spec.
  destruct (Z.leb_spec (Z.of_nat (length s)) int_max_str_digits) as [L|L];
    [contradiction|].
  rewrite andb_false_r. reflexivity.
Qed.

Lemma numeric_dec (s : str) :
  numeric s <-> negb (str_is_empty s) && forallb Unicode.isdecimal s = true.
Proof.
  unfold numeric. destruct s as [|c s]; simpl.
  - split; [intros [H _]; congruence | discriminate].
  - split; [intros [_ H]; exact H | intros H; split; [discriminate | exact H]].
Qed.

Lemma int_not_numeric (s : str) : ~ numeric s -> int s = Raise ValueError.
Proof.
  intros H. rewrite int_spec.
  destruct (negb (str_is_empty s)) eqn:E1; [|reflexivity].
  destruct (forallb Unicode.isdecimal s) eqn:E2;
    [|rewrite andb_false_r; reflexivity].
  exfalso. apply H, numeric_dec. rewrite E1, E2. reflexivity.
Qed.

Lemma short_ljust (s : str) : short (ljust s 3 chr_0) <-> short s.
Proof.
  unfold short, ljust, int_max_str_digits.
  rewrite length_app, repeat_length. lia.
Qed.

Lemma numeric_or_not (x : str) : numeric x \/ ~ numeric x.
Proof.
  destruct (negb (str_is_empty x) && forallb Unicode.isdecimal x) eqn:E.
  - left. apply numeric_dec, E.
  - right. intros C. apply numeric_dec in C. congruence.
Qed.

Lemma short_or_not (x : str) : short x \/ ~ short x.
Proof. unfold short. lia. Qed.

Lemma numeric_isdigit (s : str) : numeric s -> isdigit s = true.
Proof.
  intros [Hne Hall]. destruct s as [|c s]; [congruence|].
  unfold isdigit. apply forallb_forall. intros x Hx.
  apply isdecimal_isdigit. rewrite forallb_forall in Hall. auto.
Qed.

Lemma fold_value_ge (s : str) (acc : Z) :
  0 <= acc -> acc <= fold_left (fun a c => 10 * a + digit_val c) s acc.
Proof.
  revert acc. induction s as [|c s IH]; intros acc H; cbn [fold_left]; [lia|].
  pose proof (digit_val_range c).
  specialize (IH (10 * acc + digit_val c)). lia.
Qed.

Lemma str_value_nonneg (s : str) : 0 <= str_value s.
Proof. apply (fold_value_ge s 0). lia. Qed.

Lemma forallb_ljust (s : str) (n : nat) :
  forallb Unicode.isdecimal (ljust s n chr_0) = forallb Unicode.isdecimal s.
Proof.
  unfold ljust. rewrite forallb_app.
  assert (H : forallb Unicode.isdecimal (repeat chr_0 (n - length s)) = true).
  { induction (n - length s)%nat; simpl; [reflexivity | exact IHn0]. }
  rewrite H. apply andb_true_r.
Qed.

Lemma numeric_ljust (s : str) (n : nat) :
  s <> [] -> (numeric (ljust s n chr_0) <-> numeric s).
Proof.
  intros Hne. unfold numeric. rewrite forallb_ljust.
  split; intros [H1 H2]; split; auto.
  unfold ljust. destruct s; [congruence | discriminate].
Qed.

(** ** Construction of a timestamp *)

Lemma timedelta_new_cases (m sec ms : Z) :
  0 <= m -> 0 <= sec <= 59 -> 0 <= ms <= 999 ->
  timedelta_new m sec ms =
  if m * 60 + sec <? MAX_SECONDS
  then Ok (mk_timedelta ((m * 60 + sec) / 86400) ((m * 60 + sec) mod 86400)
             (ms * 1000))
  else Raise OverflowError.
Proof.
  intros Hm Hs Hms. unfold timedelta_new, MAX_DELTA_DAYS, MAX_SECONDS.
  set (t := m * 60 + sec).
  assert (Ht : 0 <= t) by (unfold t; lia).
  set (us := t * 1000000 + ms * 1000).
  assert (Hd : us / 86400000000 = t / 86400).
  { unfold us.
    pose proof (Z.div_mod t 86400 ltac:(lia)) as E.
    pose proof (Z.mod_pos_bound t 86400 ltac:(lia)) as B.
    symmetry. apply Z.div_unique with
      (r := (t mod 86400) * 1000000 + ms * 1000); lia. }
  assert (Hr : us mod 86400000000 = (t mod 86400) * 1000000 + ms * 1000).
  { unfold us.
    pose proof (Z.div_mod t 86400 ltac:(lia)) as E.
    pose proof (Z.mod_pos_bound t 86400 ltac:(lia)) as B.
    symmetry. apply Z.mod_unique with (q := t / 86400); lia. }
  assert (Hsec : us mod 86400000000 / 1000000 = t mod 86400).
  { rewrite Hr.
    pose proof (Z.mod_pos_bound t 86400 ltac:(lia)) as B.
    symmetry. apply Z.div_unique with (r := ms * 1000); lia. }
  assert (Hus : us mod 1000000 = ms * 1000).
  { unfold us. symmetry. apply Z.mod_unique with (q := t); lia. }
  rewrite Hd, Hsec, Hus.
  assert (Hq : 0 <= t / 86400) by (apply Z.div_pos; lia).
  rewrite Z.abs_eq by exact Hq.
  destruct (t <? 86400000000000) eqn:E.
  - apply Z.ltb_lt in E.
    assert (t / 86400 < 1000000000)
      by (apply Z.div_lt_upper_bound; lia).
    destruct (t / 86400 >? 999999999) eqn:G; [|reflexivity].
    apply Z.gtb_lt in G. lia.
  - apply Z.ltb_ge in E.
    assert (1000000000 <= t / 86400)
      by (apply Z.div_le_lower_bound; lia).
    destruct (t / 86400 >? 999999999) eqn:G; [reflexivity|].
    rewrite Z.gtb_ltb in G. apply Z.ltb_ge in G. lia.
Qed.

(** The constructor on three numeric strings. *)
Lemma LRCTime_init_numeric (m sec ms : str) :
  numeric m -> numeric sec -> numeric ms ->
  short m -> short sec -> short ms ->
  LRCTime_init m sec ms =
  if negb (str_value sec <=? 59) then Raise ValueError
  else if negb (str_value (ljust ms 3 chr_0) <=? 999) then Raise ValueError
  else if str_value m * 60 + str_value sec <? MAX_SECONDS
  then Ok (mk_LRCTime
             (mk_timedelta ((str_value m * 60 + str_value sec) / 86400)
                ((str_value m * 60 + str_value sec) mod 86400)
                (str_value (ljust ms 3 chr_0) * 1000)))
  else Raise OverflowError.
Proof.
  intros Hm Hs Hms Sm Ss Sms. unfold LRCTime_init.
  simpl forallb. rewrite !numeric_isdigit by assumption. simpl negb.
  cbv iota.
  assert (Hms' : numeric (ljust ms 3 chr_0))
    by (apply numeric_ljust; [apply Hms | exact Hms]).
  assert (Sms' : short (ljust ms 3 chr_0)) by (apply short_ljust, Sms).
  rewrite (int_numeric _ Hm Sm), (int_numeric _ Hs Ss),
    (int_numeric _ Hms' Sms').
  simpl bind.
  pose proof (str_value_nonneg m) as Pm.
  pose proof (str_value_nonneg sec) as Ps.
  pose proof (str_value_nonneg (ljust ms 3 chr_0)) as Pms.
  destruct (str_value m <? 0) eqn:E0; [apply Z.ltb_lt in E0; lia|].
  destruct (0 <=? str_value sec) eqn:E1; [|apply Z.leb_gt in E1; lia].
  destruct (0 <=? str_value (ljust ms 3 chr_0)) eqn:E2;
    [|apply Z.leb_gt in E2; lia].
  simpl andb.
  destruct (str_value sec <=? 59) eqn:E3; simpl negb; cbv iota; [|reflexivity].
  destruct (str_value (ljust ms 3 chr_0) <=? 999) eqn:E4; simpl negb; cbv iota;
    [|reflexivity].
  apply Z.leb_le in E3, E4.
  rewrite timedelta_new_cases by lia.
  destruct (_ <? MAX_SECONDS); reflexivity.
Qed.

(** The constructor when some part is not numeric or too long. *)
Lemma LRCTime_init_invalid (m sec ms : str) :
  ~ (numeric m /\ short m) \/ ~ (numeric sec /\ short sec)
  \/ ~ (numeric ms /\ short ms) ->
  LRCTime_init m sec ms = Raise ValueError.
Proof.
  intros H. unfold LRCTime_init.
  destruct (negb (forallb isdigit [m; sec; ms])) eqn:E; [reflexivity|].
  apply negb_false_iff in E. simpl in E.
  rewrite andb_true_r in E.
  apply andb_true_iff in E. destruct E as [Em E].
  apply andb_true_iff in E. destruct E as [Es Ems].
  assert (I : forall x, ~ (numeric x /\ short x) -> int x = Raise ValueError).
  { intros x Hx. destruct (numeric_or_not x) as [N|N];
      [|apply int_not_numeric, N].
    apply int_long. tauto. }
  assert (D : forall x, (numeric x /\ short x) \/ ~ (numeric x /\ short x)).
  { intros x. destruct (numeric_or_not x), (short_or_not x); tauto. }
  destruct (D m) as [[Nm Sm]|Bm]; [|rewrite (I m Bm); reflexivity].
  rewrite (int_numeric m Nm Sm). cbn [bind].
  destruct (D sec) as [[Ns Ss]|Bs]; [|rewrite (I sec Bs); reflexivity].
  rewrite (int_numeric sec Ns Ss). cbn [bind].
  assert (Hne : ms <> []) by (destruct ms; [discriminate Ems | discriminate]).
  rewrite I; [reflexivity|].
  rewrite numeric_ljust by exact Hne. rewrite short_ljust. tauto.
Qed.

Lemma LRCTime_init_not_numeric (m sec ms : str) :
  ~ numeric m \/ ~ numeric sec \/ ~ numeric ms ->
  LRCTime_init m sec ms = Raise ValueError.
Proof. intros H. apply LRCTime_init_invalid. tauto. Qed.

(** C4, as the code has it.  The constructor raises a validation error
    exactly when some part is not numeric (a non-empty string of decimal
    digits; the empty string and digits that are not decimal count as not
    numeric) or has more than 4300 digits, or the seconds exceed 59, or the
    milliseconds padded to three digits exceed 999.  On three numeric parts
    within 4300 digits, with seconds and milliseconds in range, it returns
    a timestamp when minutes and seconds stay below the thousand million
    days a [timedelta] can hold; from there on the minutes are out of
    range and it raises an overflow error, where its documentation
    promises a validation error and the claim a timestamp. *)
Theorem LRCTime_init_validation (m sec ms : str) :
  (LRCTime_init m sec ms = Raise ValueError <->
   ~ numeric m \/ ~ numeric sec \/ ~ numeric ms
   \/ ~ short m \/ ~ short sec \/ ~ short ms
   \/ 59 < str_value sec \/ 999 < str_value (ljust ms 3 chr_0))
  /\ (numeric m -> numeric sec -> numeric ms ->
      short m -> short sec -> short ms ->
      str_value sec <= 59 -> str_value (ljust ms 3 chr_0) <= 999 ->
      if str_value m * 60 + str_value sec <? MAX_SECONDS
      then exists t, LRCTime_init m sec ms = Ok t
      else LRCTime_init m sec ms = Raise OverflowError).
Proof.
  split.
  - destruct (numeric_or_not m) as [Hm|Hm];
      [|split; [tauto | intros _; apply LRCTime_init_invalid; tauto]].
    destruct (numeric_or_not sec) as [Hs|Hs];
      [|split; [tauto | intros _; apply LRCTime_init_invalid; tauto]].
    destruct (numeric_or_not ms) as [Hms|Hms];
      [|split; [tauto | intros _; apply LRCTime_init_invalid; tauto]].
    destruct (short_or_not m) as [Sm|Sm];
      [|split; [tauto | intros _; apply LRCTime_init_invalid; tauto]].
    destruct (short_or_not sec) as [Ss|Ss];
      [|split; [tauto | intros _; apply LRCTime_init_invalid; tauto]].
    destruct (short_or_not ms) as [Sms|Sms];
      [|split; [tauto | intros _; apply LRCTime_init_invalid; tauto]].
    rewrite LRCTime_init_numeric by assumption.
    destruct (str_value sec <=? 59) eqn:E1; simpl negb; cbv iota.
    2:{ apply Z.leb_gt in E1. split; [intros _; lia | reflexivity]. }
    destruct (str_value (ljust ms 3 chr_0) <=? 999) eqn:E2; simpl negb; cbv iota.
    2:{ apply Z.leb_gt in E2. split; [intros _; lia | reflexivity]. }
    apply Z.leb_le in E1, E2.
    split.
    + destruct (_ <? MAX_SECONDS); discriminate.
    + intros [H|[H|[H|[H|[H|[H|H]]]]]]; try contradiction. lia.
  - intros Hm Hs Hms Sm Ss Sms H1 H2.
    rewrite LRCTime_init_numeric by assumption.
    apply Z.leb_le in H1, H2. rewrite H1, H2. simpl negb. cbv iota.
    destruct (_ <? MAX_SECONDS); [eexists; reflexivity | reflexivity].
Qed.

(** C4 at minutes "1440000000000", seconds "00", milliseconds "000": three
    strings of decimal digits, seconds and milliseconds in range, and an
    overflow error instead of a timestamp or a validation error. *)
Lemma LRCTime_init_validation_witness :
  LRCTime_init s_minutes_overflow s_00 s_000 = Raise OverflowError.
Proof.
  assert (N1 : numeric s_minutes_overflow) by (split; [discriminate | reflexivity]).
  assert (N2 : numeric s_00) by (split; [discriminate | reflexivity]).
  assert (N3 : numeric s_000) by (split; [discriminate | reflexivity]).
  assert (S1 : short s_minutes_overflow) by (vm_compute; discriminate).
  assert (S2 : short s_00) by (vm_compute; discriminate).
  assert (S3 : short s_000) by (vm_compute; discriminate).
  assert (E1 : str_value s_00 <= 59) by (vm_compute; discriminate).
  assert (E2 : str_value (ljust s_000 3 chr_0) <= 999)
    by (vm_compute; discriminate).
  exact (proj2 (LRCTime_init_validation s_minutes_overflow s_00 s_000)
           N1 N2 N3 S1 S2 S3 E1 E2).
Defined.

(** C5 at minutes "200000000000", seconds "00", milliseconds "001".  The
    timestamp is accepted and holds 12000000000000001 milliseconds; the
    double [total_seconds() * 1000] rounds to 12000000000000002, and the
    timestamp rebuilt from that number is a different one. *)
Theorem roundtrip_large_minutes :
  exists t t',
    LRCTime_init s_minutes_large s_00 s_001 = Ok t
    /\ timedelta_to_microseconds (time t) = 12000000000000001 * 1000
    /\ LRCTime_total_milliseconds t = 12000000000000002
    /\ LRCTime_from_total_milliseconds (LRCTime_total_milliseconds t) = Ok t'
    /\ LRCTime_eqb t' t = false.
Proof.
  eexists. eexists.
  split; [vm_compute; reflexivity|].
  split; [vm_compute; reflexivity|].
  split; [vm_compute; reflexivity|].
  split; vm_compute; reflexivity.
Qed.

(** ** Sorting *)

Section SortFacts.
Variable A : Type.
Variable ltb : A -> A -> bool.

Lemma insert_perm (x : A) (l : list A) :
  Permutation (insert ltb x l) (x :: l).
Proof.
  induction l as [|y l IH]; simpl.
  - apply Permutation_refl.
  - destruct (ltb y x).
    + eapply perm_trans; [apply perm_skip, IH | apply perm_swap].
    + apply Permutation_refl.
Qed.

Lemma sort_perm (l : list A) : Permutation (sort ltb l) l.
Proof.
  induction l as [|x l IH]; simpl.
  - apply perm_nil.
  - eapply perm_trans; [apply insert_perm | apply perm_skip, IH].
Qed.

Lemma sort_In (l : list A) (x : A) : In x (sort ltb l) <-> In x l.
Proof.
  split; apply Permutation_in;
    [apply sort_perm | apply Permutation_sym, sort_perm].
Qed.

Lemma sort_length (l : list A) : length (sort ltb l) = length l.
Proof. apply Permutation_length, sort_perm. Qed.

Hypothesis ltb_asym : forall a b, ltb a b = true -> ltb b a = false.
Hypothesis ltb_negtrans :
  forall a b c, ltb b a = false -> ltb c b = false -> ltb c a = false.

Lemma insert_ordered (x : A) (l : list A) :
  ordered ltb l -> ordered ltb (insert ltb x l).
Proof.
  unfold ordered. induction l as [|y l IH]; intros H; simpl.
  - constructor; constructor.
  - inversion H as [|? ? Hl Hy]; subst.
    destruct (ltb y x) eqn:E.
    + constructor; [apply IH, Hl|].
      rewrite Forall_forall. intros z Hz.
      apply (Permutation_in _ (insert_perm x l)) in Hz.
      destruct Hz as [<-|Hz]; [apply ltb_asym, E|].
      rewrite Forall_forall in Hy. apply Hy, Hz.
    + constructor; [exact H|].
      constructor; [exact E|].
      rewrite Forall_forall in Hy |- *. intros z Hz.
      apply ltb_negtrans with (b := y); [exact E | apply Hy, Hz].
Qed.

Lemma sort_ordered (l : list A) : ordered ltb (sort ltb l).
Proof.
  induction l as [|x l IH]; simpl.
  - constructor.
  - apply insert_ordered, IH.
Qed.

(** Sorting a list that is in order changes nothing. *)
Lemma insert_head (x : A) (l : list A) :
  Forall (fun b => ltb b x = false) l -> insert ltb x l = x :: l.
Proof.
  destruct l as [|y l]; intros H; simpl; [reflexivity|].
  inversion H; subst. rewrite H2. reflexivity.
Qed.

Lemma sort_ordered_id (l : list A) : ordered ltb l -> sort ltb l = l.
Proof.
  induction 1 as [|x l Hl IH Hx]; simpl; [reflexivity|].
  rewrite IH. apply insert_head, Hx.
Qed.
End SortFacts.

(** The order of timestamps is the order of the triples
    (days, seconds, microseconds). *)
Lemma timedelta_ltb_lex (a b : timedelta) :
  timedelta_ltb a b = true <->
  td_days a < td_days b
  \/ (td_days a = td_days b
      /\ (td_seconds a < td_seconds b
          \/ (td_seconds a = td_seconds b
              /\ td_microseconds a < td_microseconds b))).
Proof.
  unfold timedelta_ltb.
  rewrite !orb_true_iff, !andb_true_iff, !orb_true_iff, !andb_true_iff,
    !Z.ltb_lt, !Z.eqb_eq.
  reflexivity.
Qed.

Lemma timedelta_ltb_asym (a b : timedelta) :
  timedelta_ltb a b = true -> timedelta_ltb b a = false.
Proof.
  intros H. apply timedelta_ltb_lex in H.
  destruct (timedelta_ltb b a) eqn:E; [|reflexivity].
  apply timedelta_ltb_lex in E. lia.
Qed.

Lemma timedelta_ltb_negtrans (a b c : timedelta) :
  timedelta_ltb b a = false -> timedelta_ltb c b = false ->
  timedelta_ltb c a = false.
Proof.
  intros H1 H2.
  destruct (timedelta_ltb c a) eqn:E; [|reflexivity].
  apply timedelta_ltb_lex in E.
  assert (N1 : ~ timedelta_ltb b a = true) by congruence.
  assert (N2 : ~ timedelta_ltb c b = true) by congruence.
  rewrite timedelta_ltb_lex in N1, N2. lia.
Qed.

Lemma LyricLine_ltb_asym (a b : LyricLine) :
  LyricLine_ltb a b = true -> LyricLine_ltb b a = false.
Proof. apply timedelta_ltb_asym. Qed.

Lemma LyricLine_ltb_negtrans (a b c : LyricLine) :
  LyricLine_ltb b a = false -> LyricLine_ltb c b = false ->
  LyricLine_ltb c a = false.
Proof. apply timedelta_ltb_negtrans. Qed.

(** ** The merge *)

Lemma available_tran_In (interval : Z) (o x : LyricLine) (t : list LyricLine) :
  In x (available_tran interval o t) <-> In x t /\ distance x o <= interval.
Proof.
  unfold available_tran, distance. rewrite filter_In, Z.leb_le. tauto.
Qed.

(** The head of a filtered list is the first element that passes. *)
Lemma filter_head (A : Type) (f : A -> bool) (l : list A) (x : A) (r : list A) :
  filter f l = x :: r ->
  exists l1 l2, l = l1 ++ x :: l2 /\ f x = true
                /\ forall y, In y l1 -> f y = false.
Proof.
  induction l as [|a l IH]; simpl; [discriminate|].
  destruct (f a) eqn:E; intros H.
  - injection H as Ha _. subst a. exists [], l. repeat split; auto.
    intros y [].
  - destruct (IH H) as (l1 & l2 & -> & Hx & Hl1).
    exists (a :: l1), l2. repeat split; auto.
    intros y [<-|Hy]; auto.
Qed.

Lemma ordered_app_after (A : Type) (ltb : A -> A -> bool)
  (l1 l2 : list A) (x y : A) :
  ordered ltb (l1 ++ x :: l2) -> In y (x :: l2) -> y = x \/ ltb y x = false.
Proof.
  unfold ordered. induction l1 as [|a l1 IH]; simpl; intros H Hy.
  - inversion H as [|? ? _ Hx]; subst.
    destruct Hy as [->|Hy]; [left; reflexivity|right].
    rewrite Forall_forall in Hx. apply Hx, Hy.
  - inversion H; subst. apply IH; assumption.
Qed.

(** The candidates of a sorted document, in the program's own measure. *)
Lemma candidates_sorted (interval : Z) (o : LyricLine) (t : list LyricLine)
  (x : LyricLine) :
  In x (available_tran interval o (sort LyricLine_ltb t))
  <-> In x t /\ distance x o <= interval.
Proof. rewrite available_tran_In, sort_In. tauto. Qed.

(** The line a document contributes is the first candidate of the sorted
    document: no candidate stands before it, none is earlier. *)
Lemma selected_first (interval : Z) (o : LyricLine) (t : list LyricLine)
  (x : LyricLine) :
  selected interval o t = Some x ->
  exists l1 l2,
    sort LyricLine_ltb t = l1 ++ x :: l2
    /\ In x t /\ distance x o <= interval
    /\ (forall y, In y l1 -> interval < distance y o)
    /\ (forall y, In y t -> distance y o <= interval ->
                  LyricLine_ltb y x = false).
Proof.
  intros Hsel. unfold selected in Hsel.
  destruct (available_tran interval o (sort LyricLine_ltb t)) as [|x' r] eqn:E;
    [discriminate|].
  injection Hsel as ->.
  assert (Hx : In x (available_tran interval o (sort LyricLine_ltb t)))
    by (rewrite E; left; reflexivity).
  apply candidates_sorted in Hx. destruct Hx as [Hxt Hxd].
  unfold available_tran in E.
  destruct (filter_head _ _ _ _ _ E) as (l1 & l2 & Hs & _ & Hl1).
  exists l1, l2. repeat split; auto.
  - intros y Hy. apply Hl1 in Hy. apply Z.leb_gt in Hy. exact Hy.
  - intros y Hy Hd.
    assert (Hys : In y (l1 ++ x :: l2))
      by (rewrite <- Hs; apply sort_In; exact Hy).
    apply in_app_or in Hys. destruct Hys as [Hys|Hys].
    + apply Hl1 in Hys. apply Z.leb_gt in Hys. unfold distance in Hd. lia.
    + pose proof (sort_ordered _ LyricLine_ltb LyricLine_ltb_asym
                    LyricLine_ltb_negtrans t) as Hord.
      rewrite Hs in Hord.
      destruct (ordered_app_after _ _ _ _ _ _ Hord Hys) as [->|H]; [|exact H].
      destruct (LyricLine_ltb x x) eqn:Exx; [|reflexivity].
      pose proof (LyricLine_ltb_asym _ _ Exx). congruence.
Qed.

Lemma selected_none (interval : Z) (o : LyricLine) (t : list LyricLine) :
  selected interval o t = None <->
  forall x, In x t -> interval < distance x o.
Proof.
  unfold selected. split.
  - intros H x Hx.
    destruct (Z.le_gt_cases (distance x o) interval) as [Hd|Hd]; [|lia].
    assert (Hc : In x (available_tran interval o (sort LyricLine_ltb t)))
      by (apply candidates_sorted; auto).
    destruct (available_tran interval o (sort LyricLine_ltb t));
      [destruct Hc | discriminate].
  - intros H.
    destruct (available_tran interval o (sort LyricLine_ltb t)) as [|x r] eqn:E;
      [reflexivity|].
    assert (Hc : In x (available_tran interval o (sort LyricLine_ltb t)))
      by (rewrite E; left; reflexivity).
    apply candidates_sorted in Hc. destruct Hc as [Hx Hd]. apply H in Hx. lia.
Qed.

(** Each document contributes on its own. *)
Lemma available_trans_selected (interval : Z) (o : LyricLine)
  (docs : list (list LyricLine)) :
  available_trans interval o (map (sort LyricLine_ltb) docs)
  = flat_map (fun t => match selected interval o t with
                       | Some x => [x]
                       | None => []
                       end) docs.
Proof.
  unfold available_trans, selected.
  induction docs as [|t docs IH]; simpl; [reflexivity|].
  rewrite IH.
  destruct (available_tran interval o (sort LyricLine_ltb t)); reflexivity.
Qed.

Lemma LyricLine_empty_line_ok : LyricLine_empty_line = Ok the_empty_line.
Proof. vm_compute. reflexivity. Qed.

Lemma combine_line_ok (interval : Z) (docs : list (list LyricLine))
  (o : LyricLine) :
  combine_line interval docs o = Ok (combined interval docs o).
Proof.
  unfold combine_line, combined.
  destruct (available_trans interval o docs); [|reflexivity].
  rewrite LyricLine_empty_line_ok. reflexivity.
Qed.

Lemma mapM_ok (A B : Type) (f : A -> result B) (g : A -> B) (l : list A) :
  (forall a, f a = Ok (g a)) -> mapM f l = Ok (map g l).
Proof.
  intros H. induction l as [|a l IH]; simpl; [reflexivity|].
  rewrite H, IH. reflexivity.
Qed.

Lemma merge_ok (interval : Z) (po : StandardLyricDocument LyricLine)
  (pts : list (StandardLyricDocument LyricLine)) :
  merge interval po pts =
  Ok (mk_StandardLyricDocument
        (sort CombinedLyricLine_ltb
           (map (combined interval
                   (map (fun t => sort LyricLine_ltb (lines t)) pts))
                (sort LyricLine_ltb (lines po))))
        (meta po)).
Proof.
  unfold merge.
  rewrite (mapM_ok _ _ _ (combined interval
             (map (fun t => sort LyricLine_ltb (lines t)) pts)));
    [reflexivity|].
  intros a. apply combine_line_ok.
Qed.

Lemma combined_origin (interval : Z) (docs : list (list LyricLine))
  (o : LyricLine) : origin (combined interval docs o) = o.
Proof.
  unfold combined. destruct (available_trans interval o docs); reflexivity.
Qed.

Lemma available_trans_nil (interval : Z) (o : LyricLine)
  (docs : list (list LyricLine)) :
  (forall t x, In t docs -> In x t -> interval < distance x o) ->
  available_trans interval o (map (sort LyricLine_ltb) docs) = [].
Proof.
  intros H. unfold available_trans.
  induction docs as [|t docs IH]; simpl; [reflexivity|].
  destruct (available_tran interval o (sort LyricLine_ltb t)) as [|x r] eqn:E.
  - simpl. apply IH. intros t' x Ht' Hx.
    apply (H t' x); [right; exact Ht' | exact Hx].
  - exfalso.
    assert (Hx : In x (available_tran interval o (sort LyricLine_ltb t)))
      by (rewrite E; left; reflexivity).
    apply available_tran_In in Hx. destruct Hx as [Hx Hd].
    apply sort_In in Hx.
    pose proof (H t x (or_introl eq_refl) Hx). lia.
Qed.



(** ** Rendering of a combined line *)

Lemma parse_hello_line :
  StandardLRCParser_parse s_hello_line
  = Ok (mk_StandardLyricDocument [hello_line] []).
Proof. vm_compute. reflexivity. Qed.

(** C6, as the code has it.  The origin "[00:12.340]Hello world" merged
    with [interval = 0] and translations that have no line at 12.340 s
    yields one combined line, which holds the placeholder and whose string
    is the origin line alone: a translation with an empty text is left out
    of the string. *)
Theorem hello_world_placeholder_suppressed (translations : list str)
  (pts : list (StandardLyricDocument LyricLine)) :
  mapM StandardLRCParser_parse translations = Ok pts ->
  (forall t x, In t pts -> In x (lines t) -> 0 < distance x hello_line) ->
  exists d c,
    StandardLRCParser_parse_with_translate s_hello_line 0 translations = Ok d
    /\ lines d = [c]
    /\ origin c = hello_line
    /\ trans c = [placeholder hello_line]
    /\ CombinedLyricLine_str c = s_hello_line.
Proof.
  intros Hp Hn. unfold StandardLRCParser_parse_with_translate.
  rewrite parse_hello_line, Hp. simpl bind. rewrite merge_ok.
  assert (E : combined 0 (map (fun t => sort LyricLine_ltb (lines t)) pts)
                hello_line
              = mk_CombinedLyricLine hello_line (line_time hello_line)
                  [placeholder hello_line]).
  { unfold combined.
    rewrite <- (map_map (fun t => lines t) (sort LyricLine_ltb)).
    rewrite available_trans_nil; [reflexivity|].
    intros t x Ht Hx. apply in_map_iff in Ht. destruct Ht as (t' & <- & Ht').
    apply (Hn t' x Ht' Hx). }
  eexists. eexists. split; [reflexivity|].
  cbn [lines sort fold_right map insert]. rewrite E.
  split; [reflexivity|]. split; [reflexivity|]. split; [reflexivity|].
  vm_compute. reflexivity.
Qed.

Lemma hello_world_placeholder_suppressed_witness :
  exists d c,
    StandardLRCParser_parse_with_translate s_hello_line 0 [s_bonjour_line]
    = Ok d
    /\ lines d = [c]
    /\ origin c = hello_line
    /\ trans c = [placeholder hello_line]
    /\ CombinedLyricLine_str c = s_hello_line.
Proof.
  apply (hello_world_placeholder_suppressed [s_bonjour_line]
           [mk_StandardLyricDocument [line_at 13000
              [66; 111; 110; 106; 111; 117; 114]] []]).
  - vm_compute. reflexivity.
  - intros t x [<-|[]] [<-|[]]. vm_compute. reflexivity.
Defined.

(** C6, as it is stated, fails: the string of the combined line is not the
    origin line followed by a bare timestamp. *)
Lemma hello_world_not_two_lines :
  exists d c,
    StandardLRCParser_parse_with_translate s_hello_line 0 [s_bonjour_line]
    = Ok d
    /\ lines d = [c]
    /\ CombinedLyricLine_str c = s_hello_line
    /\ CombinedLyricLine_str c <> s_hello_two_lines.
Proof.
  eexists. eexists. split; [vm_compute; reflexivity|].
  split; [reflexivity|]. split; [vm_compute; reflexivity|].
  vm_compute. discriminate.
Qed.

(** ** The order of enhanced lines *)

Lemma insert_app_left (A : Type) (ltb : A -> A -> bool) (x : A)
  (l1 l2 : list A) :
  (forall y, In y l2 -> ltb y x = false) ->
  insert ltb x (l1 ++ l2) = insert ltb x l1 ++ l2.
Proof.
  intros H. induction l1 as [|a l1 IH]; simpl.
  - destruct l2 as [|b l2]; simpl; [reflexivity|].
    rewrite (H b) by (left; reflexivity). reflexivity.
  - destruct (ltb a x); [rewrite IH|]; reflexivity.
Qed.

Lemma insert_app_right (A : Type) (ltb : A -> A -> bool) (x : A)
  (l1 l2 : list A) :
  (forall y, In y l1 -> ltb y x = true) ->
  insert ltb x (l1 ++ l2) = l1 ++ insert ltb x l2.
Proof.
  intros H. induction l1 as [|a l1 IH]; simpl; [reflexivity|].
  rewrite (H a) by (left; reflexivity).
  rewrite IH; [reflexivity|]. intros y Hy. apply H. right. exact Hy.
Qed.

Lemma no_characters_start (l : EnhancedLyricLine) :
  no_characters l = true <-> start_time l = None.
Proof.
  unfold no_characters, start_time.
  destruct (characters l); split; congruence.
Qed.

Lemma empty_never_less (e other : EnhancedLyricLine) :
  no_characters e = true -> EnhancedLyricLine_ltb e other = false.
Proof.
  intros H. apply no_characters_start in H.
  unfold EnhancedLyricLine_ltb. rewrite H. reflexivity.
Qed.

Lemma nonempty_less_than_empty (l e : EnhancedLyricLine) :
  no_characters l = false -> no_characters e = true ->
  EnhancedLyricLine_ltb l e = true.
Proof.
  intros Hl He. apply no_characters_start in He.
  unfold EnhancedLyricLine_ltb. rewrite He.
  destruct (start_time l) eqn:E; [reflexivity|].
  apply no_characters_start in E. congruence.
Qed.

(** C10.  An enhanced line without characters is never strictly less than
    another line; a line with a character is strictly less than a line
    without; two lines without characters are equal; and a sorted list is
    its lines with characters, sorted, followed by its lines without
    characters. *)
Theorem enhanced_empty_lines_last :
  (forall e other,
      no_characters e = true -> EnhancedLyricLine_ltb e other = false)
  /\ (forall l e,
         no_characters l = false -> no_characters e = true ->
         EnhancedLyricLine_ltb l e = true)
  /\ (forall e1 e2,
         no_characters e1 = true -> no_characters e2 = true ->
         EnhancedLyricLine_eqb e1 e2 = true)
  /\ (forall ls,
         sort EnhancedLyricLine_ltb ls
         = sort EnhancedLyricLine_ltb
             (filter (fun l => negb (no_characters l)) ls)
           ++ filter no_characters ls).
Proof.
  split; [exact empty_never_less|].
  split; [exact nonempty_less_than_empty|].
  split.
  - intros e1 e2 H1 H2. apply no_characters_start in H1, H2.
    unfold EnhancedLyricLine_eqb. rewrite H1, H2. reflexivity.
  - induction ls as [|x ls IH]; [reflexivity|].
    cbn [sort fold_right filter]. fold (sort EnhancedLyricLine_ltb ls).
    rewrite IH.
    destruct (no_characters x) eqn:Ex; cbn [negb].
    + rewrite insert_app_right.
      * f_equal. apply insert_head. rewrite Forall_forall.
        intros y Hy. apply filter_In in Hy. destruct Hy as [_ Hy].
        apply empty_never_less, Hy.
      * intros y Hy. apply sort_In in Hy. apply filter_In in Hy.
        destruct Hy as [_ Hy]. apply negb_true_iff in Hy.
        apply nonempty_less_than_empty; assumption.
    + cbn [sort fold_right].
      fold (sort EnhancedLyricLine_ltb
              (filter (fun l => negb (no_characters l)) ls)).
      apply insert_app_left.
      intros y Hy. apply filter_In in Hy. destruct Hy as [_ Hy].
      apply empty_never_less, Hy.
Qed.

Lemma enhanced_empty_lines_last_witness :
  EnhancedLyricLine_ltb enhanced_empty (enhanced_at 5) = false
  /\ EnhancedLyricLine_ltb (enhanced_at 5) enhanced_empty = true
  /\ sort EnhancedLyricLine_ltb
       [enhanced_empty; enhanced_at 7; enhanced_empty; enhanced_at 5]
     = [enhanced_at 5; enhanced_at 7; enhanced_empty; enhanced_empty].
Proof.
  destruct enhanced_empty_lines_last as (H1 & H2 & _ & H4).
  split; [apply H1; reflexivity|].
  split; [apply H2; reflexivity|].
  rewrite H4. vm_compute. reflexivity.
Defined.

(** ** Copies in the constructors of combined lines *)

Lemma update_app_last (h : Store.store) (o o' : Store.obj) :
  Store.update (h ++ [o]) (length h) o' = h ++ [o'].
Proof.
  induction h as [|x h IH]; simpl; [reflexivity|].
  rewrite IH. reflexivity.
Qed.

Lemma texts_at_app (h ext : Store.store) (r : Store.ref) :
  (r < length h)%nat -> texts_at (h ++ ext) r = texts_at h r.
Proof.
  intros H. unfold texts_at. rewrite nth_error_app1 by exact H. reflexivity.
Qed.

Lemma stamp_copies_spec (time : option LRCTime) (ts : list Store.ref) :
  forall (acc : list Store.ref) (h : Store.store),
    (forall t, In t ts -> (t < length h)%nat) ->
    Store.stamp_copies time ts acc h
    = Some (acc ++ seq (length h) (length ts), h ++ stamped time h ts).
Proof.
  induction ts as [|t ts IH]; intros acc h Hts; simpl.
  - unfold Store.ret. rewrite !app_nil_r. reflexivity.
  - assert (Ht : (t < length h)%nat) by (apply Hts; left; reflexivity).
    unfold Store.bindM at 1. unfold Store.deepcopy, Store.bindM at 1.
    unfold Store.read, texts_at.
    destruct (nth_error h t) as [o|] eqn:E;
      [|apply nth_error_None in E; lia].
    unfold Store.alloc. unfold Store.bindM at 1. unfold Store.set_time.
    rewrite nth_error_app2 by lia. rewrite Nat.sub_diag. simpl nth_error.
    cbv iota beta. rewrite update_app_last.
    set (o' := Store.mk_obj time (Store.obj_texts o)).
    assert (Hst : stamped time (h ++ [o']) ts = stamped time h ts).
    { unfold stamped. apply map_ext_in. intros r Hr.
      rewrite texts_at_app; [reflexivity|]. apply Hts. right. exact Hr. }
    rewrite IH.
    + rewrite Hst, length_app. simpl length.
      replace (length h + 1)%nat with (S (length h)) by lia.
      rewrite <- !app_assoc. reflexivity.
    + intros r Hr. rewrite length_app. simpl.
      assert ((r < length h)%nat) by (apply Hts; right; exact Hr). lia.
Qed.

(** C9.  Both constructors, run on a store that holds the translation
    objects, leave every object of that store as it was, allocate one new
    object per translation, and store references to the new objects; the
    new object for a translation has the text of the translation and the
    start time of the origin. *)
Theorem combined_line_copy_on_write (h : Store.store) (ts : list Store.ref) :
  (forall t, In t ts -> (t < length h)%nat) ->
  (forall origin o,
      nth_error h origin = Some o ->
      exists c h',
        Store.CombinedLyricLine_init origin ts h = Some (c, h')
        /\ (forall r, (r < length h)%nat -> nth_error h' r = nth_error h r)
        /\ Store.self_trans c = seq (length h) (length ts)
        /\ forall i t,
             nth_error ts i = Some t ->
             nth_error h' (length h + i)
             = Some (Store.mk_obj (Store.obj_time o) (texts_at h t)))
  /\ (forall origin,
         exists c h',
           Store.EnhancedCombinedLyricLine_init origin ts h = Some (c, h')
           /\ (forall r, (r < length h)%nat -> nth_error h' r = nth_error h r)
           /\ Store.enh_trans c = seq (length h) (length ts)
           /\ forall i t,
                nth_error ts i = Some t ->
                nth_error h' (length h + i)
                = Some (Store.mk_obj (start_time origin) (texts_at h t))).
Proof.
  intros Hts.
  assert (Frame : forall time r,
             (r < length h)%nat ->
             nth_error (h ++ stamped time h ts) r = nth_error h r).
  { intros time r Hr. apply nth_error_app1, Hr. }
  assert (New : forall time i t,
             nth_error ts i = Some t ->
             nth_error (h ++ stamped time h ts) (length h + i)
             = Some (Store.mk_obj time (texts_at h t))).
  { intros time i t Hi. rewrite nth_error_app2 by lia.
    replace (length h + i - length h)%nat with i by lia.
    unfold stamped. rewrite nth_error_map, Hi. reflexivity. }
  split.
  - intros origin o Ho.
    unfold Store.CombinedLyricLine_init, Store.bindM, Store.read.
    rewrite Ho. rewrite stamp_copies_spec by exact Hts.
    eexists. eexists. split; [reflexivity|].
    split; [apply Frame|]. split; [reflexivity|]. apply New.
  - intros origin.
    unfold Store.EnhancedCombinedLyricLine_init, Store.bindM.
    rewrite stamp_copies_spec by exact Hts.
    eexists. eexists. split; [reflexivity|].
    split; [apply Frame|]. split; [reflexivity|]. apply New.
Qed.

(** The store of the example: an origin at 12.340 s and a translation at
    13.000 s, passed twice. *)
Lemma combined_line_copy_on_write_witness :
  let h := [Store.of_line (line_at 12340 [111]);
            Store.of_line (line_at 13000 [116])] in
  exists c h',
    Store.CombinedLyricLine_init 0%nat [1; 1]%nat h = Some (c, h')
    /\ nth_error h' 1%nat = Some (Store.of_line (line_at 13000 [116]))
    /\ Store.self_trans c = [2; 3]%nat
    /\ nth_error h' 2%nat = Some (Store.of_line (line_at 12340 [116]))
    /\ nth_error h' 3%nat = Some (Store.of_line (line_at 12340 [116])).
Proof.
  intros h.
  assert (Hts : forall t, In t [1; 1]%nat -> (t < length h)%nat).
  { intros t [<-|[<-|[]]]; simpl; lia. }
  destruct (combined_line_copy_on_write h [1; 1]%nat Hts) as [H _].
  destruct (H 0%nat _ eq_refl) as (c & h' & E & Hf & Hs & Hn).
  exists c, h'. split; [exact E|].
  split; [rewrite Hf by (simpl; lia); reflexivity|].
  split; [exact Hs|].
  split; [apply (Hn 0%nat 1%nat eq_refl) | apply (Hn 1%nat 1%nat eq_refl)].
Defined.

(** ** Regular expressions *)

Lemma backoff_eq (R : Type) (f : nat -> option R) (lo n : nat) :
  backoff f lo n =
  if (n <? lo)%nat then None
  else match f n with
       | Some r => Some r
       | None => match n with
                 | O => None
                 | S n' => backoff f lo n'
                 end
       end.
Proof. destruct n; reflexivity. Qed.

Lemma backoff_lt (R : Type) (f : nat -> option R) (lo n : nat) :
  (n < lo)%nat -> backoff f lo n = None.
Proof.
  intros H. rewrite backoff_eq.
  apply Nat.ltb_lt in H. rewrite H. reflexivity.
Qed.

Lemma backoff_none (R : Type) (f : nat -> option R) (lo n : nat) :
  (forall m, (lo <= m <= n)%nat -> f m = None) -> backoff f lo n = None.
Proof.
  induction n as [|n IH]; intros H; rewrite backoff_eq.
  - destruct (Nat.ltb_spec 0 lo); [reflexivity|].
    rewrite H by lia. reflexivity.
  - destruct (Nat.ltb_spec (S n) lo); [reflexivity|].
    rewrite H by lia. apply IH. intros m Hm. apply H. lia.
Qed.

(** When no shorter run succeeds, backing off is trying the longest. *)
Lemma backoff_top (R : Type) (f : nat -> option R) (lo n : nat) :
  (forall m, (lo <= m < n)%nat -> f m = None) ->
  backoff f lo n = if (lo <=? n)%nat then f n else None.
Proof.
  intros H. destruct (Nat.leb_spec lo n) as [Hle|Hlt].
  - rewrite backoff_eq.
    destruct (Nat.ltb_spec n lo); [lia|].
    destruct (f n) eqn:E; [reflexivity|].
    destruct n as [|n]; [reflexivity|].
    apply backoff_none. intros m Hm. apply H. lia.
  - apply backoff_lt. exact Hlt.
Qed.

Lemma run_eq (k : cclass) (hi : option nat) (s : str) :
  run k hi s =
  match hi with
  | Some O => O
  | _ =>
      match s with
      | c :: s' =>
          if cmatch k c then S (run k (option_map Nat.pred hi) s') else O
      | [] => O
      end
  end.
Proof. destruct s; reflexivity. Qed.

(** The characters of the longest run are in the class. *)
Lemma run_inside (k : cclass) (s : str) :
  forall (hi : option nat) (m : nat),
    (m < run k hi s)%nat ->
    exists c r, skipn m s = c :: r /\ cmatch k c = true.
Proof.
  induction s as [|c s IH]; intros hi m Hm; rewrite run_eq in Hm.
  - destruct hi as [[|h]|]; simpl in Hm; lia.
  - assert (Hc : cmatch k c = true /\ (m < S (run k (option_map Nat.pred hi) s))%nat).
    { destruct hi as [[|h]|]; [simpl in Hm; lia| |];
        (destruct (cmatch k c); [split; [reflexivity | exact Hm] | simpl in Hm; lia]). }
    destruct Hc as [Hc Hm'].
    destruct m as [|m]; simpl.
    + exists c, s. split; [reflexivity | exact Hc].
    + apply (IH (option_map Nat.pred hi) m). lia.
Qed.

Lemma run_length (k : cclass) (s : str) :
  forall hi, (run k hi s <= length s)%nat.
Proof.
  induction s as [|c s IH]; intros hi; rewrite run_eq.
  - destruct hi as [[|h]|]; simpl; lia.
  - destruct hi as [[|h]|]; simpl; try lia;
      (destruct (cmatch k c); [|lia]).
    + specialize (IH (Some h)). simpl in IH |- *. lia.
    + specialize (IH None). simpl in IH |- *. lia.
Qed.

(** The run over a prefix inside the class that stops at a character
    outside the class, at the end of the string or at the cap. *)
Lemma run_app (k : cclass) (pre rest : str) :
  forall hi,
    forallb (cmatch k) pre = true ->
    match hi with Some h => (length pre <= h)%nat | None => True end ->
    (rest = [] \/ (exists c r, rest = c :: r /\ cmatch k c = false)
     \/ hi = Some (length pre)) ->
    run k hi (pre ++ rest) = length pre.
Proof.
  induction pre as [|c pre IH]; intros hi Hall Hcap Hstop; rewrite run_eq.
  - simpl. destruct hi as [[|h]|]; try reflexivity.
    + destruct Hstop as [->|[(c & r & -> & Hc)|E]];
        [reflexivity | rewrite Hc; reflexivity | discriminate].
    + destruct Hstop as [->|[(c & r & -> & Hc)|E]];
        [reflexivity | rewrite Hc; reflexivity | discriminate].
  - simpl in Hall. apply andb_true_iff in Hall. destruct Hall as [Hc Hall].
    destruct hi as [[|h]|]; simpl in Hcap; [lia| |];
      cbn [app option_map Nat.pred length]; rewrite Hc; f_equal; apply IH;
      try exact Hall.
    + simpl. lia.
    + destruct Hstop as [H|[H|H]]; [left; exact H | right; left; exact H|].
      right; right. simpl in H. injection H as H. rewrite H. reflexivity.
    + exact I.
    + destruct Hstop as [H|[H|H]];
        [left; exact H | right; left; exact H | discriminate].
Qed.

(** What a run is: a split of the string. *)
Lemma run_split (k : cclass) (hi : option nat) (s : str) :
  let n := run k hi s in
  s = firstn n s ++ skipn n s
  /\ length (firstn n s) = n
  /\ forallb (cmatch k) (firstn n s) = true
  /\ match hi with Some h => (n <= h)%nat | None => True end
  /\ (skipn n s = [] \/ (exists c r, skipn n s = c :: r /\ cmatch k c = false)
      \/ hi = Some n).
Proof.
  revert hi. induction s as [|c s IH]; intros hi; cbv zeta; rewrite run_eq.
  - destruct hi as [[|h]|]; simpl; repeat split; auto; lia.
  - destruct hi as [[|h]|].
    + simpl. repeat split; auto.
    + destruct (cmatch k c) eqn:Hc.
      * destruct (IH (Some h)) as (E & L & A & C & St). simpl option_map.
        simpl Nat.pred. cbn [firstn skipn length forallb app].
        rewrite Hc, L, A. rewrite <- E.
        repeat split; auto; [simpl in C; lia|].
        destruct St as [H|[H|H]]; [left; exact H | right; left; exact H|].
        right; right. injection H as H. rewrite <- H. reflexivity.
      * simpl. repeat split; auto; [lia|].
        right; left. exists c, s. split; [reflexivity | exact Hc].
    + destruct (cmatch k c) eqn:Hc.
      * destruct (IH None) as (E & L & A & C & St). simpl option_map.
        cbn [firstn skipn length forallb app].
        rewrite Hc, L, A. rewrite <- E.
        repeat split; auto.
        destruct St as [H|[H|H]];
          [left; exact H | right; left; exact H | discriminate].
      * simpl. repeat split; auto.
        right; left. exists c, s. split; [reflexivity | exact Hc].
Qed.

(** Backtracking never changes the result on a pattern whose repetitions
    are followed by a literal outside their class. *)
Lemma match_items_det (p : pattern) :
  no_backtrack p = true -> forall s, match_items p s = det_items p s.
Proof.
  induction p as [|it p IH]; intros Hp s; [reflexivity|].
  destruct it as [k|capture k lo hi].
  - simpl in Hp |- *. destruct s as [|c s]; [reflexivity|].
    destruct (cmatch k c); [apply IH, Hp | reflexivity].
  - cbn [no_backtrack] in Hp. apply andb_true_iff in Hp.
    destruct Hp as [Hnext Hp].
    cbn [match_items det_items].
    destruct p as [|[[d| | | |]|] p']; try discriminate Hnext.
    + rewrite backoff_eq. cbn [match_items det_items with_group].
      destruct (Nat.ltb_spec (run k hi s) lo) as [H|H];
        destruct (Nat.leb_spec lo (run k hi s)) as [H'|H']; try lia;
        reflexivity.
    + rewrite backoff_top.
      * destruct (lo <=? run k hi s)%nat; [|reflexivity].
        rewrite (IH Hp). unfold with_group. reflexivity.
      * intros m Hm.
        destruct (run_inside k s hi m ltac:(lia)) as (c & r & -> & Hc).
        cbn [match_items cmatch].
        destruct (Z.eqb_spec c d) as [->|_]; [|reflexivity].
        apply negb_true_iff in Hnext. congruence.
Qed.

Lemma firstn_length_app (A : Type) (l1 l2 : list A) :
  firstn (length l1) (l1 ++ l2) = l1.
Proof.
  rewrite firstn_app, Nat.sub_diag, firstn_all. simpl. apply app_nil_r.
Qed.

Lemma skipn_length_app (A : Type) (l1 l2 : list A) :
  skipn (length l1) (l1 ++ l2) = l2.
Proof.
  rewrite skipn_app, Nat.sub_diag, skipn_all. reflexivity.
Qed.

Lemma det_rep_app (capture : bool) (k : cclass) (lo : nat) (hi : option nat)
  (p : pattern) (pre rest : str) :
  forallb (cmatch k) pre = true ->
  (lo <= length pre)%nat ->
  match hi with Some h => (length pre <= h)%nat | None => True end ->
  (rest = [] \/ (exists c r, rest = c :: r /\ cmatch k c = false)
   \/ hi = Some (length pre)) ->
  det_items (Rep capture k lo hi :: p) (pre ++ rest)
  = with_group capture pre (det_items p rest).
Proof.
  intros Hall Hlo Hcap Hstop. cbn [det_items].
  rewrite (run_app k pre rest hi Hall Hcap Hstop).
  apply Nat.leb_le in Hlo. rewrite Hlo.
  rewrite firstn_length_app, skipn_length_app. reflexivity.
Qed.

Lemma det_rep_inv (capture : bool) (k : cclass) (lo : nat) (hi : option nat)
  (p : pattern) (s : str) (g : list str) (r : str) :
  det_items (Rep capture k lo hi :: p) s = Some (g, r) ->
  exists pre rest g',
    s = pre ++ rest
    /\ forallb (cmatch k) pre = true
    /\ (lo <= length pre)%nat
    /\ match hi with Some h => (length pre <= h)%nat | None => True end
    /\ (rest = [] \/ (exists c r', rest = c :: r' /\ cmatch k c = false)
        \/ hi = Some (length pre))
    /\ det_items p rest = Some (g', r)
    /\ g = if capture then pre :: g' else g'.
Proof.
  cbn [det_items]. intros H.
  destruct (run_split k hi s) as (E & L & A & C & St).
  set (n := run k hi s) in *.
  destruct (Nat.leb_spec lo n) as [Hlo|]; [|discriminate].
  destruct (det_items p (skipn n s)) as [[g' r']|] eqn:D; [|discriminate].
  simpl in H. injection H as <- <-.
  exists (firstn n s), (skipn n s), g'.
  rewrite L. repeat split; auto.
Qed.

Lemma det_one_inv (k : cclass) (p : pattern) (s : str) (g : list str)
  (r : str) :
  det_items (One k :: p) s = Some (g, r) ->
  exists c s', s = c :: s' /\ cmatch k c = true /\ det_items p s' = Some (g, r).
Proof.
  cbn [det_items]. destruct s as [|c s]; [discriminate|].
  destruct (cmatch k c) eqn:E; [|discriminate].
  intros H. exists c, s. auto.
Qed.

Lemma det_one_char (c : codepoint) (p : pattern) (s : str) :
  det_items (One (Char c) :: p) (c :: s) = det_items p s.
Proof. cbn [det_items cmatch]. rewrite Z.eqb_refl. reflexivity. Qed.

Lemma bracket_app (mm ss f rest : str) :
  bracket mm ss f ++ rest
  = chr_lbracket :: mm ++ chr_colon :: ss ++ chr_dot :: f ++ chr_rbracket :: rest.
Proof.
  unfold bracket. simpl. rewrite <- !app_assoc. simpl.
  rewrite <- !app_assoc. simpl. rewrite <- !app_assoc. reflexivity.
Qed.

(** What the timestamp patterns match at the start of a string: a
    bracketed timestamp, then the longest run of payload characters. *)
Lemma stamp_pattern_complete (payload : cclass) (mm ss f rest : str) :
  stamp mm ss f ->
  det_items (stamp_pattern payload) (bracket mm ss f ++ rest)
  = Some ([mm; ss; f; firstn (run payload None rest) rest],
          skipn (run payload None rest) rest).
Proof.
  intros (Lm & Ls & Lf & Dm & Ds & Df).
  rewrite bracket_app. unfold stamp_pattern.
  rewrite det_one_char.
  rewrite det_rep_app;
    [|exact Dm | lia | simpl; lia | right; right; rewrite Lm; reflexivity].
  rewrite det_one_char.
  rewrite det_rep_app;
    [|exact Ds | lia | simpl; lia | right; right; rewrite Ls; reflexivity].
  rewrite det_one_char.
  rewrite det_rep_app;
    [|exact Df | lia | simpl; lia
     |right; left; exists chr_rbracket, rest; split; reflexivity].
  rewrite det_one_char.
  cbn [det_items Nat.leb with_group]. reflexivity.
Qed.

Lemma stamp_pattern_sound (payload : cclass) (s : str) (g : list str)
  (r : str) :
  det_items (stamp_pattern payload) s = Some (g, r) ->
  exists mm ss f rest,
    stamp mm ss f
    /\ s = bracket mm ss f ++ rest
    /\ g = [mm; ss; f; firstn (run payload None rest) rest]
    /\ r = skipn (run payload None rest) rest.
Proof.
  unfold stamp_pattern. intros H.
  apply det_one_inv in H. destruct H as (c0 & s0 & -> & C0 & H).
  apply det_rep_inv in H.
  destruct H as (mm & s1 & g1 & -> & Dm & Lm & Cm & _ & H & ->).
  apply det_one_inv in H. destruct H as (c1 & s2 & -> & C1 & H).
  apply det_rep_inv in H.
  destruct H as (ss & s3 & g2 & -> & Ds & Ls & Cs & _ & H & ->).
  apply det_one_inv in H. destruct H as (c2 & s4 & -> & C2 & H).
  apply det_rep_inv in H.
  destruct H as (f & s5 & g3 & -> & Df & Lf & Cf & _ & H & ->).
  apply det_one_inv in H. destruct H as (c3 & rest & -> & C3 & H).
  cbn [det_items with_group Nat.leb] in H. injection H as <- <-.
  cbn [cmatch] in C0, C1, C2, C3.
  apply Z.eqb_eq in C0, C1, C2, C3. subst c0 c1 c2 c3.
  exists mm, ss, f, rest.
  split; [unfold stamp; repeat split; auto; lia|].
  split; [rewrite bracket_app; reflexivity|].
  split; reflexivity.
Qed.

Lemma stamp_pattern_no_backtrack (payload : cclass) :
  no_backtrack (stamp_pattern payload) = true.
Proof. reflexivity. Qed.

Lemma match_stamp_pattern (payload : cclass) (s : str) :
  match_items (stamp_pattern payload) s = det_items (stamp_pattern payload) s.
Proof. apply match_items_det, stamp_pattern_no_backtrack. Qed.

(** ** Scanning with [findall] *)

Lemma findall_from_skip (p : pattern) (s : str) :
  forall k, (k <= length s)%nat ->
            findall_from p s k = findall_from p (skipn k s) 0.
Proof.
  induction s as [|c s IH]; intros k Hk.
  - simpl in Hk. replace k with 0%nat by lia. reflexivity.
  - destruct k as [|k]; [reflexivity|].
    simpl in Hk. cbn [findall_from skipn]. apply IH. lia.
Qed.

(** A match that consumes something is reported, and the scan goes on
    behind it. *)
Lemma findall_from_hit (p : pattern) (pre r : str) (g : list str) :
  pre <> [] ->
  match_items p (pre ++ r) = Some (g, r) ->
  findall_from p (pre ++ r) 0 = g :: findall_from p r 0.
Proof.
  intros Hne Hm. destruct pre as [|c pre]; [congruence|].
  simpl app in *. cbn [findall_from]. rewrite Hm. f_equal.
  simpl length. rewrite length_app.
  replace (S (length pre + length r) - length r - 1)%nat
    with (length pre) by lia.
  rewrite findall_from_skip by (rewrite length_app; lia).
  rewrite skipn_length_app. reflexivity.
Qed.

Lemma findall_from_miss (p : pattern) (c : codepoint) (s : str) :
  match_items p (c :: s) = None ->
  findall_from p (c :: s) 0 = findall_from p s 0.
Proof. intros H. cbn [findall_from]. rewrite H. reflexivity. Qed.

Lemma stamp_pattern_miss (payload : cclass) (s : str) :
  ~ starts_with_stamp s -> match_items (stamp_pattern payload) s = None.
Proof.
  intros H. rewrite match_stamp_pattern.
  destruct (det_items (stamp_pattern payload) s) as [[g r]|] eqn:E;
    [|reflexivity].
  exfalso. apply H.
  destruct (stamp_pattern_sound _ _ _ _ E) as (mm & ss & f & rest & Hs & -> & _).
  exists mm, ss, f, rest. auto.
Qed.

(** A string in which no timestamp begins has no match. *)
Lemma findall_stamp_free (payload : cclass) (s : str) :
  stamp_free s -> findall (stamp_pattern payload) s = [].
Proof.
  unfold stamp_free, no_stamp_before, findall.
  induction s as [|c s IH]; intros H.
  - cbn [findall_from]. rewrite stamp_pattern_miss; [reflexivity|].
    apply (H 0%nat). simpl. lia.
  - rewrite findall_from_miss.
    + apply IH. intros i Hi. apply (H (S i)). simpl. lia.
    + apply stamp_pattern_miss. apply (H 0%nat). simpl. lia.
Qed.

(** The first match is the leftmost timestamp; the scan goes on behind its
    payload. *)
Lemma findall_first_stamp (payload : cclass) (mm ss f rest : str) :
  forall pre,
    no_stamp_before (length pre) (pre ++ bracket mm ss f ++ rest) ->
    stamp mm ss f ->
    findall (stamp_pattern payload) (pre ++ bracket mm ss f ++ rest)
    = [mm; ss; f; firstn (run payload None rest) rest]
      :: findall (stamp_pattern payload) (skipn (run payload None rest) rest).
Proof.
  unfold findall, no_stamp_before.
  induction pre as [|c pre IH]; intros Hpre Hs.
  - rewrite app_nil_l.
    destruct (run_split payload None rest) as (E & _).
    set (n := run payload None rest) in *.
    assert (Hm : match_items (stamp_pattern payload) (bracket mm ss f ++ rest)
                 = Some ([mm; ss; f; firstn n rest], skipn n rest)).
    { rewrite match_stamp_pattern. apply stamp_pattern_complete, Hs. }
    assert (Hsplit : bracket mm ss f ++ rest
                     = (bracket mm ss f ++ firstn n rest) ++ skipn n rest).
    { rewrite <- app_assoc, <- E. reflexivity. }
    rewrite Hsplit in Hm |- *.
    apply findall_from_hit; [|exact Hm].
    unfold bracket. discriminate.
  - rewrite <- app_comm_cons. rewrite findall_from_miss.
    + apply IH; [|exact Hs]. intros i Hi. apply (Hpre (S i)). simpl. lia.
    + apply stamp_pattern_miss. apply (Hpre 0%nat). simpl. lia.
Qed.

(** ** Timestamps of matches *)

Lemma digit_val_0 : digit_val chr_0 = 0.
Proof. reflexivity. Qed.

Lemma str_value_cons (c : codepoint) (s : str) (acc : Z) :
  fold_left (fun a c => 10 * a + digit_val c) (c :: s) acc
  = fold_left (fun a c => 10 * a + digit_val c) s (10 * acc + digit_val c).
Proof. reflexivity. Qed.

Lemma stamp_numeric (mm ss f : str) :
  stamp mm ss f ->
  numeric mm /\ numeric ss /\ numeric f
  /\ 0 <= str_value mm <= 99 /\ 0 <= str_value ss <= 99
  /\ 0 <= str_value (ljust f 3 chr_0) <= 999
  /\ ljust (ljust f 3 chr_0) 3 chr_0 = ljust f 3 chr_0.
Proof.
  intros (Lm & Ls & Lf & Dm & Ds & Df).
  destruct mm as [|a [|b [|? ?]]]; try discriminate Lm.
  destruct ss as [|c [|d [|? ?]]]; try discriminate Ls.
  assert (Hf : exists e, f = [e] \/ (exists e2, f = [e; e2])
                         \/ (exists e2 e3, f = [e; e2; e3])).
  { destruct f as [|e [|e2 [|e3 [|? ?]]]]; simpl in Lf; try lia;
      exists e; eauto. }
  unfold numeric. repeat split; try discriminate; auto.
  - destruct f; [simpl in Lf; lia | discriminate].
  - apply str_value_nonneg.
  - unfold str_value. cbn [fold_left].
    pose proof (digit_val_range a). pose proof (digit_val_range b). lia.
  - apply str_value_nonneg.
  - unfold str_value. cbn [fold_left].
    pose proof (digit_val_range c). pose proof (digit_val_range d). lia.
  - apply str_value_nonneg.
  - destruct Hf as (e & [->|[(e2 & ->)|(e2 & e3 & ->)]]);
      unfold str_value, ljust; cbn [length Nat.sub repeat app fold_left];
      rewrite ?digit_val_0;
      pose proof (digit_val_range e);
      try pose proof (digit_val_range e2);
      try pose proof (digit_val_range e3); lia.
  - destruct Hf as (e & [->|[(e2 & ->)|(e2 & e3 & ->)]]); reflexivity.
Qed.

(** The constructor on the groups of a match fails on the seconds only. *)
Lemma LRCTime_init_stamp (mm ss f : str) :
  stamp mm ss f ->
  LRCTime_init mm ss f
  = (if str_value ss <=? 59 then Ok (stamp_time mm ss f) else Raise ValueError)
  /\ LRCTime_init mm ss (ljust f 3 chr_0) = LRCTime_init mm ss f.
Proof.
  intros Hs.
  destruct (stamp_numeric _ _ _ Hs) as (Nm & Ns & Nf & Vm & Vs & Vf & Hj).
  assert (Nf' : numeric (ljust f 3 chr_0)).
  { apply numeric_ljust; [apply Nf | exact Nf]. }
  assert (Sm : short mm /\ short ss /\ short f /\ short (ljust f 3 chr_0)).
  { destruct Hs as (Lm & Ls & Lf & _).
    unfold short, int_max_str_digits, ljust.
    rewrite length_app, repeat_length. lia. }
  destruct Sm as (Sm & Ss & Sf & Sf').
  assert (E : forall g, numeric g -> short g ->
                str_value (ljust g 3 chr_0) = str_value (ljust f 3 chr_0) ->
                LRCTime_init mm ss g
                = if str_value ss <=? 59 then Ok (stamp_time mm ss f)
                  else Raise ValueError).
  { intros g Ng Sg Hg. rewrite LRCTime_init_numeric by assumption. rewrite Hg.
    destruct (str_value ss <=? 59) eqn:E1; [|reflexivity]. simpl negb.
    cbv iota.
    destruct (Z.leb_spec (str_value (ljust f 3 chr_0)) 999); [|lia].
    simpl negb. cbv iota. unfold MAX_SECONDS.
    destruct (Z.ltb_spec (str_value mm * 60 + str_value ss) 86400000000000);
      [reflexivity | lia]. }
  split.
  - apply E; [exact Nf | exact Sf | reflexivity].
  - rewrite (E f Nf Sf eq_refl).
    apply E; [exact Nf' | exact Sf' | rewrite Hj; reflexivity].
Qed.

(** ** Lines of the input *)

Lemma splitlines_from_no_break (n : nat) :
  forall (s cur : str),
    (length s <= n)%nat ->
    (forall c, In c cur -> Unicode.islinebreak c = false) ->
    forall l, In l (splitlines_from cur s) ->
              forall c, In c l -> Unicode.islinebreak c = false.
Proof.
  induction n as [|n IH]; intros s cur Hn Hcur l Hl c Hc.
  - destruct s; [|simpl in Hn; lia]. simpl in Hl.
    destruct cur; [destruct Hl|].
    destruct Hl as [<-|[]]. apply Hcur, in_rev, Hc.
  - destruct s as [|x s].
    + simpl in Hl. destruct cur; [destruct Hl|].
      destruct Hl as [<-|[]]. apply Hcur, in_rev, Hc.
    + simpl in Hn. cbn [splitlines_from] in Hl.
      assert (Hnil : forall c : codepoint, In c [] -> Unicode.islinebreak c = false)
        by (intros ? []).
      destruct (x =? 13).
      * destruct s as [|y s'].
        -- destruct Hl as [<-|Hl]; [apply Hcur, in_rev, Hc|].
           destruct Hl.
        -- assert (Hs' : forall l',
                      In l' (rev cur :: splitlines_from [] s')
                      \/ In l' (rev cur :: splitlines_from [] (y :: s')) ->
                      In c l' -> Unicode.islinebreak c = false).
           { intros l' [[<-|H]|[<-|H]] Hc'; try (apply Hcur, in_rev, Hc').
             - apply (IH s' [] ltac:(simpl in Hn; lia) Hnil l' H c Hc').
             - apply (IH (y :: s') [] ltac:(lia) Hnil l' H c Hc'). }
           destruct y as [|py|py]; try (apply (Hs' l); [right; exact Hl | exact Hc]).
           repeat (destruct py as [py|py|];
                   try (apply (Hs' l); [right; exact Hl | exact Hc])).
           apply (Hs' l); [left; exact Hl | exact Hc].
      * destruct (Unicode.islinebreak x) eqn:Ex.
        -- destruct Hl as [<-|Hl]; [apply Hcur, in_rev, Hc|].
           apply (IH s [] ltac:(lia) Hnil l Hl c Hc).
        -- apply (IH s (x :: cur) ltac:(lia)) with (l := l); auto.
           intros c' [<-|H]; [exact Ex | apply Hcur, H].
Qed.

Lemma dropwhile_incl (A : Type) (f : A -> bool) (l : list A) (x : A) :
  In x (dropwhile f l) -> In x l.
Proof.
  induction l as [|a l IH]; simpl; [tauto|].
  destruct (f a); [right; apply IH; assumption | tauto].
Qed.

Lemma strip_incl (s : str) (c : codepoint) : In c (strip s) -> In c s.
Proof.
  unfold strip. intros H. apply in_rev in H.
  apply dropwhile_incl in H. apply in_rev in H.
  apply dropwhile_incl in H. exact H.
Qed.

(** A stripped line of the input holds no newline. *)
Lemma line_no_newline (text raw : str) :
  In raw (splitlines text) -> ~ In chr_newline (strip raw).
Proof.
  intros Hraw Hc. apply strip_incl in Hc.
  assert (H : Unicode.islinebreak chr_newline = false).
  { apply (splitlines_from_no_break (length text) text [] (le_n _)
             ltac:(intros ? []) raw Hraw chr_newline Hc). }
  discriminate H.
Qed.

Lemma run_dot_all (rest : str) :
  ~ In chr_newline rest -> run Dot None rest = length rest.
Proof.
  intros H. rewrite <- (app_nil_r rest) at 1. apply run_app.
  - apply forallb_forall. intros c Hc. cbn [cmatch].
    destruct (Z.eqb_spec c chr_newline) as [->|_]; [contradiction | reflexivity].
  - exact I.
  - left. reflexivity.
Qed.

(** ** The standard parser on one line *)

Lemma time_text_pattern_stamp : time_text_pattern = stamp_pattern Dot.
Proof. reflexivity. Qed.

Lemma enhanced_pattern_stamp : enhanced_pattern = stamp_pattern not_bracket.
Proof. reflexivity. Qed.

(** C7, as the code has it.  For a stripped line of the input that is not
    classified as a metadata tag: when no timestamp "[MM:SS.fff]" (two, two
    and one to three decimal digits) begins anywhere in the line, the line
    is dropped without output or error; otherwise the leftmost timestamp is
    used, what precedes it is discarded and the whole rest of the line is
    the payload, and the parser yields a timed line when the seconds are at
    most 59 and raises a validation error when they are not. *)
Theorem parse_line_cases (text raw : str) :
  In raw (splitlines text) ->
  match_ tag_pattern (strip raw) = None ->
  (stamp_free (strip raw) -> parse_line (strip raw) = Ok Nothing)
  /\ (forall pre mm ss f rest,
         strip raw = pre ++ bracket mm ss f ++ rest ->
         stamp mm ss f ->
         no_stamp_before (length pre) (strip raw) ->
         parse_line (strip raw)
         = if str_value ss <=? 59
           then Ok (Line (mk_LyricLine (stamp_time mm ss f) rest))
           else Raise ValueError).
Proof.
  intros Hraw Htag.
  pose proof (line_no_newline text raw Hraw) as Hnl.
  set (line := strip raw) in *.
  unfold parse_line. rewrite Htag, time_text_pattern_stamp.
  split.
  - intros Hfree. rewrite findall_stamp_free by exact Hfree. reflexivity.
  - intros pre mm ss f rest E Hs Hpre.
    rewrite E in Hpre |- *.
    rewrite findall_first_stamp by assumption.
    assert (Hrest : ~ In chr_newline rest).
    { intros H. apply Hnl. rewrite E. apply in_or_app. right.
      apply in_or_app. right. exact H. }
    rewrite (run_dot_all rest Hrest), firstn_all.
    cbn [getitem nth_error bind].
    destruct (LRCTime_init_stamp mm ss f Hs) as [E1 E2].
    rewrite E2, E1.
    destruct (str_value ss <=? 59); reflexivity.
Qed.

Lemma parse_line_cases_witness :
  parse_line (strip s_hello_line) = Ok (Line hello_line).
Proof.
  assert (Hraw : In s_hello_line (splitlines s_hello_line))
    by (left; reflexivity).
  assert (Htag : match_ tag_pattern (strip s_hello_line) = None)
    by reflexivity.
  destruct (parse_line_cases s_hello_line s_hello_line Hraw Htag) as [_ H].
  assert (Hs : stamp [48; 48] [49; 50] [51; 52; 48]).
  { unfold stamp. simpl. repeat split; try reflexivity; lia. }
  rewrite (H [] [48; 48] [49; 50] [51; 52; 48] s_hello eq_refl Hs).
  - reflexivity.
  - intros i Hi. simpl in Hi. lia.
Defined.

(** C7, as it is stated, fails twice: a line that does not begin with a
    timestamp yields a timed line when it holds one further on, and a line
    that begins with a timestamp of sixty seconds raises an error. *)
Lemma parse_line_not_anchored :
  In s_hello_after_junk (splitlines s_hello_after_junk)
  /\ strip s_hello_after_junk = s_hello_after_junk
  /\ match_ tag_pattern s_hello_after_junk = None
  /\ ~ starts_with_stamp s_hello_after_junk
  /\ parse_line s_hello_after_junk = Ok (Line hello_line)
  /\ In s_sixty_seconds (splitlines s_sixty_seconds)
  /\ strip s_sixty_seconds = s_sixty_seconds
  /\ match_ tag_pattern s_sixty_seconds = None
  /\ starts_with_stamp s_sixty_seconds
  /\ parse_line s_sixty_seconds = Raise ValueError.
Proof.
  split; [left; reflexivity|]. split; [reflexivity|].
  split; [reflexivity|]. split.
  { intros (mm & ss & f & rest & _ & E). unfold bracket in E.
    discriminate E. }
  split; [vm_compute; reflexivity|].
  split; [left; reflexivity|]. split; [reflexivity|].
  split; [reflexivity|]. split; [|vm_compute; reflexivity].
  exists [48; 48], [54; 48], [48; 48; 48], [120].
  split; [|reflexivity].
  unfold stamp. simpl. repeat split; try reflexivity; lia.
Qed.

(** ** Enhanced lines from strings *)

Lemma cmatch_not_bracket (c : codepoint) :
  cmatch not_bracket c = negb (is_bracket c).
Proof.
  unfold not_bracket, is_bracket, chr_lbracket, chr_rbracket.
  cbn [cmatch Unicode.in_ranges existsb fst snd].
  f_equal. rewrite orb_false_r.
  destruct (Z.leb_spec 91 c), (Z.leb_spec c 91), (Z.leb_spec 93 c),
    (Z.leb_spec c 93), (Z.eqb_spec c 91), (Z.eqb_spec c 93);
    simpl; try reflexivity; lia.
Qed.

Lemma run_not_bracket (txt rest : str) :
  forallb (fun c => negb (is_bracket c)) txt = true ->
  (rest = [] \/ exists c r, rest = c :: r /\ is_bracket c = true) ->
  run not_bracket None (txt ++ rest) = length txt.
Proof.
  intros Htxt Hrest. apply run_app.
  - rewrite forallb_forall in Htxt |- *. intros c Hc.
    rewrite cmatch_not_bracket. apply Htxt, Hc.
  - exact I.
  - destruct Hrest as [->|(c & r & -> & Hc)]; [left; reflexivity|].
    right; left. exists c, r. split; [reflexivity|].
    rewrite cmatch_not_bracket, Hc. reflexivity.
Qed.

(** C8, as the code has it.  The line of the test yields the milliseconds
    845 and 84 and the text of its two characters.  In general a string in
    which no timestamp begins yields a line without characters; otherwise
    the leftmost timestamp and the text behind it up to the next bracket
    or the end of the string yield the first character, the scan goes on
    behind that text for the following ones, and a timestamp of sixty
    seconds or more raises a validation error for the whole line. *)
Theorem from_string_characters :
  (exists l,
      EnhancedLyricLine_from_string s_tsuma = Ok l
      /\ option_map LRCTime_milliseconds (start_time l) = Some 845
      /\ option_map LRCTime_milliseconds (end_time l) = Some 84
      /\ text l = [12388; 12414])
  /\ (forall s,
         stamp_free s ->
         EnhancedLyricLine_from_string s = Ok (EnhancedLyricLine_init []))
  /\ (forall pre mm ss f txt rest,
         no_stamp_before (length pre) (pre ++ bracket mm ss f ++ txt ++ rest) ->
         stamp mm ss f ->
         forallb (fun c => negb (is_bracket c)) txt = true ->
         (rest = [] \/ exists c r, rest = c :: r /\ is_bracket c = true) ->
         EnhancedLyricLine_from_string (pre ++ bracket mm ss f ++ txt ++ rest)
         = if str_value ss <=? 59
           then l <- EnhancedLyricLine_from_string rest ;;
                Ok (EnhancedLyricLine_init
                      (mk_TimedCharacter (stamp_time mm ss f) txt
                       :: characters l))
           else Raise ValueError).
Proof.
  split; [|split].
  - eexists. split; [vm_compute; reflexivity|].
    split; [vm_compute; reflexivity|].
    split; vm_compute; reflexivity.
  - intros s Hfree. unfold EnhancedLyricLine_from_string.
    rewrite enhanced_pattern_stamp, findall_stamp_free by exact Hfree.
    reflexivity.
  - intros pre mm ss f txt rest Hpre Hs Htxt Hrest.
    unfold EnhancedLyricLine_from_string.
    rewrite enhanced_pattern_stamp.
    rewrite findall_first_stamp by assumption.
    rewrite (run_not_bracket txt rest Htxt Hrest).
    rewrite firstn_length_app, skipn_length_app.
    cbn [mapM]. unfold TimedCharacter_standard_parse at 1.
    destruct (LRCTime_init_stamp mm ss f Hs) as [E1 _]. rewrite E1.
    destruct (str_value ss <=? 59); [|reflexivity].
    cbn [bind].
    destruct (mapM _ (findall (stamp_pattern not_bracket) rest));
      reflexivity.
Qed.

Lemma from_string_characters_witness :
  EnhancedLyricLine_from_string s_tsuma
  = Ok (EnhancedLyricLine_init
          [mk_TimedCharacter (stamp_time [48; 48] [49; 57] [56; 52; 53]) [12388];
           mk_TimedCharacter (stamp_time [48; 48] [50; 48] [48; 56; 52]) [12414]]).
Proof.
  destruct from_string_characters as (_ & Hfree & Hfirst).
  assert (S1 : stamp [48; 48] [49; 57] [56; 52; 53])
    by (unfold stamp; simpl; repeat split; try reflexivity; lia).
  assert (S2 : stamp [48; 48] [50; 48] [48; 56; 52])
    by (unfold stamp; simpl; repeat split; try reflexivity; lia).
  assert (N0 : forall s : str, no_stamp_before (length (@nil codepoint)) s)
    by (intros s i Hi; simpl in Hi; lia).
  pose (rest2 := [] ++ bracket [48; 48] [50; 48] [48; 56; 52] ++ [12414] ++ []).
  assert (R1 : rest2 = [] \/ exists c r, rest2 = c :: r /\ is_bracket c = true).
  { right. exists 91. eexists. split; reflexivity. }
  pose proof (Hfirst [] _ _ _ [12388] rest2 (N0 _) S1 eq_refl R1) as H1.
  assert (H3 : EnhancedLyricLine_from_string []
               = Ok (EnhancedLyricLine_init [])).
  { apply Hfree. intros i Hi (mm & ss & f & rest & _ & E).
    destruct i; simpl in E; unfold bracket in E; discriminate E. }
  assert (H2 : EnhancedLyricLine_from_string rest2
               = Ok (EnhancedLyricLine_init
                       [mk_TimedCharacter
                          (stamp_time [48; 48] [50; 48] [48; 56; 52])
                          [12414]])).
  { pose proof (Hfirst [] [48; 48] [50; 48] [48; 56; 52] [12414] []
                  (N0 _) S2 eq_refl (or_introl eq_refl)) as H2.
    rewrite H3 in H2. exact H2. }
  rewrite H2 in H1. exact H1.
Defined.

(** C8, as it is stated, fails on a match whose seconds are sixty: the
    pattern matches once and no character results. *)
Lemma from_string_sixty_seconds :
  length (findall enhanced_pattern s_sixty_seconds) = 1%nat
  /\ EnhancedLyricLine_from_string s_sixty_seconds = Raise ValueError
  /\ ~ (exists l, EnhancedLyricLine_from_string s_sixty_seconds = Ok l).
Proof.
  assert (E : EnhancedLyricLine_from_string s_sixty_seconds = Raise ValueError)
    by (vm_compute; reflexivity).
  split; [vm_compute; reflexivity|]. split; [exact E|].
  intros [l H]. rewrite E in H. discriminate.
Qed.

(** ** Binary64: when [total_milliseconds] is exact *)

Lemma pow2_pos (t : Z) : 0 < 2 ^ Z.max 0 t.
Proof. apply Z.pow_pos_nonneg; lia. Qed.

(** [2 ^ x / 2 ^ y] written with the two clipped exponents of [x - y]. *)
Lemma pow2_diff (x y : Z) :
  0 <= x -> 0 <= y ->
  2 ^ y * 2 ^ Z.max 0 (x - y) = 2 ^ x * 2 ^ Z.max 0 (- (x - y)).
Proof.
  intros Hx Hy. destruct (Z_le_gt_dec y x) as [H|H].
  - rewrite (Z.max_r 0 (x - y)) by lia.
    rewrite (Z.max_l 0 (- (x - y))) by lia.
    rewrite Z.pow_0_r, Z.mul_1_r. rewrite <- Z.pow_add_r by lia.
    f_equal. lia.
  - rewrite (Z.max_l 0 (x - y)) by lia.
    rewrite (Z.max_r 0 (- (x - y))) by lia.
    rewrite Z.pow_0_r, Z.mul_1_r. rewrite <- Z.pow_add_r by lia.
    f_equal. lia.
Qed.

(** Moving [c] binary places from the exponent to the significand. *)
Lemma pow2_shift (k c : Z) :
  0 <= c ->
  2 ^ Z.max 0 k * 2 ^ Z.max 0 (- (k - c))
  = 2 ^ c * 2 ^ Z.max 0 (k - c) * 2 ^ Z.max 0 (- k).
Proof.
  intros Hc.
  destruct (Z_le_gt_dec c k) as [H|H].
  - rewrite (Z.max_r 0 k), (Z.max_l 0 (- (k - c))), (Z.max_r 0 (k - c)),
      (Z.max_l 0 (- k)) by lia.
    rewrite !Z.pow_0_r, !Z.mul_1_r. rewrite <- Z.pow_add_r by lia.
    f_equal. lia.
  - destruct (Z_le_gt_dec 0 k) as [H0|H0].
    + rewrite (Z.max_r 0 k), (Z.max_r 0 (- (k - c))), (Z.max_l 0 (k - c)),
        (Z.max_l 0 (- k)) by lia.
      rewrite !Z.pow_0_r, !Z.mul_1_r. rewrite <- Z.pow_add_r by lia.
      f_equal. lia.
    + rewrite (Z.max_l 0 k), (Z.max_r 0 (- (k - c))), (Z.max_l 0 (k - c)),
        (Z.max_r 0 (- k)) by lia.
      rewrite !Z.pow_0_r, !Z.mul_1_r, Z.mul_1_l.
      rewrite <- Z.pow_add_r by lia. f_equal. lia.
Qed.

(** The nearest integer is within a half. *)
Lemma round_half_even_near (a b : Z) :
  0 < b -> Z.abs (2 * Float.round_half_even a b * b - 2 * a) <= b.
Proof.
  intros Hb. unfold Float.round_half_even.
  pose proof (Z.div_mod a b ltac:(lia)) as E.
  pose proof (Z.mod_pos_bound a b Hb) as B.
  set (q := a / b) in *. set (r := a mod b) in *.
  assert (Ea : a = q * b + r) by lia. clearbody q r.
  destruct (Z.ltb_spec (2 * r) b).
  - replace (2 * q * b - 2 * a) with (- (2 * r)) by lia. lia.
  - destruct (Z.ltb_spec b (2 * r)).
    + replace (2 * (q + 1) * b - 2 * a) with (2 * b - 2 * r) by lia. lia.
    + destruct (Z.even q).
      * replace (2 * q * b - 2 * a) with (- (2 * r)) by lia. lia.
      * replace (2 * (q + 1) * b - 2 * a) with (2 * b - 2 * r) by lia. lia.
Qed.

(** An integer strictly within a half is the nearest one. *)
Lemma round_half_even_exact (a b n : Z) :
  0 < b -> Z.abs (2 * a - 2 * n * b) < b -> Float.round_half_even a b = n.
Proof.
  intros Hb Hn. unfold Float.round_half_even.
  pose proof (Z.div_mod a b ltac:(lia)) as E.
  pose proof (Z.mod_pos_bound a b Hb) as B.
  set (q := a / b) in *. set (r := a mod b) in *.
  assert (Ea : a = q * b + r) by lia. clearbody q r. subst a.
  assert (Hq : n = q \/ n = q + 1).
  { destruct (Z_le_gt_dec n (q - 1)) as [H1|H1].
    - exfalso.
      assert ((q - n) * b >= 1 * b)
        by (apply Z.le_ge, Z.mul_le_mono_nonneg_r; lia).
      lia.
    - destruct (Z_le_gt_dec (q + 2) n) as [H2|H2]; [|lia].
      exfalso.
      assert ((n - q) * b >= 2 * b)
        by (apply Z.le_ge, Z.mul_le_mono_nonneg_r; lia).
      lia. }
  destruct Hq as [->| ->].
  - destruct (Z.ltb_spec (2 * r) b); [reflexivity | lia].
  - destruct (Z.ltb_spec (2 * r) b); [lia|].
    destruct (Z.ltb_spec b (2 * r)); [reflexivity | lia].
Qed.

Lemma floor_log2_spec (a b : Z) :
  0 < a -> 0 < b ->
  let k := Float.floor_log2 a b in
  b * 2 ^ Z.max 0 k <= a * 2 ^ Z.max 0 (- k)
  /\ a * 2 ^ Z.max 0 (- (k + 1)) < b * 2 ^ Z.max 0 (k + 1).
Proof.
  intros Ha Hb. cbv zeta. unfold Float.floor_log2.
  pose proof (Z.log2_spec a Ha) as La. pose proof (Z.log2_spec b Hb) as Lb.
  pose proof (Z.log2_nonneg a) as Na. pose proof (Z.log2_nonneg b) as Nb.
  set (la := Z.log2 a) in *. set (lb := Z.log2 b) in *.
  set (k0 := la - lb).
  destruct (Z.ltb_spec (a * 2 ^ Z.max 0 (- k0)) (b * 2 ^ Z.max 0 k0)) as [T|T].
  - split.
    + pose proof (pow2_diff la (Z.succ lb) Na ltac:(lia)) as E.
      replace (la - Z.succ lb) with (k0 - 1) in E by (unfold k0; lia).
      pose proof (pow2_pos (k0 - 1)) as P1.
      pose proof (pow2_pos (- (k0 - 1))) as P2.
      set (u := 2 ^ Z.max 0 (k0 - 1)) in *.
      set (d := 2 ^ Z.max 0 (- (k0 - 1))) in *.
      assert (b * u <= 2 ^ Z.succ lb * u)
        by (apply Z.mul_le_mono_nonneg_r; lia).
      assert (2 ^ la * d <= a * d)
        by (apply Z.mul_le_mono_nonneg_r; lia).
      lia.
    + replace (k0 - 1 + 1) with k0 by lia. exact T.
  - split; [exact T|].
    pose proof (pow2_diff (Z.succ la) lb ltac:(lia) Nb) as E.
    replace (Z.succ la - lb) with (k0 + 1) in E by (unfold k0; lia).
    pose proof (pow2_pos (k0 + 1)) as P1.
    pose proof (pow2_pos (- (k0 + 1))) as P2.
    set (u := 2 ^ Z.max 0 (k0 + 1)) in *.
    set (d := 2 ^ Z.max 0 (- (k0 + 1))) in *.
    assert (a * d < 2 ^ Z.succ la * d)
      by (apply Z.mul_lt_mono_pos_r; lia).
    assert (2 ^ lb * u <= b * u)
      by (apply Z.mul_le_mono_nonneg_r; lia).
    lia.
Qed.

(** The double nearest to a positive rational: a significand of 53 bits
    within a half of the scaled quotient. *)
Lemma nearest_spec (p q : Z) :
  0 < p -> 0 < q ->
  let x := Float.nearest p q in
  let A := p * 2 ^ Z.max 0 (- Float.expo x) in
  let B := q * 2 ^ Z.max 0 (Float.expo x) in
  0 < B
  /\ Z.abs (2 * Float.mant x * B - 2 * A) <= B
  /\ 2 ^ 52 * B <= A < 2 ^ 53 * B.
Proof.
  intros Hp Hq. cbv zeta. unfold Float.nearest.
  destruct (Z.eqb_spec p 0) as [C|_]; [lia|].
  rewrite Z.abs_eq by lia. rewrite Z.sgn_pos by lia.
  cbn [Float.mant Float.expo]. rewrite Z.mul_1_l.
  destruct (floor_log2_spec p q Hp Hq) as [L U].
  set (k := Float.floor_log2 p q) in *. set (e := k - 52).
  pose proof (pow2_pos e) as Pe. pose proof (pow2_pos (- e)) as Pne.
  pose proof (pow2_pos (- k)) as Pnk.
  pose proof (pow2_pos (- (k + 1))) as Pnk1.
  assert (HB : 0 < q * 2 ^ Z.max 0 e) by (apply Z.mul_pos_pos; assumption).
  split; [exact HB|]. split; [apply round_half_even_near, HB|].
  pose proof (pow2_shift k 52 ltac:(lia)) as E1. fold e in E1.
  pose proof (pow2_shift (k + 1) 53 ltac:(lia)) as E2.
  replace (k + 1 - 53) with e in E2 by (unfold e; lia).
  set (uk := 2 ^ Z.max 0 k) in *. set (dk := 2 ^ Z.max 0 (- k)) in *.
  set (uk1 := 2 ^ Z.max 0 (k + 1)) in *.
  set (dk1 := 2 ^ Z.max 0 (- (k + 1))) in *.
  set (ue := 2 ^ Z.max 0 e) in *. set (de := 2 ^ Z.max 0 (- e)) in *.
  split.
  - apply Z.mul_le_mono_pos_r with (p := dk); [exact Pnk|].
    replace (2 ^ 52 * (q * ue) * dk) with (q * (2 ^ 52 * ue * dk)) by ring.
    rewrite <- E1.
    replace (q * (uk * de)) with (q * uk * de) by ring.
    replace (p * de * dk) with (p * dk * de) by ring.
    apply Z.mul_le_mono_nonneg_r; [lia | exact L].
  - apply Z.mul_lt_mono_pos_r with (p := dk1); [exact Pnk1|].
    replace (2 ^ 53 * (q * ue) * dk1) with (q * (2 ^ 53 * ue * dk1)) by ring.
    rewrite <- E2.
    replace (q * (uk1 * de)) with (q * uk1 * de) by ring.
    replace (p * de * dk1) with (p * dk1 * de) by ring.
    apply Z.mul_lt_mono_pos_r; [exact Pne | exact U].
Qed.

Lemma of_int_1000 : Float.of_int 1000 = Float.mk 8796093022208000 (-43).
Proof. vm_compute. reflexivity. Qed.

(** Below 2^50 milliseconds the two roundings of
    [round(total_seconds() * 1000)] stay within half a millisecond. *)
Lemma milliseconds_exact (N : Z) :
  0 <= N < 2 ^ 50 ->
  Float.round (Float.mul (Float.true_div (1000 * N) 1000000)
                 (Float.of_int 1000)) = N.
Proof.
  intros HN. destruct (Z.eq_dec N 0) as [->|Hne]; [vm_compute; reflexivity|].
  assert (Hp : 0 < 1000 * N) by lia.
  rewrite of_int_1000. unfold Float.true_div.
  destruct (nearest_spec (1000 * N) 1000000 Hp ltac:(lia)) as (HB & F1 & F2).
  destruct (Float.nearest (1000 * N) 1000000) as [m e].
  cbn [Float.mant Float.expo] in HB, F1, F2.
  change (2 ^ 50) with 1125899906842624 in HN.
  change (2 ^ 52) with 4503599627370496 in F2.
  change (2 ^ 53) with 9007199254740992 in F2.
  (* the exponent of the quotient is negative *)
  assert (He : e < 0).
  { destruct (Z_lt_le_dec e 0) as [H|H]; [exact H | exfalso].
    replace (Z.max 0 (- e)) with 0 in F2 by lia.
    pose proof (pow2_pos e) as Pe. change (2 ^ 0) with 1 in F2.
    set (u := 2 ^ Z.max 0 e) in *.
    assert (1000000 * 1 <= 1000000 * u)
      by (apply Z.mul_le_mono_nonneg_l; lia).
    lia. }
  replace (Z.max 0 e) with 0 in * by lia.
  replace (Z.max 0 (- e)) with (- e) in * by lia.
  change (2 ^ 0) with 1 in *.
  assert (PE : 0 < 2 ^ (- e)) by (apply Z.pow_pos_nonneg; lia).
  set (E := 2 ^ (- e)) in *.
  assert (G1 : Z.abs (1000 * m - N * E) <= 500) by lia.
  assert (G2 : 4503599627370496 * 1000 <= N * E) by lia.
  assert (GN : N * E <= 1125899906842623 * E)
    by (apply Z.mul_le_mono_nonneg_r; lia).
  assert (GE : 4000 < E) by lia.
  assert (Hm : 0 < m) by lia.
  (* the product *)
  unfold Float.mul. cbn [Float.mant Float.expo].
  replace (Z.max 0 (e + -43)) with 0 by lia.
  replace (Z.max 0 (- (e + -43))) with (43 + - e) by lia.
  rewrite Z.pow_add_r by lia. fold E.
  change (2 ^ 0) with 1. change (2 ^ 43) with 8796093022208.
  set (P := m * 8796093022208000 * 1). set (Q := 8796093022208 * E).
  assert (HP : 0 < P) by (unfold P; lia).
  assert (HQ : 0 < Q) by (unfold Q; lia).
  destruct (nearest_spec P Q HP HQ) as (HB' & F1' & F2').
  destruct (Float.nearest P Q) as [m' e'].
  cbn [Float.mant Float.expo] in HB', F1', F2'.
  change (2 ^ 52) with 4503599627370496 in F2'.
  change (2 ^ 53) with 9007199254740992 in F2'.
  assert (He' : e' < 0).
  { destruct (Z_lt_le_dec e' 0) as [H|H]; [exact H | exfalso].
    replace (Z.max 0 (- e')) with 0 in F2' by lia.
    pose proof (pow2_pos e') as Pe'. change (2 ^ 0) with 1 in F2'.
    set (u := 2 ^ Z.max 0 e') in *.
    assert (Q * 1 <= Q * u) by (apply Z.mul_le_mono_nonneg_l; lia).
    unfold P, Q in *. lia. }
  replace (Z.max 0 e') with 0 in * by lia.
  replace (Z.max 0 (- e')) with (- e') in * by lia.
  change (2 ^ 0) with 1 in *.
  assert (PE' : 0 < 2 ^ (- e')) by (apply Z.pow_pos_nonneg; lia).
  unfold Float.round. cbn [Float.mant Float.expo].
  replace (Z.max 0 e') with 0 by lia.
  replace (Z.max 0 (- e')) with (- e') by lia.
  change (2 ^ 0) with 1.
  set (E' := 2 ^ (- e')) in *.
  assert (G3 : Z.abs (2 * m' * E - 2000 * m * E') <= E).
  { unfold P, Q in F1'. lia. }
  assert (G4 : 4503599627370496 * E <= 1000 * m * E').
  { unfold P, Q in F2'. lia. }
  assert (GE' : 3 < E').
  { destruct (Z_lt_le_dec 3 E') as [H|H]; [exact H | exfalso].
    assert (1000 * m * E' <= 1000 * m * 3)
      by (apply Z.mul_le_mono_nonneg_l; lia).
    lia. }
  apply round_half_even_exact; [exact PE'|].
  rewrite Z.mul_1_r.
  assert (K : Z.abs (2 * m' * E - 2 * N * E * E') <= E + 1000 * E').
  { replace (2 * m' * E - 2 * N * E * E')
      with ((2 * m' * E - 2000 * m * E') + 2 * E' * (1000 * m - N * E)) by ring.
    assert (Z.abs (2 * E' * (1000 * m - N * E)) <= 1000 * E').
    { rewrite Z.abs_mul. rewrite (Z.abs_eq (2 * E')) by lia.
      replace (1000 * E') with (2 * E' * 500) by ring.
      apply Z.mul_le_mono_nonneg_l; lia. }
    lia. }
  assert (K2 : E + 1000 * E' < E * E').
  { assert (0 <= (E - 4001) * (E' - 4))
      by (apply Z.mul_nonneg_nonneg; lia).
    replace ((E - 4001) * (E' - 4))
      with (E * E' - 4 * E - 4001 * E' + 16004) in * by ring.
    lia. }
  assert (K3 : Z.abs ((2 * m' - 2 * N * E') * E) < E' * E).
  { replace ((2 * m' - 2 * N * E') * E) with (2 * m' * E - 2 * N * E * E')
      by ring.
    replace (E' * E) with (E * E') by ring. lia. }
  rewrite Z.abs_mul, (Z.abs_eq E) in K3 by lia.
  apply Z.mul_lt_mono_pos_r in K3; [exact K3 | exact PE].
Qed.

(** * Further properties *)

(** ** Timestamps *)

Lemma LRCTime_init_ok_inv (m s ms : str) (t : LRCTime) :
  LRCTime_init m s ms = Ok t ->
  numeric m /\ numeric s /\ numeric ms
  /\ str_value s <= 59 /\ str_value (ljust ms 3 chr_0) <= 999
  /\ str_value m * 60 + str_value s < MAX_SECONDS
  /\ t = mk_LRCTime
           (mk_timedelta ((str_value m * 60 + str_value s) / 86400)
              ((str_value m * 60 + str_value s) mod 86400)
              (str_value (ljust ms 3 chr_0) * 1000)).
Proof.
  intros H.
  destruct (numeric_or_not m) as [Hm|Hm];
    [|rewrite LRCTime_init_invalid in H by tauto; discriminate].
  destruct (numeric_or_not s) as [Hs|Hs];
    [|rewrite LRCTime_init_invalid in H by tauto; discriminate].
  destruct (numeric_or_not ms) as [Hms|Hms];
    [|rewrite LRCTime_init_invalid in H by tauto; discriminate].
  destruct (short_or_not m) as [Sm|Sm];
    [|rewrite LRCTime_init_invalid in H by tauto; discriminate].
  destruct (short_or_not s) as [Ss|Ss];
    [|rewrite LRCTime_init_invalid in H by tauto; discriminate].
  destruct (short_or_not ms) as [Sms|Sms];
    [|rewrite LRCTime_init_invalid in H by tauto; discriminate].
  rewrite LRCTime_init_numeric in H by assumption.
  destruct (Z.leb_spec (str_value s) 59) as [E1|E1];
    [|discriminate H]. simpl negb in H. cbv iota in H.
  destruct (Z.leb_spec (str_value (ljust ms 3 chr_0)) 999) as [E2|E2];
    [|discriminate H]. simpl negb in H. cbv iota in H.
  destruct (Z.ltb_spec (str_value m * 60 + str_value s) MAX_SECONDS)
    as [E3|E3]; [|discriminate H].
  injection H as <-. repeat (split; [assumption|]). reflexivity.
Qed.

Lemma time_of_milliseconds_microseconds (n : Z) :
  timedelta_to_microseconds (time (time_of_milliseconds n)) = 1000 * n.
Proof.
  unfold time_of_milliseconds, timedelta_to_microseconds.
  cbn [time td_days td_seconds td_microseconds].
  pose proof (Z.div_mod n 1000 ltac:(lia)) as E1.
  pose proof (Z.div_mod (n / 1000) 86400 ltac:(lia)) as E2.
  lia.
Qed.

Lemma LRCTime_init_time_of (m s ms : str) (t : LRCTime) :
  LRCTime_init m s ms = Ok t ->
  t = time_of_milliseconds (exact_milliseconds m s ms)
  /\ 0 <= exact_milliseconds m s ms < MAX_SECONDS * 1000
  /\ exact_milliseconds m s ms / 60000 = str_value m
  /\ exact_milliseconds m s ms / 1000 mod 60 = str_value s
  /\ exact_milliseconds m s ms mod 1000 = str_value (ljust ms 3 chr_0).
Proof.
  intros H.
  destruct (LRCTime_init_ok_inv _ _ _ _ H) as (_ & _ & _ & B1 & B2 & B3 & ->).
  pose proof (str_value_nonneg m) as P1.
  pose proof (str_value_nonneg s) as P2.
  pose proof (str_value_nonneg (ljust ms 3 chr_0)) as P3.
  unfold exact_milliseconds, time_of_milliseconds, MAX_SECONDS in *.
  set (M := str_value m) in *. set (S := str_value s) in *.
  set (F := str_value (ljust ms 3 chr_0)) in *.
  assert (Q1 : ((M * 60 + S) * 1000 + F) / 1000 = M * 60 + S).
  { symmetry. apply Z.div_unique with (r := F); lia. }
  assert (Q2 : ((M * 60 + S) * 1000 + F) mod 1000 = F).
  { symmetry. apply Z.mod_unique with (q := M * 60 + S); lia. }
  rewrite Q1, Q2.
  split; [reflexivity|]. split; [lia|].
  split; [symmetry; apply Z.div_unique with (r := S * 1000 + F); lia|].
  split; [|reflexivity].
  symmetry. apply Z.mod_unique with (q := M); lia.
Qed.

Lemma total_milliseconds_time_of (n : Z) :
  0 <= n < 2 ^ 50 ->
  LRCTime_total_milliseconds (time_of_milliseconds n) = n.
Proof.
  intros H. unfold LRCTime_total_milliseconds, timedelta_total_seconds.
  rewrite time_of_milliseconds_microseconds. apply milliseconds_exact, H.
Qed.

(** X1.  For a timestamp the constructor accepts and that lies below 2^50
    milliseconds, [total_milliseconds] is the exact count and the three
    accessors give back the numbers written in the three parts. *)
Theorem timestamp_components_exact (m s ms : str) (t : LRCTime) :
  LRCTime_init m s ms = Ok t ->
  exact_milliseconds m s ms < 2 ^ 50 ->
  LRCTime_total_milliseconds t = exact_milliseconds m s ms
  /\ LRCTime_minutes t = str_value m
  /\ LRCTime_seconds t = str_value s
  /\ LRCTime_milliseconds t = str_value (ljust ms 3 chr_0).
Proof.
  intros H Hb.
  destruct (LRCTime_init_time_of _ _ _ _ H) as (-> & B & E1 & E2 & E3).
  unfold LRCTime_minutes, LRCTime_seconds, LRCTime_milliseconds.
  rewrite total_milliseconds_time_of by lia. auto.
Qed.

Lemma timestamp_components_exact_witness :
  exists t,
    LRCTime_init [48; 49] [49; 50] [51; 52] = Ok t
    /\ LRCTime_total_milliseconds t = 72340
    /\ LRCTime_minutes t = 1
    /\ LRCTime_seconds t = 12
    /\ LRCTime_milliseconds t = 340.
Proof.
  eexists. split; [vm_compute; reflexivity|].
  apply (timestamp_components_exact [48; 49] [49; 50] [51; 52]).
  - vm_compute. reflexivity.
  - vm_compute. reflexivity.
Defined.

Lemma time_of_milliseconds_ltb (a b : Z) :
  0 <= a -> 0 <= b ->
  (LRCTime_ltb (time_of_milliseconds a) (time_of_milliseconds b) = true
   <-> a < b)
  /\ (LRCTime_eqb (time_of_milliseconds a) (time_of_milliseconds b) = true
      <-> a = b).
Proof.
  intros Ha Hb.
  pose proof (Z.div_mod a 1000 ltac:(lia)) as A1.
  pose proof (Z.mod_pos_bound a 1000 ltac:(lia)) as A2.
  pose proof (Z.div_mod (a / 1000) 86400 ltac:(lia)) as A3.
  pose proof (Z.mod_pos_bound (a / 1000) 86400 ltac:(lia)) as A4.
  pose proof (Z.div_mod b 1000 ltac:(lia)) as B1.
  pose proof (Z.mod_pos_bound b 1000 ltac:(lia)) as B2.
  pose proof (Z.div_mod (b / 1000) 86400 ltac:(lia)) as B3.
  pose proof (Z.mod_pos_bound (b / 1000) 86400 ltac:(lia)) as B4.
  unfold LRCTime_ltb, LRCTime_eqb, time_of_milliseconds. cbn [time].
  rewrite timedelta_ltb_lex. unfold timedelta_eqb.
  cbn [td_days td_seconds td_microseconds].
  rewrite !andb_true_iff, !Z.eqb_eq.
  set (da := a / 1000 / 86400) in *. set (sa := a / 1000 mod 86400) in *.
  set (ua := a mod 1000) in *. set (ta := a / 1000) in *.
  set (db := b / 1000 / 86400) in *. set (sb := b / 1000 mod 86400) in *.
  set (ub := b mod 1000) in *. set (tb := b / 1000) in *.
  split; split; intros H; lia.
Qed.

(** X2.  Between two timestamps the constructor accepts, [<] and [==]
    decide the order and the equality of the milliseconds they hold. *)
Theorem timestamp_order_is_milliseconds (m1 s1 ms1 m2 s2 ms2 : str)
  (a b : LRCTime) :
  LRCTime_init m1 s1 ms1 = Ok a ->
  LRCTime_init m2 s2 ms2 = Ok b ->
  (LRCTime_ltb a b = true
   <-> exact_milliseconds m1 s1 ms1 < exact_milliseconds m2 s2 ms2)
  /\ (LRCTime_eqb a b = true
      <-> exact_milliseconds m1 s1 ms1 = exact_milliseconds m2 s2 ms2)
  /\ (LRCTime_leb a b = true
      <-> exact_milliseconds m1 s1 ms1 <= exact_milliseconds m2 s2 ms2).
Proof.
  intros Ha Hb.
  destruct (LRCTime_init_time_of _ _ _ _ Ha) as (-> & Ba & _).
  destruct (LRCTime_init_time_of _ _ _ _ Hb) as (-> & Bb & _).
  destruct (time_of_milliseconds_ltb (exact_milliseconds m1 s1 ms1)
              (exact_milliseconds m2 s2 ms2) ltac:(lia) ltac:(lia))
    as [Hlt Heq].
  split; [exact Hlt|]. split; [exact Heq|].
  unfold LRCTime_leb. rewrite orb_true_iff, Hlt, Heq. lia.
Qed.

Lemma timestamp_order_is_milliseconds_witness :
  exists a b,
    LRCTime_init [48; 48] [53; 57] [57] = Ok a
    /\ LRCTime_init [48; 49] [48; 48] [48; 48; 48] = Ok b
    /\ LRCTime_ltb a b = true.
Proof.
  eexists. eexists. split; [vm_compute; reflexivity|].
  split; [vm_compute; reflexivity|].
  apply (timestamp_order_is_milliseconds [48; 48] [53; 57] [57]
           [48; 49] [48; 48] [48; 48; 48]).
  - vm_compute. reflexivity.
  - vm_compute. reflexivity.
  - vm_compute. reflexivity.
Defined.

(** ** Decimal formatting *)

Lemma digits_le_spec (fuel : nat) :
  forall x, 0 <= x < 2 ^ Z.of_nat fuel -> (0 < fuel)%nat ->
            digits_le fuel x <> []
            /\ ascii_digits (digits_le fuel x) = true
            /\ value_le (digits_le fuel x) = x.
Proof.
  induction fuel as [|fuel IH]; intros x Hx Hf; [lia|].
  cbn [digits_le].
  pose proof (Z.div_mod x 10 ltac:(lia)) as E.
  pose proof (Z.mod_pos_bound x 10 ltac:(lia)) as B.
  assert (Hd : digit_val (chr_0 + x mod 10) = x mod 10
               /\ (chr_0 <=? chr_0 + x mod 10) && (chr_0 + x mod 10 <=? 57) = true).
  { unfold chr_0.
    destruct (isdecimal_ascii (48 + x mod 10) ltac:(lia)) as [_ V].
    split; [lia|].
    apply andb_true_iff. split; apply Z.leb_le; lia. }
  destruct Hd as [Hv Ha].
  split; [discriminate|].
  destruct (Z.eqb_spec (x / 10) 0) as [Hz|Hz].
  - cbn [ascii_digits forallb value_le fold_right]. rewrite Ha, Hv.
    split; [reflexivity | lia].
  - assert (Hq : 0 <= x / 10 < 2 ^ Z.of_nat fuel).
    { split; [apply Z.div_pos; lia|].
      apply Z.div_lt_upper_bound; [lia|].
      rewrite Nat2Z.inj_succ, Z.pow_succ_r in Hx by lia. lia. }
    assert (Hf' : (0 < fuel)%nat).
    { destruct fuel; [|lia]. simpl in Hq. lia. }
    destruct (IH (x / 10) Hq Hf') as (_ & A & V).
    unfold ascii_digits, value_le in *. cbn [forallb fold_right].
    rewrite Ha, A, Hv, V. split; [reflexivity | lia].
Qed.

Lemma ascii_digits_decimal (s : str) :
  ascii_digits s = true -> forallb Unicode.isdecimal s = true.
Proof.
  unfold ascii_digits. rewrite !forallb_forall. intros H c Hc.
  specialize (H c Hc). apply andb_true_iff in H. destruct H as [H1 H2].
  apply Z.leb_le in H1, H2. unfold chr_0 in H1.
  apply (isdecimal_ascii c). lia.
Qed.

Lemma str_value_rev (l : str) : str_value (rev l) = value_le l.
Proof.
  unfold str_value, value_le. rewrite <- fold_left_rev_right.
  rewrite rev_involutive. reflexivity.
Qed.

Lemma digits_spec (x : Z) :
  0 <= x ->
  digits x <> [] /\ ascii_digits (digits x) = true /\ str_value (digits x) = x.
Proof.
  intros Hx. unfold digits.
  assert (Hb : 0 <= x < 2 ^ Z.of_nat (S (Z.to_nat (Z.log2 x)))).
  { split; [exact Hx|]. rewrite Nat2Z.inj_succ, Z2Nat.id by apply Z.log2_nonneg.
    destruct (Z.eq_dec x 0) as [->|Hne]; [reflexivity|].
    apply Z.log2_spec. lia. }
  destruct (digits_le_spec _ x Hb ltac:(lia)) as (Hne & A & V).
  split.
  - intros C. apply Hne. apply (f_equal (@rev _)) in C.
    rewrite rev_involutive in C. exact C.
  - split.
    + unfold ascii_digits in *. rewrite forallb_forall in A |- *.
      intros c Hc. apply A, in_rev, Hc.
    + rewrite str_value_rev. exact V.
Qed.

Lemma str_value_zeros (n : nat) (s : str) :
  str_value (repeat chr_0 n ++ s) = str_value s.
Proof.
  unfold str_value. rewrite fold_left_app.
  replace (fold_left (fun a c => 10 * a + digit_val c) (repeat chr_0 n) 0)
    with 0; [reflexivity|].
  induction n as [|n IH]; [reflexivity|].
  cbn [repeat fold_left]. rewrite digit_val_0. exact IH.
Qed.

(** A non-negative number formats to decimal digits that read back as the
    number, at least [width] of them. *)
Lemma padded_spec (width : nat) (x : Z) :
  0 <= x ->
  numeric (padded width x)
  /\ ascii_digits (padded width x) = true
  /\ str_value (padded width x) = x
  /\ (width <= length (padded width x))%nat.
Proof.
  intros Hx. unfold padded.
  destruct (Z.ltb_spec x 0); [lia|].
  destruct (digits_spec x Hx) as (Hne & A & V).
  assert (Az : ascii_digits (zfill (digits x) width) = true).
  { unfold zfill, ascii_digits in *. rewrite forallb_app.
    apply andb_true_iff. split; [|exact A].
    induction (width - length (digits x))%nat; [reflexivity | exact IHn]. }
  split.
  - split.
    + unfold zfill. destruct (digits x); [congruence|].
      intros C. apply app_eq_nil in C. destruct C as [_ C]. discriminate.
    + apply ascii_digits_decimal, Az.
  - split; [exact Az|]. split.
    + unfold zfill. rewrite str_value_zeros. exact V.
    + unfold zfill. rewrite length_app, repeat_length. lia.
Qed.

(** The number of digits of a non-negative number. *)
Lemma digits_le_length (fuel : nat) :
  forall x, 0 <= x < 2 ^ Z.of_nat fuel -> (0 < fuel)%nat ->
            x < 10 ^ Z.of_nat (length (digits_le fuel x))
            /\ (0 < x -> 10 ^ Z.of_nat (length (digits_le fuel x)) <= 10 * x).
Proof.
  induction fuel as [|fuel IH]; intros x Hx Hf; [lia|].
  cbn [digits_le].
  pose proof (Z.div_mod x 10 ltac:(lia)) as E.
  pose proof (Z.mod_pos_bound x 10 ltac:(lia)) as B.
  destruct (Z.eqb_spec (x / 10) 0) as [Hz|Hz].
  - cbn [length]. change (10 ^ Z.of_nat 1) with 10. lia.
  - assert (Hq : 0 <= x / 10 < 2 ^ Z.of_nat fuel).
    { split; [apply Z.div_pos; lia|].
      apply Z.div_lt_upper_bound; [lia|].
      rewrite Nat2Z.inj_succ, Z.pow_succ_r in Hx by lia. lia. }
    assert (Hf' : (0 < fuel)%nat).
    { destruct fuel; [|lia]. simpl in Hq. lia. }
    destruct (IH (x / 10) Hq Hf') as (U & L).
    cbn [length]. rewrite Nat2Z.inj_succ, Z.pow_succ_r by lia.
    set (p := 10 ^ Z.of_nat (length (digits_le fuel (x / 10)))) in *.
    assert (L' : p <= 10 * (x / 10)) by (apply L; lia).
    lia.
Qed.

Lemma digits_length (x : Z) :
  0 <= x ->
  x < 10 ^ Z.of_nat (length (digits x))
  /\ (0 < x -> 10 ^ Z.of_nat (length (digits x)) <= 10 * x).
Proof.
  intros Hx. unfold digits. rewrite length_rev.
  apply digits_le_length; [|lia].
  split; [exact Hx|]. rewrite Nat2Z.inj_succ, Z2Nat.id by apply Z.log2_nonneg.
  destruct (Z.eq_dec x 0) as [->|Hne]; [reflexivity|].
  apply Z.log2_spec. lia.
Qed.

(** A non-negative number has at most [k] digits exactly when it is below
    [10 ^ k]. *)
Lemma digits_within (k x : Z) :
  0 <= x -> 1 <= k ->
  (Z.of_nat (length (digits x)) <= k <-> x < 10 ^ k).
Proof.
  intros Hx Hk. destruct (digits_length x Hx) as (U & L).
  set (n := Z.of_nat (length (digits x))) in *.
  assert (Hn : 0 <= n) by (unfold n; lia).
  split; intros H.
  - apply Z.lt_le_trans with (10 ^ n); [exact U|].
    apply Z.pow_le_mono_r; lia.
  - destruct (Z.eq_dec x 0) as [->|Hne]; [exact Hk|].
    destruct (Z_le_gt_dec n k) as [G|G]; [exact G|]. exfalso.
    assert (P : 10 ^ Z.succ k <= 10 ^ n) by (apply Z.pow_le_mono_r; lia).
    rewrite Z.pow_succ_r in P by lia.
    assert (L' : 10 ^ n <= 10 * x) by (apply L; lia).
    lia.
Qed.

Lemma cap_large : 2 ^ 1024 < int_max_str_value.
Proof. vm_compute. reflexivity. Qed.

Lemma cap_above (x : Z) : x < 1000000000000000000 -> x < int_max_str_value.
Proof.
  intros H. apply Z.lt_trans with (2 ^ 1024); [|exact cap_large].
  apply Z.lt_trans with 1000000000000000000; [exact H|].
  vm_compute. reflexivity.
Qed.

(** The decimal format within and beyond the limit on the digits. *)
Lemma format_0d_cases (width : nat) (x : Z) :
  format_0d width x
  = if Z.abs x <? int_max_str_value then Ok (padded width x)
    else Raise ValueError.
Proof.
  unfold format_0d.
  pose proof (digits_within int_max_str_digits (Z.abs x) (Z.abs_nonneg x)
                ltac:(unfold int_max_str_digits; lia)) as D.
  fold int_max_str_value in D.
  destruct (Z.ltb_spec int_max_str_digits
              (Z.of_nat (length (digits (Z.abs x))))) as [G|G];
    destruct (Z.ltb_spec (Z.abs x) int_max_str_value) as [K|K];
    try reflexivity; exfalso.
  - apply D in K. lia.
  - apply D in G. lia.
Qed.

(** A number that comes from a double is formatted within the limit. *)
Lemma format_0d_double (width : nat) (x : Z) :
  Z.abs x < 2 ^ 1024 -> format_0d width x = Ok (padded width x).
Proof.
  intros H. rewrite format_0d_cases.
  destruct (Z.ltb_spec (Z.abs x) int_max_str_value) as [K|K]; [reflexivity|].
  exfalso. pose proof cap_large as C.
  apply (Z.lt_irrefl (Z.abs x)).
  apply Z.lt_le_trans with int_max_str_value; [|exact K].
  apply Z.lt_trans with (2 ^ 1024); assumption.
Qed.

Lemma padded_short (width : nat) (x : Z) :
  0 <= x -> x < int_max_str_value -> (width <= 3)%nat ->
  short (padded width x).
Proof.
  intros Hx Hc Hw. unfold short, padded.
  destruct (Z.ltb_spec x 0); [lia|].
  unfold zfill. rewrite length_app, repeat_length.
  pose proof (digits_within int_max_str_digits x Hx
                ltac:(unfold int_max_str_digits; lia)) as D.
  fold int_max_str_value in D. apply D in Hc.
  unfold int_max_str_digits in *. lia.
Qed.

Lemma ljust_long (s : str) (n : nat) (c : codepoint) :
  (n <= length s)%nat -> ljust s n c = s.
Proof.
  intros H. unfold ljust.
  replace (n - length s)%nat with 0%nat by lia. apply app_nil_r.
Qed.

(** What [from_total_milliseconds] builds from a count that is not
    negative and whose minutes are within the limit on the digits. *)
Lemma from_total_milliseconds_formatted (n : Z) :
  0 <= n -> n / 60000 < int_max_str_value ->
  LRCTime_from_total_milliseconds n
  = if n <? MAX_SECONDS * 1000 then Ok (time_of_milliseconds n)
    else Raise OverflowError.
Proof.
  intros Hpos Hcap. unfold LRCTime_from_total_milliseconds.
  pose proof (Z.div_mod n 1000 ltac:(lia)) as E1.
  pose proof (Z.mod_pos_bound n 1000 ltac:(lia)) as B1.
  pose proof (Z.div_mod (n mod 60000) 1000 ltac:(lia)) as E2.
  pose proof (Z.mod_pos_bound n 60000 ltac:(lia)) as B2.
  pose proof (Z.div_mod n 60000 ltac:(lia)) as E3.
  assert (Hmin : 0 <= n / 60000) by (apply Z.div_pos; lia).
  assert (Hsec : 0 <= n mod 60000 / 1000 <= 59).
  { split; [apply Z.div_pos; lia|].
    apply Z.lt_succ_r, Z.div_lt_upper_bound; lia. }
  assert (C2 : n mod 60000 / 1000 < int_max_str_value)
    by (apply cap_above; lia).
  assert (C3 : n mod 1000 < int_max_str_value) by (apply cap_above; lia).
  rewrite !format_0d_cases.
  rewrite !Z.abs_eq by lia.
  apply Z.ltb_lt in Hcap, C2, C3. rewrite Hcap, C2, C3.
  apply Z.ltb_lt in Hcap, C2, C3. cbn [bind].
  destruct (padded_spec 2 (n / 60000) Hmin) as (N1 & _ & V1 & _).
  destruct (padded_spec 2 (n mod 60000 / 1000) ltac:(lia))
    as (N2 & _ & V2 & _).
  destruct (padded_spec 3 (n mod 1000) ltac:(lia)) as (N3 & _ & V3 & L3).
  rewrite LRCTime_init_numeric;
    [|assumption | assumption | assumption
     |apply padded_short; [lia | assumption | lia]
     |apply padded_short; [lia | assumption | lia]
     |apply padded_short; [lia | assumption | lia]].
  rewrite (ljust_long _ 3 chr_0 L3). rewrite V1, V2, V3.
  destruct (Z.leb_spec (n mod 60000 / 1000) 59); [|lia].
  destruct (Z.leb_spec (n mod 1000) 999); [|lia].
  cbn [negb].
  assert (Hn : n / 60000 * 60 + n mod 60000 / 1000 = n / 1000).
  { apply Z.div_unique with (r := n mod 1000); [lia|].
    pose proof (Z.div_mod (n mod 60000) 1000 ltac:(lia)) as E4.
    pose proof (Z.mod_pos_bound (n mod 60000) 1000 ltac:(lia)) as B4.
    assert (n mod 60000 mod 1000 = n mod 1000).
    { apply Z.mod_unique
        with (q := 60 * (n / 60000) + n mod 60000 / 1000); lia. }
    lia. }
  rewrite Hn. unfold MAX_SECONDS, time_of_milliseconds.
  destruct (Z.ltb_spec (n / 1000) 86400000000000) as [H1|H1];
    destruct (Z.ltb_spec n (86400000000000 * 1000)) as [H2|H2];
    try reflexivity; exfalso; lia.
Qed.

(** X3.  [from_total_milliseconds] on a count of milliseconds: a negative
    count raises a validation error (its minus sign is not a digit, or its
    minutes have more than 4300 digits and cannot be formatted); a count
    below the range of [timedelta] gives the timestamp that holds exactly
    that many milliseconds; a larger one raises an overflow error as long
    as its minutes have at most 4300 digits, and a validation error from
    the format of the minutes beyond that. *)
Theorem from_total_milliseconds_cases (n : Z) :
  LRCTime_from_total_milliseconds n
  = if n <? 0 then Raise ValueError
    else if n <? MAX_SECONDS * 1000 then Ok (time_of_milliseconds n)
    else if n / 60000 <? int_max_str_value then Raise OverflowError
    else Raise ValueError.
Proof.
  destruct (Z.ltb_spec n 0) as [Hneg|Hpos].
  - unfold LRCTime_from_total_milliseconds.
    assert (Hm : n / 60000 < 0) by (apply Z.div_lt_upper_bound; lia).
    pose proof (Z.mod_pos_bound n 60000 ltac:(lia)) as B2.
    pose proof (Z.mod_pos_bound n 1000 ltac:(lia)) as B1.
    assert (Hsec : 0 <= n mod 60000 / 1000 <= 59).
    { split; [apply Z.div_pos; lia|].
      apply Z.lt_succ_r, Z.div_lt_upper_bound; lia. }
    assert (C2 : n mod 60000 / 1000 < int_max_str_value)
      by (apply cap_above; lia).
    assert (C3 : n mod 1000 < int_max_str_value) by (apply cap_above; lia).
    rewrite !format_0d_cases.
    destruct (Z.abs (n / 60000) <? int_max_str_value); [|reflexivity].
    rewrite !Z.abs_eq by lia.
    apply Z.ltb_lt in C2, C3. rewrite C2, C3. cbn [bind].
    unfold padded at 1. apply Z.ltb_lt in Hm. rewrite Hm.
    unfold LRCTime_init. cbn [forallb isdigit]. reflexivity.
  - destruct (Z.ltb_spec (n / 60000) int_max_str_value) as [Hc|Hc].
    + rewrite from_total_milliseconds_formatted by assumption.
      destruct (n <? MAX_SECONDS * 1000); reflexivity.
    + destruct (Z.ltb_spec n (MAX_SECONDS * 1000)) as [Hr|Hr].
      * exfalso. unfold MAX_SECONDS in Hr.
        assert (n / 60000 < 1000000000000000000).
        { apply Z.div_lt_upper_bound; lia. }
        pose proof (cap_above (n / 60000) H). lia.
      * unfold LRCTime_from_total_milliseconds.
        rewrite format_0d_cases.
        assert (Hmin : 0 <= n / 60000).
        { apply Z.div_pos; unfold MAX_SECONDS in Hr; lia. }
        rewrite Z.abs_eq by exact Hmin.
        destruct (Z.ltb_spec (n / 60000) int_max_str_value); [lia|].
        reflexivity.
Qed.

(** X4.  Below 2^50 milliseconds the round trip through
    [total_milliseconds] and [from_total_milliseconds] gives back the
    timestamp itself. *)
Theorem roundtrip_below_2_50 (m s ms : str) (t : LRCTime) :
  LRCTime_init m s ms = Ok t ->
  exact_milliseconds m s ms < 2 ^ 50 ->
  LRCTime_from_total_milliseconds (LRCTime_total_milliseconds t) = Ok t
  /\ LRCTime_eqb t t = true.
Proof.
  intros H Hb.
  destruct (LRCTime_init_time_of _ _ _ _ H) as (-> & B & _).
  rewrite total_milliseconds_time_of by lia.
  split.
  - set (n := exact_milliseconds m s ms) in *.
    change (2 ^ 50) with 1125899906842624 in Hb.
    assert (Hc : n / 60000 < int_max_str_value).
    { apply cap_above. apply Z.div_lt_upper_bound; lia. }
    rewrite from_total_milliseconds_formatted by (lia || exact Hc).
    unfold MAX_SECONDS.
    destruct (Z.ltb_spec n (86400000000000 * 1000)); [reflexivity | lia].
  - destruct (time_of_milliseconds_ltb (exact_milliseconds m s ms)
                (exact_milliseconds m s ms) ltac:(lia) ltac:(lia)) as [_ E].
    apply E. reflexivity.
Qed.

Lemma roundtrip_below_2_50_witness :
  exists t,
    LRCTime_init [48; 49] [49; 50] [51; 52] = Ok t
    /\ LRCTime_from_total_milliseconds (LRCTime_total_milliseconds t) = Ok t.
Proof.
  eexists. split; [vm_compute; reflexivity|].
  apply (roundtrip_below_2_50 [48; 49] [49; 50] [51; 52]).
  - vm_compute. reflexivity.
  - vm_compute. reflexivity.
Defined.

Lemma str_eqb_eq (a b : str) : str_eqb a b = true -> a = b.
Proof.
  unfold str_eqb. destruct (list_eq_dec Z.eq_dec a b); [auto | discriminate].
Qed.

Lemma padded_two (v : Z) : 0 <= v < 100 -> padded 2 v = two_digits v.
Proof.
  intros Hv.
  assert (H : forallb (fun n => str_eqb (padded 2 (Z.of_nat n))
                                  (two_digits (Z.of_nat n)))
                (seq 0 100) = true) by (vm_compute; reflexivity).
  rewrite forallb_forall in H.
  specialize (H (Z.to_nat v)). rewrite Z2Nat.id in H by lia.
  apply str_eqb_eq, H, in_seq. lia.
Qed.

Lemma padded_three (v : Z) :
  0 <= v < 1000 -> padded 3 v = three_digits v.
Proof.
  intros Hv.
  assert (H : forallb (fun n => str_eqb (padded 3 (Z.of_nat n))
                                  (three_digits (Z.of_nat n)))
                (seq 0 1000) = true) by (vm_compute; reflexivity).
  rewrite forallb_forall in H.
  specialize (H (Z.to_nat v)). rewrite Z2Nat.id in H by lia.
  apply str_eqb_eq, H, in_seq. lia.
Qed.

Lemma ascii_digit_val (c : codepoint) :
  (chr_0 <=? c) && (c <=? 57) = true -> digit_val c = c - 48 /\ 48 <= c <= 57.
Proof.
  intros H. apply andb_true_iff in H. destruct H as [H1 H2].
  apply Z.leb_le in H1, H2. unfold chr_0 in H1.
  destruct (isdecimal_ascii c ltac:(lia)) as [_ V]. lia.
Qed.

Lemma two_digits_value (a b : codepoint) :
  ascii_digits [a; b] = true ->
  two_digits (str_value [a; b]) = [a; b] /\ 0 <= str_value [a; b] < 100.
Proof.
  unfold ascii_digits. cbn [forallb]. rewrite andb_true_r.
  intros H. apply andb_true_iff in H. destruct H as [Ha Hb].
  destruct (ascii_digit_val a Ha) as [Va Ra].
  destruct (ascii_digit_val b Hb) as [Vb Rb].
  unfold str_value. cbn [fold_left]. rewrite Va, Vb.
  set (v := 10 * (10 * 0 + (a - 48)) + (b - 48)).
  assert (Q : v / 10 = a - 48)
    by (symmetry; apply Z.div_unique with (r := b - 48); unfold v; lia).
  assert (R : v mod 10 = b - 48)
    by (symmetry; apply Z.mod_unique with (q := a - 48); unfold v; lia).
  unfold two_digits, chr_0. rewrite Q, R.
  split; [f_equal; [lia | f_equal; lia] | unfold v; lia].
Qed.

Lemma three_digits_value (a b c : codepoint) :
  ascii_digits [a; b; c] = true ->
  three_digits (str_value [a; b; c]) = [a; b; c]
  /\ 0 <= str_value [a; b; c] < 1000.
Proof.
  unfold ascii_digits. cbn [forallb]. rewrite andb_true_r.
  intros H. apply andb_true_iff in H. destruct H as [Ha H].
  apply andb_true_iff in H. destruct H as [Hb Hc].
  destruct (ascii_digit_val a Ha) as [Va Ra].
  destruct (ascii_digit_val b Hb) as [Vb Rb].
  destruct (ascii_digit_val c Hc) as [Vc Rc].
  unfold str_value. cbn [fold_left]. rewrite Va, Vb, Vc.
  set (v := 10 * (10 * (10 * 0 + (a - 48)) + (b - 48)) + (c - 48)).
  assert (Q1 : v / 100 = a - 48).
  { symmetry. apply Z.div_unique with (r := 10 * (b - 48) + (c - 48));
      unfold v; lia. }
  assert (Q2 : v / 10 = 10 * (a - 48) + (b - 48)).
  { symmetry. apply Z.div_unique with (r := c - 48); unfold v; lia. }
  assert (R2 : v / 10 mod 10 = b - 48).
  { rewrite Q2. symmetry. apply Z.mod_unique with (q := a - 48); lia. }
  assert (R : v mod 10 = c - 48).
  { symmetry. apply Z.mod_unique with (q := 10 * (a - 48) + (b - 48));
      unfold v; lia. }
  unfold three_digits, chr_0. rewrite Q1, R2, R.
  split; [f_equal; [lia | f_equal; [lia | f_equal; lia]] | unfold v; lia].
Qed.

Lemma stamp_time_of (mm ss f : str) :
  stamp mm ss f ->
  str_value ss <= 59 ->
  LRCTime_init mm ss f = Ok (stamp_time mm ss f)
  /\ stamp_time mm ss f = time_of_milliseconds (exact_milliseconds mm ss f)
  /\ 0 <= exact_milliseconds mm ss f < 6000000.
Proof.
  intros Hs Hsec.
  destruct (LRCTime_init_stamp mm ss f Hs) as [E _].
  apply Z.leb_le in Hsec. rewrite Hsec in E. apply Z.leb_le in Hsec.
  destruct (LRCTime_init_time_of _ _ _ _ E) as (T & B & _).
  destruct (stamp_numeric _ _ _ Hs) as (_ & _ & _ & Vm & Vs & Vf & _).
  split; [exact E|]. split; [exact T|].
  unfold exact_milliseconds. lia.
Qed.

Lemma stamp_time_str (mm ss f : str) :
  stamp mm ss f ->
  ascii_digits (mm ++ ss ++ f) = true ->
  str_value ss <= 59 ->
  LRCTime_str (stamp_time mm ss f) = stamp_text mm ss f.
Proof.
  intros Hs Ha Hsec.
  destruct (stamp_time_of mm ss f Hs Hsec) as (E & T & B).
  destruct (LRCTime_init_time_of _ _ _ _ E) as (_ & _ & E1 & E2 & E3).
  destruct (stamp_numeric _ _ _ Hs) as (_ & _ & _ & Vm & Vs & Vf & _).
  unfold LRCTime_str, LRCTime_minutes, LRCTime_seconds, LRCTime_milliseconds.
  rewrite T, total_milliseconds_time_of by lia.
  rewrite E1, E2, E3.
  rewrite padded_two, padded_two, padded_three by lia.
  unfold ascii_digits in Ha. rewrite !forallb_app in Ha.
  apply andb_true_iff in Ha. destruct Ha as [Am Ha].
  apply andb_true_iff in Ha. destruct Ha as [As Af].
  destruct Hs as (Lm & Ls & Lf & _).
  destruct mm as [|a [|b [|? ?]]]; try discriminate Lm.
  destruct ss as [|c [|d [|? ?]]]; try discriminate Ls.
  destruct (two_digits_value a b Am) as [-> _].
  destruct (two_digits_value c d As) as [-> _].
  assert (Af' : ascii_digits (ljust f 3 chr_0) = true).
  { unfold ljust, ascii_digits. rewrite forallb_app. apply andb_true_iff.
    split; [exact Af|].
    induction (3 - length f)%nat; [reflexivity | exact IHn]. }
  assert (L3 : exists x y z, ljust f 3 chr_0 = [x; y; z]).
  { destruct f as [|x [|y [|z [|? ?]]]]; simpl in Lf; try lia;
      unfold ljust; cbn [length Nat.sub repeat app]; eauto. }
  destruct L3 as (x & y & z & L3). rewrite L3 in Af' |- *.
  destruct (three_digits_value x y z Af') as [-> _].
  unfold stamp_text. rewrite L3. reflexivity.
Qed.

(** X5.  A timestamp built from a bracket "[mm:ss.f]" of ASCII digits with
    seconds up to 59 prints as "mm:ss.fff", the fraction padded with zeros
    to three digits. *)
Theorem LRCTime_str_of_stamp (mm ss f : str) :
  stamp mm ss f ->
  ascii_digits (mm ++ ss ++ f) = true ->
  str_value ss <= 59 ->
  LRCTime_str (stamp_time mm ss f) = stamp_text mm ss f.
Proof. exact (stamp_time_str mm ss f). Qed.

Lemma LRCTime_str_of_stamp_witness :
  LRCTime_str (stamp_time [48; 48] [49; 50] [51; 52])
  = [48; 48; 58; 49; 50; 46; 51; 52; 48].
Proof.
  apply (LRCTime_str_of_stamp [48; 48] [49; 50] [51; 52]).
  - unfold stamp. simpl. repeat split; try reflexivity; lia.
  - reflexivity.
  - vm_compute. discriminate.
Defined.

(** ** The parsers as maps over the lines *)

Lemma parse_lines_mapM (ls : list str) :
  forall d,
    parse_lines d ls
    = ps <- mapM (fun line => parse_line (strip line)) ls ;;
      Ok (mk_StandardLyricDocument (lines d ++ lines_of ps)
            (meta d ++ metas_of ps)).
Proof.
  induction ls as [|line ls IH]; intros d.
  - simpl. rewrite !app_nil_r. destruct d; reflexivity.
  - cbn [parse_lines mapM].
    destruct (parse_line (strip line)) as [p|e]; [|reflexivity].
    cbn [bind]. rewrite IH.
    destruct (mapM (fun line0 => parse_line (strip line0)) ls) as [ps|e];
      [|reflexivity].
    cbn [bind]. unfold lines_of, metas_of. cbn [flat_map].
    destruct p; cbn [collect lines meta app];
      rewrite <- ?app_assoc; reflexivity.
Qed.

Lemma enhanced_parse_lines_mapM (ls : list str) :
  forall d,
    enhanced_parse_lines d ls
    = ps <- mapM (fun line => enhanced_parse_line (strip line)) ls ;;
      Ok (mk_EnhancedLyricDocument
            (enhanced_lines d ++ enhanced_lines_of ps)
            (enhanced_meta d ++ enhanced_metas_of ps)).
Proof.
  induction ls as [|line ls IH]; intros d.
  - simpl. rewrite !app_nil_r. destruct d; reflexivity.
  - cbn [enhanced_parse_lines mapM].
    destruct (enhanced_parse_line (strip line)) as [p|e]; [|reflexivity].
    cbn [bind]. rewrite IH.
    destruct (mapM (fun line0 => enhanced_parse_line (strip line0)) ls)
      as [ps|e]; [|reflexivity].
    cbn [bind]. unfold enhanced_lines_of, enhanced_metas_of. cbn [flat_map].
    destruct p; cbn [enhanced_collect enhanced_lines enhanced_meta app];
      rewrite <- ?app_assoc; reflexivity.
Qed.

(** X6.  Both parsers treat the lines of the text one by one and in order:
    the document holds the metadata of the tag lines and, apart, the timed
    lines, each list in the order of the text, and the first line that
    raises decides the error.  So [to_lrc] writes every tag line before
    every timed line, wherever the tag lines stood in the text. *)
Theorem parse_collects_in_order (text : str) :
  StandardLRCParser_parse text
  = (ps <- mapM (fun line => parse_line (strip line)) (splitlines text) ;;
     Ok (mk_StandardLyricDocument (lines_of ps) (metas_of ps)))
  /\ EnhancedLyricParser_parse text
     = (ps <- mapM (fun line => enhanced_parse_line (strip line))
                (splitlines text) ;;
        Ok (mk_EnhancedLyricDocument (enhanced_lines_of ps)
              (enhanced_metas_of ps)))
  /\ (forall d,
         StandardLRCParser_parse text = Ok d ->
         exists ps,
           mapM (fun line => parse_line (strip line)) (splitlines text) = Ok ps
           /\ to_lrc LyricLine_str d
              = join [chr_newline]
                  (map LyricMeta_str (metas_of ps)
                   ++ map LyricLine_str (lines_of ps))).
Proof.
  assert (E1 : StandardLRCParser_parse text
               = (ps <- mapM (fun line => parse_line (strip line))
                          (splitlines text) ;;
                  Ok (mk_StandardLyricDocument (lines_of ps) (metas_of ps)))).
  { unfold StandardLRCParser_parse. rewrite parse_lines_mapM. reflexivity. }
  split; [exact E1|]. split.
  - unfold EnhancedLyricParser_parse. rewrite enhanced_parse_lines_mapM.
    reflexivity.
  - intros d Hd. rewrite E1 in Hd.
    destruct (mapM (fun line => parse_line (strip line)) (splitlines text))
      as [ps|e]; [|discriminate].
    cbn [bind] in Hd. injection Hd as <-.
    exists ps. split; reflexivity.
Qed.

(** A tag line after a timed line: the document renders the tag first. *)
Lemma parse_collects_in_order_witness :
  exists d,
    StandardLRCParser_parse
      (s_hello_line ++ [10; 91; 97; 114; 58; 65; 93]) = Ok d
    /\ to_lrc LyricLine_str d
       = [91; 97; 114; 58; 65; 93; 10] ++ s_hello_line.
Proof.
  destruct (parse_collects_in_order
              (s_hello_line ++ [10; 91; 97; 114; 58; 65; 93])) as (_ & _ & H).
  eexists. split; [vm_compute; reflexivity|].
  destruct (H _ ltac:(vm_compute; reflexivity)) as (ps & Hps & ->).
  vm_compute in Hps. injection Hps as <-. vm_compute. reflexivity.
Defined.

(** ** Tag lines *)

Lemma tag_pattern_det (s : str) :
  match_items tag_pattern s = det_items tag_pattern s.
Proof. apply match_items_det. reflexivity. Qed.

Lemma tag_text_app (tg vl rest : str) :
  tag_text tg vl ++ rest
  = chr_lbracket :: tg ++ chr_colon :: vl ++ chr_rbracket :: rest.
Proof.
  unfold tag_text. simpl. rewrite <- !app_assoc. simpl.
  rewrite <- !app_assoc. reflexivity.
Qed.

Lemma tag_pattern_complete (tg vl rest : str) :
  (2 <= length tg <= 3)%nat ->
  forallb (cmatch letters) tg = true ->
  vl <> [] ->
  forallb (cmatch not_rbracket) vl = true ->
  match_ tag_pattern (tag_text tg vl ++ rest) = Some [tg; vl].
Proof.
  intros Lt At Hv Av. unfold match_. rewrite tag_pattern_det, tag_text_app.
  unfold tag_pattern. rewrite det_one_char.
  rewrite det_rep_app;
    [|exact At | lia | simpl; lia
     |right; left; exists chr_colon, (vl ++ chr_rbracket :: rest);
      split; reflexivity].
  rewrite det_one_char.
  rewrite det_rep_app;
    [|exact Av | destruct vl; [congruence | simpl; lia] | exact I
     |right; left; exists chr_rbracket, rest; split; reflexivity].
  rewrite det_one_char. reflexivity.
Qed.

Lemma tag_pattern_sound (s : str) (gs : list str) :
  match_ tag_pattern s = Some gs ->
  exists tg vl rest,
    gs = [tg; vl]
    /\ s = tag_text tg vl ++ rest
    /\ (2 <= length tg <= 3)%nat
    /\ forallb (cmatch letters) tg = true
    /\ vl <> []
    /\ forallb (cmatch not_rbracket) vl = true.
Proof.
  unfold match_. rewrite tag_pattern_det.
  destruct (det_items tag_pattern s) as [[g r]|] eqn:H; [|discriminate].
  intros E. injection E as <-. unfold tag_pattern in H.
  apply det_one_inv in H. destruct H as (c0 & s0 & -> & C0 & H).
  apply det_rep_inv in H.
  destruct H as (tg & s1 & g1 & -> & At & Lt & Ct & _ & H & ->).
  apply det_one_inv in H. destruct H as (c1 & s2 & -> & C1 & H).
  apply det_rep_inv in H.
  destruct H as (vl & s3 & g2 & -> & Av & Lv & _ & _ & H & ->).
  apply det_one_inv in H. destruct H as (c2 & rest & -> & C2 & H).
  cbn [det_items] in H. injection H as <- <-.
  cbn [cmatch] in C0, C1, C2. apply Z.eqb_eq in C0, C1, C2. subst c0 c1 c2.
  exists tg, vl, rest.
  split; [reflexivity|]. split; [rewrite tag_text_app; reflexivity|].
  split; [simpl in Ct; lia|]. split; [exact At|].
  split; [destruct vl; [simpl in Lv; lia | discriminate] | exact Av].
Qed.

(** X7.  A line that starts with "[tag:value]", the tag two or three ASCII
    letters and the value a non-empty run without a closing bracket, is a
    metadata line for both parsers: they store the tag and the value,
    ignore whatever follows the closing bracket on the line, and do not
    raise; the stored pair prints as "[tag:value]" again. *)
Theorem tag_line_is_metadata (tg vl rest : str) :
  (2 <= length tg <= 3)%nat ->
  forallb (cmatch letters) tg = true ->
  vl <> [] ->
  ~ In chr_rbracket vl ->
  parse_line (tag_text tg vl ++ rest) = Ok (Meta (mk_LyricMeta tg vl))
  /\ enhanced_parse_line (tag_text tg vl ++ rest)
     = Ok (EMeta (mk_LyricMeta tg vl))
  /\ LyricMeta_str (mk_LyricMeta tg vl) = tag_text tg vl.
Proof.
  intros Lt At Hv Hr.
  assert (Av : forallb (cmatch not_rbracket) vl = true).
  { apply forallb_forall. intros c Hc. unfold not_rbracket.
    cbn [cmatch Unicode.in_ranges existsb fst snd]. rewrite orb_false_r.
    destruct (Z.leb_spec chr_rbracket c), (Z.leb_spec c chr_rbracket);
      try reflexivity.
    exfalso. apply Hr. replace chr_rbracket with c by lia. exact Hc. }
  pose proof (tag_pattern_complete tg vl rest Lt At Hv Av) as M.
  assert (Hi : LyricMeta_init tg vl = Ok (mk_LyricMeta tg vl)).
  { unfold LyricMeta_init. destruct tg; [simpl in Lt; lia|].
    destruct vl; [congruence | reflexivity]. }
  split; [|split].
  - unfold parse_line. rewrite M, Hi. reflexivity.
  - unfold enhanced_parse_line. rewrite M, Hi. reflexivity.
  - unfold LyricMeta_str, tag_text. cbn [tag value]. reflexivity.
Qed.

Lemma tag_line_is_metadata_witness :
  parse_line (tag_text [97; 114] [65; 32; 66] ++ [32; 120])
  = Ok (Meta (mk_LyricMeta [97; 114] [65; 32; 66])).
Proof.
  apply (tag_line_is_metadata [97; 114] [65; 32; 66] [32; 120]).
  - simpl. lia.
  - reflexivity.
  - discriminate.
  - intros [H|[H|[H|[]]]]; discriminate H.
Defined.

(** ** What makes the parsers raise *)

Lemma mapM_raise_inv (A B : Type) (f : A -> result B) (l : list A) (e : exn) :
  mapM f l = Raise e -> exists a, In a l /\ f a = Raise e.
Proof.
  induction l as [|a l IH]; [discriminate|].
  cbn [mapM]. destruct (f a) as [b|e'] eqn:E.
  - cbn [bind]. destruct (mapM f l) as [bs|e'']; [discriminate|].
    cbn [bind]. intros H. injection H as ->.
    destruct (IH eq_refl) as (x & Hx & Fx).
    exists x. split; [right; exact Hx | exact Fx].
  - cbn [bind]. intros H. injection H as ->.
    exists a. split; [left; reflexivity | exact E].
Qed.

Lemma mapM_raise_intro (A B : Type) (f : A -> result B) (l : list A)
  (a : A) (e : exn) :
  In a l -> f a = Raise e ->
  (forall b e', In b l -> f b = Raise e' -> e' = e) ->
  mapM f l = Raise e.
Proof.
  intros Ha Fa Hu.
  destruct (mapM f l) as [bs|e'] eqn:E.
  - exfalso. revert bs E. induction l as [|x l IH]; [destruct Ha|].
    intros bs. cbn [mapM]. destruct (f x) as [b|] eqn:Fx; [|discriminate].
    cbn [bind]. destruct (mapM f l) as [bs'|] eqn:M; [|discriminate].
    destruct Ha as [->|Ha]; [congruence|].
    intros _. eapply IH; [exact Ha | | reflexivity].
    intros y e' Hy. apply Hu. right. exact Hy.
  - destruct (mapM_raise_inv _ _ _ _ _ E) as (x & Hx & Fx).
    rewrite (Hu x e' Hx Fx). reflexivity.
Qed.

Lemma stamp_pattern_nil (payload : cclass) :
  det_items (stamp_pattern payload) [] = None.
Proof. reflexivity. Qed.

(** A string holds no timestamp, or it has a leftmost one. *)
Lemma stamp_split (s : str) :
  stamp_free s
  \/ exists pre mm ss f rest,
       s = pre ++ bracket mm ss f ++ rest
       /\ stamp mm ss f
       /\ no_stamp_before (length pre) s.
Proof.
  induction s as [|c s IH].
  - left. intros i _ (mm & ss & f & rest & _ & E).
    rewrite skipn_nil in E. discriminate E.
  - destruct (det_items (stamp_pattern Dot) (c :: s)) as [[g r]|] eqn:E.
    + right.
      destruct (stamp_pattern_sound _ _ _ _ E) as (mm & ss & f & rest & Hs & Es & _).
      exists [], mm, ss, f, rest.
      split; [exact Es|]. split; [exact Hs|].
      intros i Hi. simpl in Hi. lia.
    + assert (N : ~ starts_with_stamp (c :: s)).
      { intros (mm & ss & f & rest & Hs & Es).
        rewrite Es, (stamp_pattern_complete Dot mm ss f rest Hs) in E.
        discriminate E. }
      destruct IH as [F|(pre & mm & ss & f & rest & Es & Hs & Hp)].
      * left. intros i Hi. destruct i as [|i]; [exact N|].
        cbn [skipn]. apply F. simpl in Hi. lia.
      * right. exists (c :: pre), mm, ss, f, rest.
        split; [rewrite Es; reflexivity|]. split; [exact Hs|].
        intros i Hi. destruct i as [|i]; [exact N|].
        cbn [skipn]. apply Hp. simpl in Hi. lia.
Qed.

(** A line that holds a timestamp and is no tag line: the leftmost
    timestamp decides. *)
Lemma parse_line_first_stamp (line pre mm ss f rest : str) :
  match_ tag_pattern line = None ->
  line = pre ++ bracket mm ss f ++ rest ->
  stamp mm ss f ->
  no_stamp_before (length pre) line ->
  parse_line line
  = if str_value ss <=? 59
    then Ok (Line (mk_LyricLine (stamp_time mm ss f)
                     (firstn (Regex.run Dot None rest) rest)))
    else Raise ValueError.
Proof.
  intros Htag E Hs Hpre. unfold parse_line.
  rewrite Htag, time_text_pattern_stamp.
  rewrite E in Hpre |- *.
  rewrite findall_first_stamp by assumption.
  cbn [getitem nth_error bind].
  destruct (LRCTime_init_stamp mm ss f Hs) as [E1 E2].
  rewrite E2, E1.
  destruct (str_value ss <=? 59); reflexivity.
Qed.

Lemma parse_line_raise (line : str) (e : exn) :
  parse_line line = Raise e <->
  e = ValueError
  /\ match_ tag_pattern line = None
  /\ exists pre mm ss f rest,
       line = pre ++ bracket mm ss f ++ rest
       /\ stamp mm ss f
       /\ no_stamp_before (length pre) line
       /\ 59 < str_value ss.
Proof.
  split.
  - intros H. destruct (match_ tag_pattern line) as [gs|] eqn:T.
    + exfalso.
      destruct (tag_pattern_sound _ _ T)
        as (tg & vl & rest & -> & _ & Lt & _ & Hv & _).
      unfold parse_line in H. rewrite T in H. unfold LyricMeta_init in H.
      destruct tg; [simpl in Lt; lia|]. destruct vl; [congruence|].
      discriminate H.
    + destruct (stamp_split line) as [F|(pre & mm & ss & f & rest & E & Hs & Hp)].
      * exfalso. unfold parse_line in H.
        rewrite T, time_text_pattern_stamp, findall_stamp_free in H by exact F.
        discriminate H.
      * rewrite (parse_line_first_stamp _ _ _ _ _ _ T E Hs Hp) in H.
        destruct (Z.leb_spec (str_value ss) 59) as [L|L]; [discriminate H|].
        injection H as <-.
        split; [reflexivity|]. split; [reflexivity|].
        exists pre, mm, ss, f, rest. auto.
  - intros (-> & T & pre & mm & ss & f & rest & E & Hs & Hp & L).
    rewrite (parse_line_first_stamp _ _ _ _ _ _ T E Hs Hp).
    destruct (Z.leb_spec (str_value ss) 59); [lia | reflexivity].
Qed.

(** X8.  The standard parser rejects a text in exactly one situation: some
    line of it, stripped, is no tag line and the leftmost timestamp in it
    has seconds above 59.  The error is then a ValueError; later timestamps
    of a line never matter. *)
Theorem parse_raises_iff_first_seconds (text : str) (e : exn) :
  StandardLRCParser_parse text = Raise e <->
  e = ValueError
  /\ exists raw pre mm ss f rest,
       In raw (splitlines text)
       /\ match_ tag_pattern (strip raw) = None
       /\ strip raw = pre ++ bracket mm ss f ++ rest
       /\ stamp mm ss f
       /\ no_stamp_before (length pre) (strip raw)
       /\ 59 < str_value ss.
Proof.
  unfold StandardLRCParser_parse. rewrite parse_lines_mapM.
  split.
  - destruct (mapM _ (splitlines text)) as [ps|e'] eqn:M; [discriminate|].
    cbn [bind]. intros H. injection H as ->.
    destruct (mapM_raise_inv _ _ _ _ _ M) as (raw & Hraw & R).
    apply parse_line_raise in R.
    destruct R as (-> & T & pre & mm & ss & f & rest & E & Hs & Hp & L).
    split; [reflexivity|].
    exists raw, pre, mm, ss, f, rest. auto 10.
  - intros (-> & raw & pre & mm & ss & f & rest & Hraw & T & E & Hs & Hp & L).
    rewrite (mapM_raise_intro _ _ (fun line => parse_line (strip line))
               (splitlines text) raw ValueError Hraw).
    + reflexivity.
    + apply parse_line_raise. split; [reflexivity|]. split; [exact T|].
      exists pre, mm, ss, f, rest. auto.
    + intros b e' _ R. apply parse_line_raise in R. apply R.
Qed.

Lemma parse_raises_iff_first_seconds_witness :
  exists raw pre mm ss f rest,
    In raw (splitlines s_sixty_seconds)
    /\ match_ tag_pattern (strip raw) = None
    /\ strip raw = pre ++ bracket mm ss f ++ rest
    /\ stamp mm ss f
    /\ no_stamp_before (length pre) (strip raw)
    /\ 59 < str_value ss.
Proof.
  apply (proj1 (parse_raises_iff_first_seconds s_sixty_seconds ValueError)).
  vm_compute. reflexivity.
Defined.

(** Every match of a timestamp pattern is a timestamp that occurs in the
    string. *)
Lemma findall_from_groups (payload : cclass) (s : str) :
  forall k g,
    In g (findall_from (stamp_pattern payload) s k) ->
    exists pre mm ss f c rest,
      g = [mm; ss; f; c]
      /\ stamp mm ss f
      /\ s = pre ++ bracket mm ss f ++ rest.
Proof.
  assert (Hd : forall t g r,
             match_items (stamp_pattern payload) t = Some (g, r) ->
             exists pre mm ss f c rest,
               g = [mm; ss; f; c] /\ stamp mm ss f
               /\ t = pre ++ bracket mm ss f ++ rest).
  { intros t g r E. rewrite match_stamp_pattern in E.
    destruct (stamp_pattern_sound _ _ _ _ E) as (mm & ss & f & rest & Hs & Es & Eg & _).
    exists [], mm, ss, f, (firstn (Regex.run payload None rest) rest), rest.
    auto. }
  assert (Hc : forall c t g,
             (exists pre mm ss f x rest,
                 g = [mm; ss; f; x] /\ stamp mm ss f
                 /\ t = pre ++ bracket mm ss f ++ rest) ->
             exists pre mm ss f x rest,
               g = [mm; ss; f; x] /\ stamp mm ss f
               /\ c :: t = pre ++ bracket mm ss f ++ rest).
  { intros c t g (pre & mm & ss & f & x & rest & Eg & Hs & Et).
    exists (c :: pre), mm, ss, f, x, rest.
    split; [exact Eg|]. split; [exact Hs|]. rewrite Et. reflexivity. }
  induction s as [|c s IH]; intros k g H.
  - destruct k as [|k]; [|destruct H].
    cbn [findall_from] in H.
    destruct (match_items (stamp_pattern payload) []) as [[g0 r]|] eqn:E;
      [|destruct H].
    destruct H as [<-|[]]. exact (Hd _ _ _ E).
  - destruct k as [|k].
    + cbn [findall_from] in H.
      destruct (match_items (stamp_pattern payload) (c :: s)) as [[g0 r]|] eqn:E.
      * destruct H as [<-|H]; [exact (Hd _ _ _ E)|].
        apply Hc. exact (IH _ _ H).
      * apply Hc. exact (IH _ _ H).
    + cbn [findall_from] in H. apply Hc. exact (IH _ _ H).
Qed.

Lemma from_string_raise (s : str) (e : exn) :
  EnhancedLyricLine_from_string s = Raise e ->
  e = ValueError
  /\ exists pre mm ss f rest,
       s = pre ++ bracket mm ss f ++ rest
       /\ stamp mm ss f
       /\ 59 < str_value ss.
Proof.
  unfold EnhancedLyricLine_from_string. rewrite enhanced_pattern_stamp.
  destruct (mapM _ (findall (stamp_pattern not_bracket) s)) as [cs|e'] eqn:M;
    [discriminate|].
  cbn [bind]. intros H. injection H as ->.
  destruct (mapM_raise_inv _ _ _ _ _ M) as (g & Hg & R).
  destruct (findall_from_groups _ _ _ _ Hg)
    as (pre & mm & ss & f & c & rest & -> & Hs & Es).
  unfold TimedCharacter_standard_parse in R.
  destruct (LRCTime_init_stamp mm ss f Hs) as [E1 _]. rewrite E1 in R.
  destruct (Z.leb_spec (str_value ss) 59) as [L|L]; [discriminate R|].
  cbn [bind] in R. injection R as <-.
  split; [reflexivity|]. exists pre, mm, ss, f, rest. auto.
Qed.

Lemma enhanced_parse_line_raise (line : str) (e : exn) :
  enhanced_parse_line line = Raise e ->
  e = ValueError
  /\ match_ tag_pattern line = None
  /\ exists pre mm ss f rest,
       line = pre ++ bracket mm ss f ++ rest
       /\ stamp mm ss f
       /\ 59 < str_value ss.
Proof.
  intros H. destruct (match_ tag_pattern line) as [gs|] eqn:T.
  - exfalso.
    destruct (tag_pattern_sound _ _ T)
      as (tg & vl & rest & -> & _ & Lt & _ & Hv & _).
    unfold enhanced_parse_line in H. rewrite T in H. unfold LyricMeta_init in H.
    destruct tg; [simpl in Lt; lia|]. destruct vl; [congruence|].
    discriminate H.
  - unfold enhanced_parse_line in H. rewrite T in H.
    destruct (findall enhanced_pattern line) as [|g0 gs]; [discriminate H|].
    destruct (EnhancedLyricLine_from_string line) as [el|e'] eqn:F;
      [discriminate H|].
    cbn [bind] in H. injection H as ->.
    destruct (from_string_raise _ _ F) as (-> & D).
    split; [reflexivity|]. split; [reflexivity | exact D].
Qed.

(** X9.  The enhanced parser raises nothing but a ValueError, and only for a
    text with a line, no tag line, in which some timestamp has seconds
    above 59. *)
Theorem enhanced_parse_raises_only_on_seconds (text : str) (e : exn) :
  EnhancedLyricParser_parse text = Raise e ->
  e = ValueError
  /\ exists raw pre mm ss f rest,
       In raw (splitlines text)
       /\ match_ tag_pattern (strip raw) = None
       /\ strip raw = pre ++ bracket mm ss f ++ rest
       /\ stamp mm ss f
       /\ 59 < str_value ss.
Proof.
  unfold EnhancedLyricParser_parse. rewrite enhanced_parse_lines_mapM.
  destruct (mapM _ (splitlines text)) as [ps|e'] eqn:M; [discriminate|].
  cbn [bind]. intros H. injection H as ->.
  destruct (mapM_raise_inv _ _ _ _ _ M) as (raw & Hraw & R).
  apply enhanced_parse_line_raise in R.
  destruct R as (-> & T & pre & mm & ss & f & rest & E & Hs & L).
  split; [reflexivity|].
  exists raw, pre, mm, ss, f, rest. auto 10.
Qed.

Lemma enhanced_parse_raises_only_on_seconds_witness :
  ValueError = ValueError
  /\ exists raw pre mm ss f rest,
       In raw (splitlines s_sixty_seconds)
       /\ match_ tag_pattern (strip raw) = None
       /\ strip raw = pre ++ bracket mm ss f ++ rest
       /\ stamp mm ss f
       /\ 59 < str_value ss.
Proof.
  apply (enhanced_parse_raises_only_on_seconds s_sixty_seconds ValueError).
  vm_compute. reflexivity.
Defined.

(** X10.  A text the standard parser rejects is rejected by the enhanced
    parser too, with the same error: the enhanced parser validates every
    timestamp of a line, the standard one the leftmost only. *)
Theorem standard_rejects_enhanced_rejects (text : str) (e : exn) :
  StandardLRCParser_parse text = Raise e ->
  EnhancedLyricParser_parse text = Raise e.
Proof.
  unfold StandardLRCParser_parse, EnhancedLyricParser_parse.
  rewrite parse_lines_mapM, enhanced_parse_lines_mapM.
  destruct (mapM (fun line => parse_line (strip line)) (splitlines text))
    as [ps|e'] eqn:M; [discriminate|].
  cbn [bind]. intros H. injection H as ->.
  destruct (mapM_raise_inv _ _ _ _ _ M) as (raw & Hraw & R).
  apply parse_line_raise in R.
  destruct R as (-> & T & pre & mm & ss & f & rest & E & Hs & Hp & L).
  rewrite (mapM_raise_intro _ _ (fun line => enhanced_parse_line (strip line))
             (splitlines text) raw ValueError Hraw).
  - reflexivity.
  - unfold enhanced_parse_line. rewrite T.
    unfold EnhancedLyricLine_from_string.
    rewrite enhanced_pattern_stamp. rewrite E in Hp |- *.
    rewrite findall_first_stamp by assumption.
    cbn [mapM]. unfold TimedCharacter_standard_parse at 1.
    destruct (LRCTime_init_stamp mm ss f Hs) as [E1 _]. rewrite E1.
    destruct (Z.leb_spec (str_value ss) 59); [lia | reflexivity].
  - intros b e' _ R. apply enhanced_parse_line_raise in R. apply R.
Qed.

Lemma standard_rejects_enhanced_rejects_witness :
  EnhancedLyricParser_parse s_sixty_seconds = Raise ValueError.
Proof.
  apply (standard_rejects_enhanced_rejects s_sixty_seconds ValueError).
  vm_compute. reflexivity.
Defined.

(** ** The merged document *)

Lemma ordered_map (A B : Type) (lt : A -> A -> bool) (lt' : B -> B -> bool)
  (g : A -> B) (l : list A) :
  (forall a b, lt' (g b) (g a) = lt b a) ->
  ordered lt l -> ordered lt' (map g l).
Proof.
  intros H. unfold ordered. induction 1 as [|x l Hl IH Hx]; simpl.
  - constructor.
  - constructor; [exact IH|].
    rewrite Forall_forall in Hx |- *. intros y Hy.
    apply in_map_iff in Hy. destruct Hy as (z & <- & Hz).
    rewrite H. apply Hx, Hz.
Qed.

Lemma combined_time_origin (interval : Z) (docs : list (list LyricLine))
  (o : LyricLine) : combined_time (combined interval docs o) = line_time o.
Proof.
  unfold combined. destruct (available_trans interval o docs); reflexivity.
Qed.

Lemma merge_lines (interval : Z) (po : StandardLyricDocument LyricLine)
  (pts : list (StandardLyricDocument LyricLine)) :
  merge interval po pts
  = Ok (mk_StandardLyricDocument
          (map (combined interval (sorted_trans pts))
             (sort LyricLine_ltb (lines po)))
          (meta po)).
Proof.
  rewrite merge_ok. unfold sorted_trans.
  rewrite sort_ordered_id; [reflexivity|].
  apply (ordered_map _ _ LyricLine_ltb).
  - intros a b. unfold CombinedLyricLine_ltb, LyricLine_ltb.
    rewrite !combined_time_origin. reflexivity.
  - apply sort_ordered.
    + exact LyricLine_ltb_asym.
    + exact LyricLine_ltb_negtrans.
Qed.

(** X11.  The merge always returns a document.  Its lines are the combined
    lines of the origin lines, in the order of the sorted origin document:
    they are in timestamp order, lines of equal time in the order the
    origin text had them, and the final sort of the merge moves nothing. *)
Theorem merge_keeps_sorted_origin_order (interval : Z)
  (po : StandardLyricDocument LyricLine)
  (pts : list (StandardLyricDocument LyricLine)) :
  exists d,
    merge interval po pts = Ok d
    /\ lines d = map (combined interval (sorted_trans pts))
                   (sort LyricLine_ltb (lines po))
    /\ map origin (lines d) = sort LyricLine_ltb (lines po)
    /\ ordered CombinedLyricLine_ltb (lines d)
    /\ sort CombinedLyricLine_ltb (lines d) = lines d.
Proof.
  eexists. split; [apply merge_lines|]. cbn [lines].
  assert (O : ordered CombinedLyricLine_ltb
                (map (combined interval (sorted_trans pts))
                   (sort LyricLine_ltb (lines po)))).
  { apply (ordered_map _ _ LyricLine_ltb).
    - intros a b. unfold CombinedLyricLine_ltb, LyricLine_ltb.
      rewrite !combined_time_origin. reflexivity.
    - apply sort_ordered.
      + exact LyricLine_ltb_asym.
      + exact LyricLine_ltb_negtrans. }
  split; [reflexivity|]. split; [|split].
  - rewrite map_map. rewrite <- (map_id (sort LyricLine_ltb (lines po))) at 2.
    apply map_ext. intros o. apply combined_origin.
  - exact O.
  - apply sort_ordered_id, O.
Qed.

Lemma available_trans_length (interval : Z) (o : LyricLine)
  (docs : list (list LyricLine)) :
  (length (available_trans interval o docs) <= length docs)%nat.
Proof.
  unfold available_trans. induction docs as [|t docs IH]; simpl; [lia|].
  rewrite length_app.
  destruct (available_tran interval o t); simpl; lia.
Qed.

Lemma available_trans_In (interval : Z) (o x : LyricLine)
  (docs : list (list LyricLine)) :
  In x (available_trans interval o docs) ->
  exists t, In t docs /\ In x t /\ distance x o <= interval.
Proof.
  unfold available_trans. rewrite in_flat_map.
  intros (t & Ht & Hx). exists t. split; [exact Ht|].
  destruct (available_tran interval o t) as [|y r] eqn:E; [destruct Hx|].
  destruct Hx as [<-|[]].
  apply available_tran_In. rewrite E. left. reflexivity.
Qed.

(** X12.  Every line of a merged document keeps its origin line and the
    time of it, and carries at least one translation and at most one per
    translation document (one when there is no document); every
    translation it carries has the time of the origin line, and its text is
    empty or the text of a line of a translation document within the
    tolerance of the origin line. *)
Theorem merged_line_invariant (interval : Z)
  (po : StandardLyricDocument LyricLine)
  (pts : list (StandardLyricDocument LyricLine))
  (d : StandardLyricDocument CombinedLyricLine) (c : CombinedLyricLine) :
  merge interval po pts = Ok d ->
  In c (lines d) ->
  In (origin c) (lines po)
  /\ combined_time c = line_time (origin c)
  /\ (1 <= length (trans c) <= Nat.max 1 (length pts))%nat
  /\ forall t, In t (trans c) ->
       line_time t = line_time (origin c)
       /\ (texts t = []
           \/ exists p x, In p pts /\ In x (lines p)
                          /\ texts x = texts t
                          /\ distance x (origin c) <= interval).
Proof.
  rewrite merge_lines. intros H Hc. injection H as <-. cbn [lines] in Hc.
  apply in_map_iff in Hc. destruct Hc as (o & <- & Ho).
  apply sort_In in Ho.
  rewrite combined_origin, combined_time_origin.
  split; [exact Ho|]. split; [reflexivity|].
  pose proof (available_trans_length interval o (sorted_trans pts)) as L.
  unfold sorted_trans in L at 2. rewrite length_map in L.
  unfold combined.
  destruct (available_trans interval o (sorted_trans pts)) as [|y r] eqn:E.
  - cbn [CombinedLyricLine_init trans map length].
    split; [lia|].
    intros t [<-|[]]. split; [reflexivity|]. left. reflexivity.
  - cbn [CombinedLyricLine_init trans].
    rewrite length_map. split; [cbn [length] in L |- *; lia|].
    intros t Ht. apply in_map_iff in Ht. destruct Ht as (x & <- & Hx).
    split; [reflexivity|]. right.
    rewrite <- E in Hx. apply available_trans_In in Hx.
    destruct Hx as (t & Ht & Hxt & Hd).
    unfold sorted_trans in Ht. apply in_map_iff in Ht.
    destruct Ht as (p & <- & Hp). apply sort_In in Hxt.
    exists p, x. auto.
Qed.

Lemma merged_line_invariant_witness :
  (1 <= length (trans combined_near) <= Nat.max 1 1)%nat.
Proof.
  refine (proj1 (proj2 (proj2
            (merged_line_invariant 500 origin_two_lines [translation_near]
               (mk_StandardLyricDocument
                  (map (combined 500 (sorted_trans [translation_near]))
                     (sort LyricLine_ltb (lines origin_two_lines)))
                  [])
               combined_near _ _)))).
  - vm_compute. reflexivity.
  - left. reflexivity.
Defined.

Lemma join_singleton (sep p : str) : join sep [p] = p.
Proof. reflexivity. Qed.

Lemma combined_str_no_translation (o : LyricLine) (ts : list LyricLine) :
  Forall (fun t => texts t = []) ts ->
  CombinedLyricLine_str (CombinedLyricLine_init o ts) = LyricLine_str o.
Proof.
  intros H. unfold CombinedLyricLine_str, CombinedLyricLine_init.
  cbn [origin combined_time trans].
  destruct (str_is_empty (texts o)); [reflexivity|].
  replace (filter _ _) with (@nil LyricLine); [reflexivity|].
  symmetry. induction H as [|t ts Ht _ IH]; [reflexivity|].
  cbn [map filter texts]. rewrite Ht. exact IH.
Qed.

(** X13.  When every translation line within the tolerance of an origin
    line has an empty text, and so when there are no translation documents
    or none has a line near an origin line, the merged document prints as
    the origin document with its lines sorted: placeholders and empty
    translations leave no trace in the output. *)
Theorem merge_without_translations_prints_origin (interval : Z)
  (po : StandardLyricDocument LyricLine)
  (pts : list (StandardLyricDocument LyricLine))
  (d : StandardLyricDocument CombinedLyricLine) :
  (forall o p x, In o (lines po) -> In p pts -> In x (lines p) ->
                 distance x o <= interval -> texts x = []) ->
  merge interval po pts = Ok d ->
  to_lrc CombinedLyricLine_str d = to_lrc LyricLine_str (sorted_document po).
Proof.
  intros H. rewrite merge_lines. intros E. injection E as <-.
  unfold to_lrc, sorted_document. cbn [lines meta]. f_equal. f_equal.
  rewrite map_map. apply map_ext_in. intros o Ho. apply sort_In in Ho.
  unfold combined.
  destruct (available_trans interval o (sorted_trans pts)) as [|y r] eqn:A.
  - apply combined_str_no_translation. constructor; [reflexivity|constructor].
  - apply combined_str_no_translation. rewrite <- A.
    apply Forall_forall. intros x Hx. apply available_trans_In in Hx.
    destruct Hx as (t & Ht & Hxt & Hd).
    unfold sorted_trans in Ht. apply in_map_iff in Ht.
    destruct Ht as (p & <- & Hp). apply sort_In in Hxt.
    exact (H o p x Ho Hp Hxt Hd).
Qed.

Lemma merge_without_translations_prints_origin_witness :
  to_lrc CombinedLyricLine_str
    (mk_StandardLyricDocument
       (map (combined 0 []) (sort LyricLine_ltb (lines origin_two_lines))) [])
  = to_lrc LyricLine_str (sorted_document origin_two_lines).
Proof.
  apply (merge_without_translations_prints_origin 0 origin_two_lines []).
  - intros o p x _ [].
  - vm_compute. reflexivity.
Defined.

(** ** Enhanced lines, read and printed *)

(** The leftmost timestamp and the text behind it give the first character;
    the scan goes on behind that text. *)
Lemma from_string_first (pre mm ss f txt rest : str) :
  no_stamp_before (length pre) (pre ++ bracket mm ss f ++ txt ++ rest) ->
  stamp mm ss f ->
  forallb (fun c => negb (is_bracket c)) txt = true ->
  (rest = [] \/ exists c r, rest = c :: r /\ is_bracket c = true) ->
  EnhancedLyricLine_from_string (pre ++ bracket mm ss f ++ txt ++ rest)
  = if str_value ss <=? 59
    then l <- EnhancedLyricLine_from_string rest ;;
         Ok (EnhancedLyricLine_init
               (mk_TimedCharacter (stamp_time mm ss f) txt :: characters l))
    else Raise ValueError.
Proof.
  intros Hpre Hs Htxt Hrest.
  unfold EnhancedLyricLine_from_string.
  rewrite enhanced_pattern_stamp.
  rewrite findall_first_stamp by assumption.
  rewrite (run_not_bracket txt rest Htxt Hrest).
  rewrite firstn_length_app, skipn_length_app.
  cbn [mapM]. unfold TimedCharacter_standard_parse at 1.
  destruct (LRCTime_init_stamp mm ss f Hs) as [E1 _]. rewrite E1.
  destruct (str_value ss <=? 59); [|reflexivity].
  cbn [bind].
  destruct (mapM _ (findall (stamp_pattern not_bracket) rest));
    reflexivity.
Qed.

Lemma segments_head (segs : list segment) :
  concat (map segment_source segs) = []
  \/ exists c r, concat (map segment_source segs) = c :: r
                 /\ is_bracket c = true.
Proof.
  destruct segs as [|[[[mm ss] f] txt] segs]; [left; reflexivity|].
  right. cbn [map concat segment_source]. unfold bracket.
  eexists. eexists. split; [reflexivity|]. reflexivity.
Qed.

Lemma from_string_accepted (segs : list segment) :
  Forall accepted segs ->
  EnhancedLyricLine_from_string (concat (map segment_source segs))
  = Ok (EnhancedLyricLine_init (map segment_character segs)).
Proof.
  induction 1 as [|[[[mm ss] f] txt] segs (Hs & Hsec & Htxt) _ IH].
  - reflexivity.
  - cbn [map concat segment_source segment_character].
    rewrite <- app_assoc.
    pose proof (from_string_first [] mm ss f txt
                  (concat (map segment_source segs))) as F.
    rewrite app_nil_l in F. rewrite F.
    + apply Z.leb_le in Hsec. rewrite Hsec, IH. reflexivity.
    + intros i Hi. simpl in Hi. lia.
    + exact Hs.
    + exact Htxt.
    + apply segments_head.
Qed.

Lemma segment_print_source (g : segment) :
  full_fraction g -> segment_print g = segment_source g.
Proof.
  destruct g as [[[mm ss] f] txt]. cbn [full_fraction]. intros L.
  unfold segment_print, segment_source, stamp_text, bracket, ljust.
  rewrite L. cbn [Nat.sub repeat]. rewrite app_nil_r.
  repeat (cbn [app]; rewrite <- ?app_assoc; progress f_equal).
Qed.

(** X14.  A line made of segments "[mm:ss.f]text", each a timestamp with
    seconds up to 59 and a text without brackets, is read as one timed
    character per segment, in order, and never rejected.  When the digits
    are ASCII digits, printing the line that was read gives the segments
    back with every fraction padded to three digits, so a line whose
    fractions have three digits already is printed as it was read. *)
Theorem enhanced_line_round_trip (segs : list segment) :
  Forall accepted segs ->
  exists l,
    EnhancedLyricLine_from_string (concat (map segment_source segs)) = Ok l
    /\ characters l = map segment_character segs
    /\ text l = concat (map (fun g => snd g) segs)
    /\ (Forall ascii_segment segs ->
        EnhancedLyricLine_str l = concat (map segment_print segs)
        /\ (Forall full_fraction segs ->
            EnhancedLyricLine_str l = concat (map segment_source segs))).
Proof.
  intros Ha. eexists. split; [apply from_string_accepted, Ha|].
  cbn [EnhancedLyricLine_init characters].
  split; [reflexivity|]. split.
  - unfold text, EnhancedLyricLine_init. cbn [characters].
    rewrite map_map. f_equal.
    apply map_ext. intros [[[mm ss] f] txt]. reflexivity.
  - intros Hd.
    assert (P : EnhancedLyricLine_str
                  (EnhancedLyricLine_init (map segment_character segs))
                = concat (map segment_print segs)).
    { unfold EnhancedLyricLine_str. cbn [EnhancedLyricLine_init characters].
      rewrite map_map. f_equal. apply map_ext_in.
      intros [[[mm ss] f] txt] Hg.
      rewrite Forall_forall in Ha, Hd.
      destruct (Ha _ Hg) as (Hs & Hsec & _). pose proof (Hd _ Hg) as Hg'.
      cbn [ascii_segment] in Hg'.
      unfold TimedCharacter_str, segment_character, segment_print.
      cbn [char_time character].
      rewrite (stamp_time_str mm ss f Hs Hg' Hsec). reflexivity. }
    split; [exact P|]. intros Hf. rewrite P. f_equal.
    apply map_ext_in. intros g Hg. apply segment_print_source.
    rewrite Forall_forall in Hf. apply Hf, Hg.
Qed.

Lemma enhanced_line_round_trip_witness :
  exists l,
    EnhancedLyricLine_from_string (concat (map segment_source tsuma_segments))
    = Ok l
    /\ EnhancedLyricLine_str l = concat (map segment_source tsuma_segments).
Proof.
  destruct (enhanced_line_round_trip tsuma_segments) as (l & E & _ & _ & H).
  - repeat constructor; try reflexivity; simpl; try lia; vm_compute; discriminate.
  - exists l. split; [exact E|].
    apply H; repeat constructor.
Defined.

(** ** Words, emptiness and lookup by time *)

Lemma split_words_concat (cs : list TimedCharacter) :
  forall words cur,
    concat (split_words words cur cs)
    = concat words ++ cur ++ filter (fun c => negb (separates c)) cs.
Proof.
  induction cs as [|c cs IH]; intros words cur.
  - cbn [split_words filter]. rewrite app_nil_r.
    destruct cur as [|x cur]; [rewrite app_nil_r; reflexivity|].
    rewrite concat_app. cbn [concat]. rewrite app_nil_r. reflexivity.
  - cbn [split_words filter]. fold (separates c).
    destruct (separates c); cbn [negb].
    + destruct cur as [|x cur]; rewrite IH; [reflexivity|].
      rewrite concat_app. cbn [concat app]. rewrite app_nil_r, <- app_assoc.
      reflexivity.
    + rewrite IH, <- app_assoc. reflexivity.
Qed.

Lemma split_words_nonempty (cs : list TimedCharacter) :
  forall words cur,
    Forall (fun w => w <> []) words ->
    Forall (fun w => w <> []) (split_words words cur cs).
Proof.
  induction cs as [|c cs IH]; intros words cur Hw.
  - cbn [split_words]. destruct cur as [|x cur]; [exact Hw|].
    apply Forall_app. split; [exact Hw|]. constructor; [discriminate|constructor].
  - cbn [split_words].
    destruct (TimedCharacter_is_whitespace c || TimedCharacter_is_empty c).
    + destruct cur as [|x cur]; apply IH; [exact Hw|].
      apply Forall_app. split; [exact Hw|].
      constructor; [discriminate|constructor].
    + apply IH, Hw.
Qed.

Lemma concat_nil_forall (A : Type) (ls : list (list A)) :
  Forall (fun w => w <> []) ls -> concat ls = [] -> ls = [].
Proof.
  destruct 1 as [|w ls Hw _]; [reflexivity|].
  cbn [concat]. intros E. apply app_eq_nil in E. destruct E as [E _].
  contradiction.
Qed.

Lemma filter_separates_text (cs : list TimedCharacter) :
  concat (map character (filter (fun c => negb (separates c)) cs))
  = concat (map character
              (filter (fun c => negb (TimedCharacter_is_whitespace c)) cs)).
Proof.
  induction cs as [|c cs IH]; [reflexivity|].
  cbn [filter]. unfold separates at 1.
  destruct (TimedCharacter_is_whitespace c) eqn:W; cbn [orb negb].
  - exact IH.
  - destruct (TimedCharacter_is_empty c) eqn:E; cbn [negb map concat].
    + unfold TimedCharacter_is_empty in E.
      destruct (character c); [|discriminate E].
      rewrite IH. reflexivity.
    + rewrite IH. reflexivity.
Qed.

Lemma filter_all_separate (cs : list TimedCharacter) :
  forallb separates cs = true ->
  filter (fun c => negb (separates c)) cs = [].
Proof.
  induction cs as [|c cs IH]; [reflexivity|].
  cbn [forallb]. intros H. apply andb_true_iff in H. destruct H as [Hc H].
  cbn [filter]. rewrite Hc. cbn [negb]. apply IH, H.
Qed.

Lemma all_empty_text (cs : list TimedCharacter) :
  forallb TimedCharacter_is_empty cs = true <-> concat (map character cs) = [].
Proof.
  induction cs as [|c cs IH]; [split; reflexivity|].
  cbn [forallb map concat]. rewrite andb_true_iff, IH.
  unfold TimedCharacter_is_empty.
  destruct (character c) as [|x s]; cbn [str_is_empty app].
  - tauto.
  - split; [intros [H _]; discriminate H | discriminate].
Qed.

(** X15.  The words [split_by_whitespace] returns are never empty and hold
    no blank and no empty character; laid end to end they are the
    characters of the line that are neither, in order.  So their texts
    together are the text of the line without white space, and there is no
    word exactly when every character of the line is a blank or empty. *)
Theorem split_by_whitespace_words (l : EnhancedLyricLine) :
  concat (split_by_whitespace l)
  = filter (fun c => negb (separates c)) (characters l)
  /\ Forall (fun w => w <> [] /\ Forall (fun c => separates c = false) w)
       (split_by_whitespace l)
  /\ concat (map character (concat (split_by_whitespace l)))
     = text_without_whitespace l
  /\ (split_by_whitespace l = []
      <-> forallb separates (characters l) = true).
Proof.
  assert (C : concat (split_by_whitespace l)
              = filter (fun c => negb (separates c)) (characters l)).
  { unfold split_by_whitespace. rewrite split_words_concat. reflexivity. }
  assert (N : Forall (fun w => w <> []) (split_by_whitespace l)).
  { apply split_words_nonempty. constructor. }
  split; [exact C|]. split; [|split].
  - rewrite Forall_forall in N |- *. intros w Hw. split; [apply N, Hw|].
    apply Forall_forall. intros c Hc.
    assert (H : In c (concat (split_by_whitespace l))).
    { apply in_concat. exists w. split; assumption. }
    rewrite C in H. apply filter_In in H. destruct H as [_ H].
    apply negb_true_iff in H. exact H.
  - rewrite C. apply filter_separates_text.
  - split.
    + intros E. rewrite E in C. cbn [concat] in C. symmetry in C.
      apply forallb_forall. intros c Hc.
      destruct (separates c) eqn:S; [reflexivity|].
      assert (H : In c (filter (fun c => negb (separates c)) (characters l))).
      { apply filter_In. split; [exact Hc|]. rewrite S. reflexivity. }
      rewrite C in H. destruct H.
    + intros H. apply concat_nil_forall; [exact N|]. rewrite C.
      apply filter_all_separate, H.
Qed.

(** X16.  A line is empty exactly when its text is the empty string; a
    line of blanks is not empty, though it has no word. *)
Theorem is_empty_iff_no_text (l : EnhancedLyricLine) :
  (EnhancedLyricLine_is_empty l = true <-> text l = [])
  /\ (EnhancedLyricLine_is_empty l = true -> split_by_whitespace l = [])
  /\ (characters l <> [] ->
      Forall (fun c => TimedCharacter_is_whitespace c = true) (characters l) ->
      EnhancedLyricLine_is_empty l = false /\ split_by_whitespace l = []).
Proof.
  assert (E : EnhancedLyricLine_is_empty l
              = forallb TimedCharacter_is_empty (characters l)).
  { unfold EnhancedLyricLine_is_empty.
    destruct (characters l); reflexivity. }
  assert (S : forall cs, forallb separates cs = true ->
                         split_words [] [] cs = []).
  { intros cs H. apply concat_nil_forall.
    - apply split_words_nonempty. constructor.
    - rewrite split_words_concat. cbn [concat app].
      apply filter_all_separate, H. }
  split; [|split].
  - rewrite E. unfold text. apply all_empty_text.
  - rewrite E. intros H. unfold split_by_whitespace. apply S.
    apply forallb_forall. intros c Hc.
    rewrite forallb_forall in H. unfold separates. rewrite (H c Hc).
    apply orb_true_r.
  - intros Hne Hw. split.
    + rewrite E. destruct (characters l) as [|c cs]; [congruence|].
      inversion Hw as [|? ? Hc _]; subst.
      cbn [forallb]. unfold TimedCharacter_is_empty.
      unfold TimedCharacter_is_whitespace, isspace in Hc.
      destruct (character c); [discriminate Hc | reflexivity].
    + unfold split_by_whitespace. apply S.
      apply forallb_forall. intros c Hc.
      rewrite Forall_forall in Hw. unfold separates. rewrite (Hw c Hc).
      reflexivity.
Qed.

Lemma is_empty_iff_no_text_witness :
  EnhancedLyricLine_is_empty blank_line = false
  /\ split_by_whitespace blank_line = [].
Proof.
  apply (proj2 (proj2 (is_empty_iff_no_text blank_line))).
  - discriminate.
  - repeat constructor.
Defined.

Lemma LRCTime_leb_ltb (a b : LRCTime) :
  LRCTime_leb a b = negb (LRCTime_ltb b a).
Proof.
  unfold LRCTime_leb, LRCTime_ltb, LRCTime_eqb.
  destruct (timedelta_ltb (time b) (time a)) eqn:B; cbn [negb].
  - apply timedelta_ltb_lex in B.
    destruct (timedelta_ltb (time a) (time b)) eqn:A.
    + apply timedelta_ltb_lex in A. lia.
    + cbn [orb]. unfold timedelta_eqb.
      destruct (Z.eqb_spec (td_days (time a)) (td_days (time b)));
        [|reflexivity].
      destruct (Z.eqb_spec (td_seconds (time a)) (td_seconds (time b)));
        [|reflexivity].
      destruct (Z.eqb_spec (td_microseconds (time a))
                  (td_microseconds (time b))); [lia | reflexivity].
  - assert (N : ~ timedelta_ltb (time b) (time a) = true) by congruence.
    rewrite timedelta_ltb_lex in N.
    destruct (timedelta_ltb (time a) (time b)) eqn:A; [reflexivity|].
    assert (M : ~ timedelta_ltb (time a) (time b) = true) by congruence.
    rewrite timedelta_ltb_lex in M.
    cbn [orb]. unfold timedelta_eqb.
    rewrite !andb_true_iff, !Z.eqb_eq. lia.
Qed.

Lemma character_at_time_from_app (t : LRCTime) (cs : list TimedCharacter) :
  forall cur l1 l2,
    cs = l1 ++ l2 ->
    forallb (due t) l1 = true ->
    (l2 = [] \/ exists c r, l2 = c :: r /\ due t c = false) ->
    character_at_time_from cur cs t
    = match last_error l1 with Some c => Some c | None => cur end.
Proof.
  induction cs as [|c cs IH]; intros cur l1 l2 E H1 H2.
  - symmetry in E. apply app_eq_nil in E. destruct E as [-> _]. reflexivity.
  - destruct l1 as [|x l1].
    + cbn [app] in E. subst l2. destruct H2 as [H2|(y & r & H2 & Hy)];
        [discriminate H2|].
      injection H2 as <- <-. cbn [character_at_time_from].
      unfold due in Hy. rewrite Hy. reflexivity.
    + cbn [app] in E. injection E as <- ->.
      cbn [forallb] in H1. apply andb_true_iff in H1. destruct H1 as [Hx H1].
      cbn [character_at_time_from]. unfold due in Hx. rewrite Hx.
      rewrite (IH (Some c) l1 l2 eq_refl H1 H2).
      unfold last_error. cbn [rev].
      destruct (rev l1) as [|z zs]; reflexivity.
Qed.

Lemma due_prefix (t : LRCTime) (cs : list TimedCharacter) :
  exists l1 l2,
    cs = l1 ++ l2 /\ forallb (due t) l1 = true
    /\ (l2 = [] \/ exists c r, l2 = c :: r /\ due t c = false).
Proof.
  induction cs as [|c cs (l1 & l2 & E & H1 & H2)].
  - exists [], []. auto.
  - destruct (due t c) eqn:D.
    + exists (c :: l1), l2. rewrite E. cbn [forallb]. rewrite D, H1. auto.
    + exists [], (c :: cs). split; [reflexivity|]. split; [reflexivity|].
      right. exists c, cs. auto.
Qed.

Lemma filter_none (A : Type) (f : A -> bool) (l : list A) :
  (forall x, In x l -> f x = false) -> filter f l = [].
Proof.
  induction l as [|a l IH]; intros H; [reflexivity|].
  cbn [filter]. rewrite (H a) by (left; reflexivity).
  apply IH. intros x Hx. apply H. right. exact Hx.
Qed.

Lemma ordered_due_filter (t : LRCTime) (l1 l2 : list TimedCharacter) :
  ordered TimedCharacter_ltb (l1 ++ l2) ->
  forallb (due t) l1 = true ->
  (l2 = [] \/ exists c r, l2 = c :: r /\ due t c = false) ->
  filter (due t) (l1 ++ l2) = l1.
Proof.
  intros O H1 H2. rewrite filter_app.
  assert (F1 : filter (due t) l1 = l1).
  { clear O. induction l1 as [|x l1 IH]; [reflexivity|].
    cbn [forallb] in H1. apply andb_true_iff in H1. destruct H1 as [Hx H1].
    cbn [filter]. rewrite Hx, IH by exact H1. reflexivity. }
  rewrite F1.
  destruct H2 as [->|(c & r & -> & Hc)]; [rewrite app_nil_r; reflexivity|].
  replace (filter (due t) (c :: r)) with (@nil TimedCharacter);
    [rewrite app_nil_r; reflexivity|].
  symmetry. apply filter_none.
  intros y Hy.
  destruct (ordered_app_after _ TimedCharacter_ltb l1 r c y O Hy) as [->|L];
    [exact Hc|].
  unfold due in *. rewrite LRCTime_leb_ltb in Hc |- *.
  apply negb_false_iff in Hc. apply negb_false_iff.
  unfold TimedCharacter_ltb, LRCTime_ltb in *.
  destruct (timedelta_ltb (time t) (time (char_time y))) eqn:T; [reflexivity|].
  exfalso.
  pose proof (timedelta_ltb_negtrans _ _ _ L T) as K. congruence.
Qed.

(** X17.  [get_character_at_time] stops at the first character later than
    the given time: it returns the last character of the longest prefix of
    the line whose times are not later, and nothing when the line is empty
    or its first character is later.  On a line whose characters are in
    time order that is the last of all the characters not later than the
    given time, which is also the last of those [get_characters_in_range]
    returns from any start that is not later than that character. *)
Theorem get_character_at_time_last (l : EnhancedLyricLine) (t : LRCTime) :
  (exists l1 l2,
      characters l = l1 ++ l2
      /\ forallb (due t) l1 = true
      /\ (l2 = [] \/ exists c r, l2 = c :: r /\ due t c = false)
      /\ get_character_at_time l t = last_error l1)
  /\ (ordered TimedCharacter_ltb (characters l) ->
      get_character_at_time l t = last_error (filter (due t) (characters l))
      /\ forall c s,
           get_character_at_time l t = Some c ->
           LRCTime_leb s (char_time c) = true ->
           last_error (get_characters_in_range l s t) = Some c).
Proof.
  destruct (due_prefix t (characters l)) as (l1 & l2 & E & H1 & H2).
  assert (G : get_character_at_time l t = last_error l1).
  { unfold get_character_at_time.
    rewrite (character_at_time_from_app t _ None l1 l2 E H1 H2).
    destruct (last_error l1); reflexivity. }
  split.
  - exists l1, l2. auto.
  - intros O. rewrite E in O.
    pose proof (ordered_due_filter t l1 l2 O H1 H2) as F.
    split; [rewrite E, F; exact G|].
    intros c s Hc Hs. rewrite G in Hc.
    unfold get_characters_in_range.
    assert (R : forall A (f g : A -> bool) (xs : list A),
               filter (fun x => f x && g x) xs = filter f (filter g xs)).
    { intros A f g xs. induction xs as [|x xs IH]; [reflexivity|].
      cbn [filter]. destruct (g x); cbn [filter].
      - rewrite andb_true_r. destruct (f x); rewrite IH; reflexivity.
      - rewrite andb_false_r. exact IH. }
    rewrite (R _ (fun char => LRCTime_leb s (char_time char)) (due t)).
    rewrite E, F.
    unfold last_error in Hc |- *.
    rewrite <- (rev_involutive l1).
    destruct (rev l1) as [|z zs]; [discriminate Hc|].
    cbn [hd_error] in Hc. injection Hc as ->.
    cbn [rev]. rewrite filter_app. cbn [filter]. rewrite Hs.
    rewrite rev_app_distr. reflexivity.
Qed.

Lemma get_character_at_time_last_witness :
  get_character_at_time a_blank_b (time_of_milliseconds 2500)
  = last_error (filter (due (time_of_milliseconds 2500))
                  (characters a_blank_b)).
Proof.
  apply (proj2 (get_character_at_time_last a_blank_b
                  (time_of_milliseconds 2500))).
  repeat constructor.
Defined.

(** ** Printing and parsing again *)

Lemma linebreak_not_cr (c : codepoint) :
  Unicode.islinebreak c = false -> (c =? 13) = false.
Proof.
  intros H. destruct (Z.eqb_spec c 13) as [->|]; [discriminate H | reflexivity].
Qed.

Lemma splitlines_from_app (l : str) :
  forall cur s,
    no_linebreak l = true ->
    splitlines_from cur (l ++ s) = splitlines_from (rev l ++ cur) s.
Proof.
  induction l as [|c l IH]; intros cur s H; [reflexivity|].
  unfold no_linebreak in H. cbn [forallb] in H.
  apply andb_true_iff in H. destruct H as [Hc H].
  apply negb_true_iff in Hc.
  cbn [app splitlines_from]. rewrite (linebreak_not_cr c Hc), Hc.
  rewrite (IH (c :: cur) s H). cbn [rev]. rewrite <- app_assoc. reflexivity.
Qed.

(** Lines without line boundaries, none of them empty, are the lines of
    their join. *)
Lemma splitlines_join (ls : list str) :
  Forall (fun l => l <> [] /\ no_linebreak l = true) ls ->
  splitlines (join [chr_newline] ls) = ls.
Proof.
  unfold splitlines. induction 1 as [|p ps [Hne Hp] Hps IH]; [reflexivity|].
  destruct ps as [|q ps].
  - cbn [join]. rewrite <- (app_nil_r p) at 1.
    rewrite splitlines_from_app by exact Hp. rewrite app_nil_r.
    cbn [splitlines_from].
    destruct (rev p) as [|x r] eqn:E.
    + apply (f_equal (@rev Z)) in E. rewrite rev_involutive in E.
      contradiction.
    + rewrite <- E, rev_involutive. reflexivity.
  - change (join [chr_newline] (p :: q :: ps))
      with (p ++ [chr_newline] ++ join [chr_newline] (q :: ps)).
    rewrite splitlines_from_app by exact Hp. rewrite app_nil_r.
    cbn [app splitlines_from]. change (chr_newline =? 13) with false.
    change (Unicode.islinebreak chr_newline) with true. cbv iota.
    rewrite rev_involutive, IH. reflexivity.
Qed.

Lemma last_behind (A : Type) (pre t : list A) (d x : A) :
  last ((pre ++ [d]) ++ t) x = last t d.
Proof.
  destruct (rev t) as [|z r] eqn:E.
  - apply (f_equal (@rev A)) in E. rewrite rev_involutive in E. subst t.
    rewrite app_nil_r. apply last_last.
  - apply (f_equal (@rev A)) in E. rewrite rev_involutive in E. subst t.
    cbn [rev]. rewrite app_assoc, !last_last. reflexivity.
Qed.

Lemma strip_id (c : codepoint) (s : str) :
  Unicode.isspace c = false ->
  Unicode.isspace (last s c) = false ->
  strip (c :: s) = c :: s.
Proof.
  intros Hc Hl. unfold strip. cbn [dropwhile]. rewrite Hc.
  assert (E : rev (c :: s)
              = last s c :: rev (removelast (c :: s))).
  { rewrite (app_removelast_last c (l := c :: s)) at 1 by discriminate.
    rewrite rev_app_distr. cbn [rev app]. f_equal.
    destruct s; reflexivity. }
  rewrite E. cbn [dropwhile]. rewrite Hl, <- E. apply rev_involutive.
Qed.

(** What [strip] returns does not end in white space. *)
Lemma strip_last (s : str) (d : codepoint) :
  Unicode.isspace d = false -> Unicode.isspace (last (strip s) d) = false.
Proof.
  intros Hd. unfold strip.
  assert (H : forall l, match dropwhile Unicode.isspace l with
                        | [] => True
                        | z :: _ => Unicode.isspace z = false
                        end).
  { induction l as [|a l IH]; [exact I|].
    cbn [dropwhile]. destruct (Unicode.isspace a) eqn:E; [exact IH | exact E]. }
  specialize (H (rev (dropwhile Unicode.isspace s))).
  destruct (dropwhile Unicode.isspace (rev (dropwhile Unicode.isspace s)))
    as [|z r]; [exact Hd|].
  cbn [rev]. rewrite last_last. exact H.
Qed.

Lemma mapM_app (A B : Type) (f : A -> result B) (l1 l2 : list A) :
  mapM f (l1 ++ l2)
  = (a <- mapM f l1 ;; b <- mapM f l2 ;; Ok (a ++ b)).
Proof.
  induction l1 as [|x l1 IH]; cbn [app mapM].
  - cbn [bind]. destruct (mapM f l2); reflexivity.
  - destruct (f x) as [y|e]; [|reflexivity]. cbn [bind]. rewrite IH.
    destruct (mapM f l1) as [a|e]; [|reflexivity]. cbn [bind].
    destruct (mapM f l2); reflexivity.
Qed.

Lemma mapM_map_ok (A B C : Type) (f : C -> result B) (h : A -> C)
  (g : A -> B) (l : list A) :
  (forall a, In a l -> f (h a) = Ok (g a)) ->
  mapM f (map h l) = Ok (map g l).
Proof.
  induction l as [|a l IH]; intros H; [reflexivity|].
  cbn [map mapM]. rewrite (H a) by (left; reflexivity).
  rewrite IH by (intros x Hx; apply H; right; exact Hx). reflexivity.
Qed.

Lemma mapM_ok_inv (A B : Type) (f : A -> result B) (l : list A) :
  forall bs, mapM f l = Ok bs ->
             forall b, In b bs -> exists a, In a l /\ f a = Ok b.
Proof.
  induction l as [|a l IH]; intros bs H b Hb.
  - injection H as <-. destruct Hb.
  - cbn [mapM] in H. destruct (f a) as [y|] eqn:E; [|discriminate H].
    cbn [bind] in H. destruct (mapM f l) as [ys|]; [|discriminate H].
    cbn [bind] in H. injection H as <-.
    destruct Hb as [<-|Hb].
    + exists a. split; [left; reflexivity | exact E].
    + destruct (IH ys eq_refl b Hb) as (x & Hx & Fx).
      exists x. split; [right; exact Hx | exact Fx].
Qed.

Lemma no_linebreak_no_newline (s : str) :
  no_linebreak s = true -> ~ In chr_newline s.
Proof.
  unfold no_linebreak. rewrite forallb_forall. intros H Hc.
  specialize (H _ Hc). discriminate H.
Qed.

Lemma not_rbracket_all (s : str) :
  forallb (cmatch not_rbracket) s = true <-> ~ In chr_rbracket s.
Proof.
  rewrite forallb_forall. split.
  - intros H Hc. specialize (H _ Hc). discriminate H.
  - intros H c Hc. unfold not_rbracket.
    cbn [cmatch Unicode.in_ranges existsb fst snd]. rewrite orb_false_r.
    destruct (Z.leb_spec chr_rbracket c), (Z.leb_spec c chr_rbracket);
      try reflexivity.
    exfalso. apply H. replace chr_rbracket with c by lia. exact Hc.
Qed.

Lemma not_linebreak_range (c : codepoint) :
  31 <= c <= 132 -> Unicode.islinebreak c = false.
Proof.
  intros H. unfold Unicode.islinebreak, Unicode.linebreaks. cbn [existsb].
  repeat match goal with
         | |- context [c =? ?k] => rewrite (proj2 (Z.eqb_neq c k)) by lia
         end.
  reflexivity.
Qed.

(** A printed tag is read back. *)
Lemma parse_line_meta_str (m : LyricMeta) :
  printable_meta m ->
  strip (LyricMeta_str m) = LyricMeta_str m
  /\ parse_line (LyricMeta_str m) = Ok (Meta m)
  /\ LyricMeta_str m <> []
  /\ no_linebreak (LyricMeta_str m) = true.
Proof.
  destruct m as [tg vl]. unfold printable_meta. cbn [tag value].
  intros (Lt & At & Hv & Hr & Hn).
  assert (E : LyricMeta_str (mk_LyricMeta tg vl) = tag_text tg vl ++ []).
  { rewrite app_nil_r. reflexivity. }
  split; [|split; [|split]].
  - unfold LyricMeta_str. cbn [tag value app].
    apply strip_id; [reflexivity|].
    replace (tg ++ chr_colon :: vl ++ [chr_rbracket])
      with ((tg ++ chr_colon :: vl) ++ [chr_rbracket])
      by (rewrite <- app_assoc; reflexivity).
    rewrite last_last. reflexivity.
  - rewrite E. unfold parse_line.
    rewrite (tag_pattern_complete tg vl [] Lt At Hv
               (proj2 (not_rbracket_all vl) Hr)).
    unfold LyricMeta_init. destruct tg; [simpl in Lt; lia|].
    destruct vl; [congruence | reflexivity].
  - discriminate.
  - unfold LyricMeta_str, no_linebreak. cbn [tag value].
    rewrite !forallb_app. cbn [forallb].
    assert (T : forallb (fun c => negb (Unicode.islinebreak c)) tg = true).
    { apply forallb_forall. intros c Hc.
      rewrite forallb_forall in At. specialize (At c Hc).
      unfold letters in At.
      cbn [cmatch Unicode.in_ranges existsb fst snd] in At.
      rewrite orb_false_r in At.
      apply orb_true_iff in At.
      rewrite !andb_true_iff, !Z.leb_le in At.
      rewrite not_linebreak_range by lia. reflexivity. }
    unfold no_linebreak in Hn. rewrite T, Hn. reflexivity.
Qed.

Lemma digit_bounds (v : Z) :
  0 <= v < 100 ->
  0 <= v / 10 <= 9 /\ 0 <= v mod 10 <= 9 /\ v = 10 * (v / 10) + v mod 10.
Proof.
  intros H.
  pose proof (Z.div_mod v 10 ltac:(lia)) as E.
  pose proof (Z.mod_pos_bound v 10 ltac:(lia)) as B.
  split; [|split; [lia | exact E]].
  split; [apply Z.div_pos; lia|].
  assert (v / 10 < 10) by (apply Z.div_lt_upper_bound; lia). lia.
Qed.

Lemma two_digits_stamp (v : Z) :
  0 <= v < 100 ->
  length (two_digits v) = 2%nat
  /\ ascii_digits (two_digits v) = true
  /\ str_value (two_digits v) = v.
Proof.
  intros H. destruct (digit_bounds v H) as (B1 & B2 & E).
  assert (A : ascii_digits (two_digits v) = true).
  { unfold ascii_digits, two_digits, chr_0. cbn [forallb].
    rewrite !andb_true_iff, !Z.leb_le. lia. }
  split; [reflexivity|]. split; [exact A|].
  unfold two_digits, str_value, chr_0. cbn [fold_left].
  destruct (isdecimal_ascii (48 + v / 10) ltac:(lia)) as [_ ->].
  destruct (isdecimal_ascii (48 + v mod 10) ltac:(lia)) as [_ ->].
  lia.
Qed.

Lemma three_digits_stamp (v : Z) :
  0 <= v < 1000 ->
  length (three_digits v) = 3%nat
  /\ ascii_digits (three_digits v) = true
  /\ str_value (three_digits v) = v.
Proof.
  intros H.
  pose proof (Z.div_mod v 10 ltac:(lia)) as E1.
  pose proof (Z.mod_pos_bound v 10 ltac:(lia)) as B1.
  assert (H10 : 0 <= v / 10 < 100).
  { split; [apply Z.div_pos; lia | apply Z.div_lt_upper_bound; lia]. }
  destruct (digit_bounds (v / 10) H10) as (B2 & B3 & E2).
  assert (Q : v / 100 = v / 10 / 10).
  { rewrite Z.div_div by lia. reflexivity. }
  assert (A : ascii_digits (three_digits v) = true).
  { unfold ascii_digits, three_digits, chr_0. cbn [forallb].
    rewrite Q, !andb_true_iff, !Z.leb_le. lia. }
  split; [reflexivity|]. split; [exact A|].
  unfold three_digits, str_value, chr_0. cbn [fold_left]. rewrite Q.
  destruct (isdecimal_ascii (48 + v / 10 / 10) ltac:(lia)) as [_ ->].
  destruct (isdecimal_ascii (48 + v / 10 mod 10) ltac:(lia)) as [_ ->].
  destruct (isdecimal_ascii (48 + v mod 10) ltac:(lia)) as [_ ->].
  lia.
Qed.

(** The parts of a count of milliseconds below one hundred minutes. *)
Lemma milliseconds_parts (n : Z) :
  0 <= n < 6000000 ->
  0 <= n / 60000 < 100
  /\ 0 <= n / 1000 mod 60 < 60
  /\ 0 <= n mod 1000 < 1000
  /\ n = (n / 60000 * 60 + n / 1000 mod 60) * 1000 + n mod 1000.
Proof.
  intros H.
  pose proof (Z.div_mod n 1000 ltac:(lia)) as E1.
  pose proof (Z.mod_pos_bound n 1000 ltac:(lia)) as B1.
  pose proof (Z.div_mod (n / 1000) 60 ltac:(lia)) as E2.
  pose proof (Z.mod_pos_bound (n / 1000) 60 ltac:(lia)) as B2.
  assert (Q : n / 60000 = n / 1000 / 60).
  { rewrite Z.div_div by lia. reflexivity. }
  assert (0 <= n / 1000 < 6000).
  { split; [apply Z.div_pos; lia | apply Z.div_lt_upper_bound; lia]. }
  assert (0 <= n / 1000 / 60 < 100).
  { split; [apply Z.div_pos; lia | apply Z.div_lt_upper_bound; lia]. }
  rewrite Q. lia.
Qed.

(** The timestamp of [n] milliseconds, printed and as a bracket. *)
Lemma time_of_milliseconds_str (n : Z) :
  0 <= n < 6000000 ->
  let mm := two_digits (n / 60000) in
  let ss := two_digits (n / 1000 mod 60) in
  let f := three_digits (n mod 1000) in
  LRCTime_str (time_of_milliseconds n) = stamp_text mm ss f
  /\ stamp mm ss f
  /\ str_value ss <= 59
  /\ stamp_time mm ss f = time_of_milliseconds n.
Proof.
  intros H mm ss f.
  destruct (milliseconds_parts n H) as (Bm & Bs & Bf & E).
  destruct (two_digits_stamp _ Bm) as (Lm & Am & Vm).
  destruct (two_digits_stamp (n / 1000 mod 60) ltac:(lia)) as (Ls & As & Vs).
  destruct (three_digits_stamp _ Bf) as (Lf & Af & Vf).
  fold mm in Lm, Am, Vm. fold ss in Ls, As, Vs. fold f in Lf, Af, Vf.
  assert (Hs : stamp mm ss f).
  { unfold stamp. rewrite Lm, Ls, Lf.
    repeat (split; [reflexivity || lia|]).
    split; [|split]; apply ascii_digits_decimal; assumption. }
  assert (Hsec : str_value ss <= 59) by lia.
  destruct (stamp_time_of mm ss f Hs Hsec) as (_ & T & _).
  assert (X : exact_milliseconds mm ss f = n).
  { unfold exact_milliseconds. rewrite ljust_long by lia.
    rewrite Vm, Vs, Vf. lia. }
  rewrite X in T.
  split; [|split; [exact Hs | split; [exact Hsec | exact T]]].
  rewrite <- T. apply stamp_time_str; [exact Hs | | exact Hsec].
  unfold ascii_digits. rewrite !forallb_app.
  apply andb_true_iff. split; [exact Am|].
  apply andb_true_iff. split; [exact As | exact Af].
Qed.

Lemma digit_not_letter (c : codepoint) :
  (chr_0 <=? c) && (c <=? 57) = true -> cmatch letters c = false.
Proof.
  intros H. apply andb_true_iff in H. destruct H as [H1 H2].
  apply Z.leb_le in H1, H2. unfold chr_0 in H1.
  unfold letters. cbn [cmatch Unicode.in_ranges existsb fst snd].
  rewrite orb_false_r. apply orb_false_iff.
  split; apply andb_false_iff.
  - left. apply Z.leb_gt. lia.
  - left. apply Z.leb_gt. lia.
Qed.

Lemma no_linebreak_app (a b : str) :
  no_linebreak (a ++ b) = no_linebreak a && no_linebreak b.
Proof. apply forallb_app. Qed.

Lemma digits_no_linebreak (s : str) :
  ascii_digits s = true -> no_linebreak s = true.
Proof.
  unfold ascii_digits, no_linebreak. rewrite !forallb_forall.
  intros H c Hc. specialize (H c Hc). apply andb_true_iff in H.
  rewrite !Z.leb_le in H. unfold chr_0 in H.
  rewrite not_linebreak_range by lia. reflexivity.
Qed.

Lemma bracket_no_linebreak (mm ss f : str) :
  ascii_digits mm = true -> ascii_digits ss = true -> ascii_digits f = true ->
  no_linebreak (bracket mm ss f) = true.
Proof.
  intros Hm Hs Hf.
  change (bracket mm ss f)
    with ([chr_lbracket] ++ mm ++ [chr_colon] ++ ss ++ [chr_dot] ++ f
          ++ [chr_rbracket]).
  rewrite !no_linebreak_app.
  rewrite (digits_no_linebreak mm Hm), (digits_no_linebreak ss Hs),
    (digits_no_linebreak f Hf).
  reflexivity.
Qed.

(** A printed line is read back. *)
Lemma parse_line_line_str (l : LyricLine) :
  printable_line l ->
  strip (LyricLine_str l) = LyricLine_str l
  /\ parse_line (LyricLine_str l) = Ok (Line l)
  /\ LyricLine_str l <> []
  /\ no_linebreak (LyricLine_str l) = true.
Proof.
  destruct l as [t txt]. unfold printable_line. cbn [line_time texts].
  intros ((n & Hn & ->) & Hb & Hl).
  destruct (time_of_milliseconds_str n Hn) as (S & Hs & Hsec & T).
  set (mm := two_digits (n / 60000)) in *.
  set (ss := two_digits (n / 1000 mod 60)) in *.
  set (f := three_digits (n mod 1000)) in *.
  assert (E : LyricLine_str (mk_LyricLine (time_of_milliseconds n) txt)
              = [] ++ bracket mm ss f ++ txt).
  { unfold LyricLine_str. cbn [line_time texts]. rewrite S.
    unfold stamp_text, bracket. rewrite ljust_long by (subst f; simpl; lia).
    repeat (cbn [app]; rewrite <- ?app_assoc; progress f_equal). }
  split; [|split; [|split]].
  - unfold LyricLine_str. cbn [line_time texts app].
    apply strip_id; [reflexivity|].
    replace (LRCTime_str (time_of_milliseconds n) ++ chr_rbracket :: txt)
      with ((LRCTime_str (time_of_milliseconds n) ++ [chr_rbracket]) ++ txt)
      by (rewrite <- app_assoc; reflexivity).
    rewrite last_behind. exact Hl.
  - assert (Htag : match_ tag_pattern
                     (LyricLine_str (mk_LyricLine (time_of_milliseconds n) txt))
                   = None).
    { destruct (match_ tag_pattern _) as [gs|] eqn:M; [|reflexivity].
      exfalso.
      destruct (tag_pattern_sound _ _ M)
        as (tg & vl & rest & _ & Eq & Lt & At & _).
      rewrite E in Eq. unfold bracket, tag_text, mm, two_digits in Eq.
      destruct tg as [|a tg]; [simpl in Lt; lia|].
      cbn [app] in Eq.
      assert (Ea : chr_0 + n / 60000 / 10 = a).
      { apply (f_equal (fun l => nth 1 l 0)) in Eq. exact Eq. }
      cbn [forallb] in At. apply andb_true_iff in At. destruct At as [Aa _].
      rewrite <- Ea in Aa. rewrite digit_not_letter in Aa; [discriminate Aa|].
      unfold chr_0. destruct (digit_bounds (n / 60000)) as (B & _).
      { apply (milliseconds_parts n Hn). }
      rewrite andb_true_iff, !Z.leb_le. lia. }
    rewrite (parse_line_first_stamp _ [] mm ss f txt Htag E Hs).
    + apply Z.leb_le in Hsec. rewrite Hsec.
      rewrite (run_dot_all txt (no_linebreak_no_newline txt Hb)), firstn_all.
      rewrite T. reflexivity.
    + intros i Hi. simpl in Hi. lia.
  - discriminate.
  - rewrite E, app_nil_l, no_linebreak_app, Hb.
    destruct (milliseconds_parts n Hn) as (Bm & Bs & Bf & _).
    rewrite bracket_no_linebreak; [reflexivity | | |].
    + apply (two_digits_stamp _ Bm).
    + apply (two_digits_stamp (n / 1000 mod 60) ltac:(lia)).
    + apply (three_digits_stamp _ Bf).
Qed.

Lemma lines_of_printed (ms : list LyricMeta) (ls : list LyricLine) :
  lines_of (map Meta ms ++ map Line ls) = ls
  /\ metas_of (map Meta ms ++ map Line ls) = ms.
Proof.
  unfold lines_of, metas_of. rewrite !flat_map_app.
  assert (A : forall xs, flat_map (fun p => match p with Line l => [l] | _ => [] end)
                           (map Meta xs) = []).
  { induction xs as [|x xs IH]; [reflexivity | exact IH]. }
  assert (B : forall xs, flat_map (fun p => match p with Line l => [l] | _ => [] end)
                           (map Line xs) = xs).
  { induction xs as [|x xs IH]; [reflexivity|]. cbn [map flat_map app].
    rewrite IH. reflexivity. }
  assert (C : forall xs, flat_map (fun p => match p with Meta m => [m] | _ => [] end)
                           (map Meta xs) = xs).
  { induction xs as [|x xs IH]; [reflexivity|]. cbn [map flat_map app].
    rewrite IH. reflexivity. }
  assert (D : forall xs, flat_map (fun p => match p with Meta m => [m] | _ => [] end)
                           (map Line xs) = []).
  { induction xs as [|x xs IH]; [reflexivity | exact IH]. }
  rewrite A, B, C, D, app_nil_r. split; reflexivity.
Qed.

(** A printable document is read back from its text. *)
Lemma round_trip_printable (d : StandardLyricDocument LyricLine) :
  printable d -> StandardLRCParser_parse (to_lrc LyricLine_str d) = Ok d.
Proof.
  destruct d as [ls ms]. unfold printable. cbn [lines meta].
  intros [Hl Hm]. rewrite Forall_forall in Hl, Hm.
  unfold StandardLRCParser_parse, to_lrc. cbn [lines meta].
  rewrite splitlines_join.
  - rewrite parse_lines_mapM, mapM_app.
    rewrite (mapM_map_ok _ _ _ (fun line => parse_line (strip line))
               LyricMeta_str Meta ms).
    + rewrite (mapM_map_ok _ _ _ (fun line => parse_line (strip line))
                 LyricLine_str Line ls).
      * cbn [bind lines meta app].
        destruct (lines_of_printed ms ls) as [-> ->]. reflexivity.
      * intros l Hin. destruct (parse_line_line_str l (Hl l Hin)) as (-> & E & _).
        exact E.
    + intros m Hin. destruct (parse_line_meta_str m (Hm m Hin)) as (-> & E & _).
      exact E.
  - apply Forall_app. split; apply Forall_forall; intros s Hs;
      apply in_map_iff in Hs; destruct Hs as (x & <- & Hx).
    + destruct (parse_line_meta_str x (Hm x Hx)) as (_ & _ & N & B). auto.
    + destruct (parse_line_line_str x (Hl x Hx)) as (_ & _ & N & B). auto.
Qed.

Lemma splitlines_no_linebreak (text raw : str) :
  In raw (splitlines text) -> no_linebreak (strip raw) = true.
Proof.
  intros Hraw. apply forallb_forall. intros c Hc. apply strip_incl in Hc.
  rewrite (splitlines_from_no_break (length text) text [] (le_n _)
             ltac:(intros ? []) raw Hraw c Hc).
  reflexivity.
Qed.

Lemma no_linebreak_incl (a b : str) :
  (forall c, In c a -> In c b) ->
  no_linebreak b = true -> no_linebreak a = true.
Proof.
  unfold no_linebreak. rewrite !forallb_forall. intros H Hb c Hc.
  apply Hb, H, Hc.
Qed.

(** What a line of the text contributes is printable. *)
Lemma parse_line_printable (line : str) (p : parsed) :
  parse_line line = Ok p ->
  no_linebreak line = true ->
  Unicode.isspace (last line chr_rbracket) = false ->
  match p with
  | Line l => printable_line l
  | Meta m => printable_meta m
  | Nothing => True
  end.
Proof.
  intros H Hb Hl. destruct (match_ tag_pattern line) as [gs|] eqn:T.
  - destruct (tag_pattern_sound _ _ T)
      as (tg & vl & rest & -> & E & Lt & At & Hv & Av).
    unfold parse_line in H. rewrite T in H. unfold LyricMeta_init in H.
    destruct tg as [|a tg]; [simpl in Lt; lia|].
    destruct vl as [|b vl]; [congruence|].
    cbn [str_is_empty orb bind] in H. injection H as <-.
    unfold printable_meta. cbn [tag value].
    split; [exact Lt|]. split; [exact At|]. split; [discriminate|].
    split; [apply not_rbracket_all, Av|].
    apply (no_linebreak_incl _ line); [|exact Hb].
    intros c Hc. rewrite E. unfold tag_text.
    apply in_or_app. left. right. apply in_or_app. right. right.
    apply in_or_app. left. exact Hc.
  - destruct (stamp_split line) as [F|(pre & mm & ss & f & rest & E & Hs & Hp)].
    + unfold parse_line in H.
      rewrite T, time_text_pattern_stamp, findall_stamp_free in H by exact F.
      cbn in H. injection H as <-. exact I.
    + rewrite (parse_line_first_stamp _ _ _ _ _ _ T E Hs Hp) in H.
      destruct (Z.leb_spec (str_value ss) 59) as [L|L]; [|discriminate H].
      injection H as <-.
      assert (Hr : no_linebreak rest = true).
      { apply (no_linebreak_incl _ line); [|exact Hb].
        intros c Hc. rewrite E. apply in_or_app. right.
        apply in_or_app. right. exact Hc. }
      rewrite (run_dot_all rest (no_linebreak_no_newline rest Hr)), firstn_all.
      unfold printable_line. cbn [line_time texts].
      destruct (stamp_time_of mm ss f Hs L) as (_ & Ti & B).
      split; [exists (exact_milliseconds mm ss f); auto|].
      split; [exact Hr|].
      rewrite E in Hl. unfold bracket in Hl.
      replace (pre ++ (chr_lbracket :: mm ++ chr_colon :: ss ++ chr_dot :: f
                       ++ [chr_rbracket]) ++ rest)
        with (((pre ++ chr_lbracket :: mm ++ chr_colon :: ss ++ chr_dot :: f)
               ++ [chr_rbracket]) ++ rest) in Hl.
      * rewrite last_behind in Hl. exact Hl.
      * repeat (cbn [app]; rewrite <- ?app_assoc; progress f_equal).
Qed.

Lemma parse_printable (text : str) (d : StandardLyricDocument LyricLine) :
  StandardLRCParser_parse text = Ok d -> printable d.
Proof.
  unfold StandardLRCParser_parse. rewrite parse_lines_mapM.
  destruct (mapM _ (splitlines text)) as [ps|e] eqn:M; [|discriminate].
  cbn [bind lines meta app]. intros H. injection H as <-.
  assert (P : forall p, In p ps ->
                match p with
                | Line l => printable_line l
                | Meta m => printable_meta m
                | Nothing => True
                end).
  { intros p Hp.
    destruct (mapM_ok_inv _ _ _ _ _ M p Hp) as (raw & Hraw & R).
    apply (parse_line_printable (strip raw) p R).
    - apply (splitlines_no_linebreak text raw Hraw).
    - apply strip_last. reflexivity. }
  unfold printable. cbn [lines meta].
  split; apply Forall_forall; intros x Hx.
  - unfold lines_of in Hx. apply in_flat_map in Hx.
    destruct Hx as (p & Hp & Hx). specialize (P p Hp).
    destruct p as [m|l|]; try destruct Hx as [<-|[]]; try destruct Hx.
    exact P.
  - unfold metas_of in Hx. apply in_flat_map in Hx.
    destruct Hx as (p & Hp & Hx). specialize (P p Hp).
    destruct p as [m|l|]; try destruct Hx as [<-|[]]; try destruct Hx.
    exact P.
Qed.

(** X18.  The documents the standard parser returns are the printable
    ones: lines below one hundred minutes whose text holds no line
    boundary and does not end in white space, tags of two or three ASCII
    letters whose value is not empty and holds no closing bracket and no
    line boundary.  Such a document is read back unchanged from the text
    [to_lrc] prints, so parsing, printing and parsing again gives the
    document of the first parse, and printing that the same text. *)
Theorem print_then_parse (d : StandardLyricDocument LyricLine) :
  ((exists text, StandardLRCParser_parse text = Ok d) <-> printable d)
  /\ (printable d ->
      StandardLRCParser_parse (to_lrc LyricLine_str d) = Ok d)
  /\ (forall text,
         StandardLRCParser_parse text = Ok d ->
         StandardLRCParser_parse (to_lrc LyricLine_str d) = Ok d).
Proof.
  split; [|split].
  - split.
    + intros (text & H). exact (parse_printable text d H).
    + intros H. exists (to_lrc LyricLine_str d).
      exact (round_trip_printable d H).
  - apply round_trip_printable.
  - intros text H. apply round_trip_printable.
    exact (parse_printable text d H).
Qed.

Lemma print_then_parse_witness :
  StandardLRCParser_parse (to_lrc LyricLine_str tagged_hello) = Ok tagged_hello.
Proof.
  apply (proj1 (proj2 (print_then_parse tagged_hello))).
  split.
  - constructor; [|constructor]. split; [|split].
    + exists 12340. split; [lia | reflexivity].
    + reflexivity.
    + reflexivity.
  - constructor; [|constructor].
    unfold printable_meta. cbn [tagged_hello tag value length].
    split; [lia|]. split; [reflexivity|]. split; [discriminate|].
    split; [|reflexivity].
    intros [H|[H|[H|[]]]]; discriminate H.
Defined.

(** ** The text of a merged document *)

Lemma join_cons (sep x : str) (ys : list str) :
  ys <> [] -> join sep (x :: ys) = x ++ sep ++ join sep ys.
Proof. destruct ys; [congruence | reflexivity]. Qed.

Lemma join_app (sep : str) (xs ys : list str) :
  xs <> [] -> ys <> [] ->
  join sep (xs ++ ys) = join sep xs ++ sep ++ join sep ys.
Proof.
  induction xs as [|x xs IH]; intros Hx Hy; [congruence|].
  destruct xs as [|x' xs].
  - cbn [app]. rewrite join_cons by exact Hy. reflexivity.
  - cbn [app] in *. rewrite join_cons by discriminate.
    rewrite IH by (discriminate || exact Hy).
    rewrite (join_cons sep x (x' :: xs)) by discriminate.
    rewrite <- !app_assoc. reflexivity.
Qed.

(** Joining joined groups is joining their members. *)
Lemma join_groups (sep : str) (gs : list (list str)) :
  Forall (fun g => g <> []) gs ->
  join sep (map (join sep) gs) = join sep (concat gs).
Proof.
  induction 1 as [|g gs Hg Hgs IH]; [reflexivity|].
  cbn [map concat]. destruct gs as [|g' gs].
  - cbn [map concat join]. rewrite app_nil_r. reflexivity.
  - assert (N : concat (g' :: gs) <> []).
    { inversion Hgs as [|? ? Hg' _]; subst. cbn [concat].
      destruct g'; [congruence | discriminate]. }
    rewrite join_cons by discriminate.
    rewrite join_app by assumption. rewrite IH. reflexivity.
Qed.

Lemma join_with_groups (sep : str) (xs : list str) (gs : list (list str)) :
  Forall (fun g => g <> []) gs ->
  join sep (xs ++ map (join sep) gs) = join sep (xs ++ concat gs).
Proof.
  intros H. destruct gs as [|g gs]; [reflexivity|].
  destruct xs as [|x xs]; [apply join_groups, H|].
  assert (N : concat (g :: gs) <> []).
  { inversion H as [|? ? Hg _]; subst. cbn [concat].
    destruct g; [congruence | discriminate]. }
  rewrite !join_app by (assumption || discriminate).
  rewrite join_groups by exact H. reflexivity.
Qed.

Lemma combined_str_lines (c : CombinedLyricLine) :
  CombinedLyricLine_str c
  = join [chr_newline] (map LyricLine_str (printed_lines c))
  /\ printed_lines c <> [].
Proof.
  unfold CombinedLyricLine_str, printed_lines.
  destruct (str_is_empty (texts (origin c))); split;
    try discriminate; reflexivity.
Qed.

Lemma to_lrc_combined (d : StandardLyricDocument CombinedLyricLine) :
  to_lrc CombinedLyricLine_str d
  = to_lrc LyricLine_str
      (mk_StandardLyricDocument (flat_map printed_lines (lines d)) (meta d)).
Proof.
  unfold to_lrc. cbn [lines meta].
  rewrite flat_map_concat_map, concat_map, map_map.
  rewrite <- join_with_groups.
  - rewrite map_map. f_equal. f_equal. apply map_ext.
    intros c. apply combined_str_lines.
  - apply Forall_forall. intros g Hg. apply in_map_iff in Hg.
    destruct Hg as (c & <- & _).
    destruct (combined_str_lines c) as [_ N].
    destruct (printed_lines c); [congruence | discriminate].
Qed.

Lemma printable_line_parts (o x : LyricLine) :
  printable_line o -> printable_line x ->
  printable_line (mk_LyricLine (line_time o) (texts x)).
Proof.
  intros (T & _ & _) (_ & B & L). unfold printable_line.
  cbn [line_time texts]. auto.
Qed.

Lemma the_empty_line_printable : printable_line the_empty_line.
Proof.
  split; [|split; reflexivity].
  exists 0. split; [lia | reflexivity].
Qed.

Lemma combined_printable (interval : Z)
  (po : StandardLyricDocument LyricLine)
  (pts : list (StandardLyricDocument LyricLine)) (o : LyricLine) :
  printable_line o ->
  Forall printable pts ->
  Forall printable_line (printed_lines (combined interval (sorted_trans pts) o)).
Proof.
  intros Ho Hp.
  assert (Ht : forall ts,
             Forall printable_line ts ->
             Forall printable_line
               (printed_lines (CombinedLyricLine_init o ts))).
  { intros ts H. unfold printed_lines, CombinedLyricLine_init.
    cbn [origin combined_time trans].
    destruct (str_is_empty (texts o)).
    - constructor; [|constructor]. destruct o as [t s]. exact Ho.
    - constructor; [exact Ho|]. apply Forall_forall. intros x Hx.
      apply filter_In in Hx. destruct Hx as [Hx _].
      apply in_map_iff in Hx. destruct Hx as (y & <- & Hy).
      rewrite Forall_forall in H.
      apply printable_line_parts; [exact Ho | apply H, Hy]. }
  unfold combined.
  destruct (available_trans interval o (sorted_trans pts)) as [|y r] eqn:A.
  - apply Ht. constructor; [apply the_empty_line_printable | constructor].
  - apply Ht. rewrite <- A. apply Forall_forall. intros x Hx.
    apply available_trans_In in Hx. destruct Hx as (t & Hin & Hxt & _).
    unfold sorted_trans in Hin. apply in_map_iff in Hin.
    destruct Hin as (p & <- & Hpin). apply sort_In in Hxt.
    rewrite Forall_forall in Hp. destruct (Hp p Hpin) as [Hl _].
    rewrite Forall_forall in Hl. apply Hl, Hxt.
Qed.

(** X19.  The text of a merged document is itself an LRC text.  When the
    origin and the translation documents are printable, as every parsed
    document is, the standard parser reads [to_lrc] of the merged document
    back as the metadata of the origin and, for every origin line in
    sorted order, the origin line followed by the translations that have a
    text, each at the time of the origin line; an origin line with an
    empty text comes back alone, its translations are not printed. *)
Theorem merged_text_parses (interval : Z)
  (po : StandardLyricDocument LyricLine)
  (pts : list (StandardLyricDocument LyricLine))
  (d : StandardLyricDocument CombinedLyricLine) :
  printable po ->
  Forall printable pts ->
  merge interval po pts = Ok d ->
  StandardLRCParser_parse (to_lrc CombinedLyricLine_str d)
  = Ok (mk_StandardLyricDocument (flat_map printed_lines (lines d)) (meta po))
  /\ (forall c, In c (lines d) ->
        printed_lines c
        = if str_is_empty (texts (origin c))
          then [origin c]
          else origin c
               :: filter (fun t => negb (str_is_empty (texts t))) (trans c)).
Proof.
  intros [Hl Hm] Hp. rewrite merge_lines. intros E. injection E as <-.
  split.
  - rewrite to_lrc_combined. cbn [lines meta].
    apply round_trip_printable. split; cbn [lines meta]; [|exact Hm].
    apply Forall_forall. intros x Hx. apply in_flat_map in Hx.
    destruct Hx as (c & Hc & Hx). apply in_map_iff in Hc.
    destruct Hc as (o & <- & Ho). apply sort_In in Ho.
    rewrite Forall_forall in Hl.
    pose proof (combined_printable interval po pts o (Hl o Ho) Hp) as F.
    rewrite Forall_forall in F. apply F, Hx.
  - cbn [lines]. intros c Hc. apply in_map_iff in Hc.
    destruct Hc as (o & <- & _).
    unfold printed_lines. rewrite combined_origin, combined_time_origin.
    destruct o as [t s]. reflexivity.
Qed.

Lemma merged_text_parses_witness :
  StandardLRCParser_parse
    (to_lrc CombinedLyricLine_str
       (mk_StandardLyricDocument
          (map (combined 500 (sorted_trans [translation_salut]))
             (sort LyricLine_ltb (lines origin_hello)))
          (meta origin_hello)))
  = Ok (mk_StandardLyricDocument
          [mk_LyricLine (time_of_milliseconds 12340) s_hello;
           mk_LyricLine (time_of_milliseconds 12340) [83; 97; 108; 117; 116]]
          (meta origin_hello)).
Proof.
  refine (proj1 (merged_text_parses 500 origin_hello [translation_salut]
                   _ _ _ _)).
  - split.
    + constructor; [|constructor]. split; [|split].
      * exists 12340. split; [lia | reflexivity].
      * reflexivity.
      * reflexivity.
    + constructor; [|constructor].
      unfold printable_meta. cbn [tag value length].
      split; [lia|]. split; [reflexivity|]. split; [discriminate|].
      split; [|reflexivity].
      intros [H|[H|[H|[]]]]; discriminate H.
  - constructor; [|constructor]. split.
    + constructor; [|constructor]. split; [|split].
      * exists 12540. split; [lia | reflexivity].
      * reflexivity.
      * reflexivity.
    + constructor.
  - vm_compute. reflexivity.
Defined.

(** ** Enhanced documents, printed and parsed again *)

Lemma tag_none_digit (d : codepoint) (rest : str) :
  (chr_0 <=? d) && (d <=? 57) = true ->
  match_ tag_pattern (chr_lbracket :: d :: rest) = None.
Proof.
  intros Hd. destruct (match_ tag_pattern _) as [gs|] eqn:M; [|reflexivity].
  exfalso.
  destruct (tag_pattern_sound _ _ M) as (tg & vl & r & _ & Eq & Lt & At & _).
  unfold tag_text in Eq.
  destruct tg as [|a tg]; [simpl in Lt; lia|].
  assert (Ea : d = a).
  { apply (f_equal (fun l => nth 1 l 0)) in Eq. exact Eq. }
  cbn [forallb] in At. apply andb_true_iff in At. destruct At as [Aa _].
  rewrite <- Ea, digit_not_letter in Aa by exact Hd. discriminate Aa.
Qed.

Lemma last_cons_default (A : Type) (c d : A) (s : list A) :
  last (c :: s) d = last s c.
Proof.
  revert c d. induction s as [|x s IH]; intros c d; [reflexivity|].
  change (last (c :: x :: s) d) with (last (x :: s) d).
  rewrite (IH x d), (IH x c). reflexivity.
Qed.

Lemma no_linebreak_concat (ss : list str) :
  Forall (fun s => no_linebreak s = true) ss ->
  no_linebreak (concat ss) = true.
Proof.
  induction 1 as [|s ss Hs _ IH]; [reflexivity|].
  cbn [concat]. rewrite no_linebreak_app, Hs, IH. reflexivity.
Qed.

(** What a printable character prints is a segment the parser accepts, and
    the segment gives the character back. *)
Lemma character_segment_ok (c : TimedCharacter) :
  printable_character c ->
  exists mm ss f,
    character_segment c = (mm, ss, f, character c)
    /\ TimedCharacter_str c = bracket mm ss f ++ character c
    /\ stamp mm ss f
    /\ str_value ss <= 59
    /\ stamp_time mm ss f = char_time c
    /\ no_linebreak (bracket mm ss f) = true
    /\ exists d r, mm = d :: r /\ (chr_0 <=? d) && (d <=? 57) = true.
Proof.
  destruct c as [t txt]. unfold printable_character.
  cbn [char_time character]. intros ((n & Hn & ->) & Hb & Hl).
  destruct (time_of_milliseconds_str n Hn) as (S & Hs & Hsec & T).
  destruct (milliseconds_parts n Hn) as (Bm & Bs & Bf & _).
  destruct (two_digits_stamp _ Bm) as (_ & Am & _).
  destruct (two_digits_stamp (n / 1000 mod 60) ltac:(lia)) as (_ & As & _).
  destruct (three_digits_stamp _ Bf) as (_ & Af & _).
  exists (two_digits (n / 60000)), (two_digits (n / 1000 mod 60)),
    (three_digits (n mod 1000)).
  split; [|split; [|split; [exact Hs | split; [exact Hsec | split;
    [exact T | split]]]]].
  - unfold character_segment, LRCTime_minutes, LRCTime_seconds,
      LRCTime_milliseconds.
    cbn [char_time character].
    rewrite total_milliseconds_time_of by lia.
    rewrite !padded_two, padded_three by lia. reflexivity.
  - unfold TimedCharacter_str. cbn [char_time character]. rewrite S.
    unfold stamp_text, bracket. rewrite ljust_long by (simpl; lia).
    repeat (cbn [app]; rewrite <- ?app_assoc; progress f_equal).
  - apply bracket_no_linebreak; assumption.
  - eexists. eexists. split; [reflexivity|].
    unfold ascii_digits, two_digits in Am. cbn [forallb] in Am.
    apply andb_true_iff in Am. apply Am.
Qed.

Lemma characters_segments (cs : list TimedCharacter) :
  Forall printable_character cs ->
  Forall accepted (map character_segment cs)
  /\ map segment_character (map character_segment cs) = cs
  /\ map segment_source (map character_segment cs) = map TimedCharacter_str cs
  /\ no_linebreak (concat (map TimedCharacter_str cs)) = true.
Proof.
  induction 1 as [|c cs Hc _ (IH1 & IH2 & IH3 & IH4)].
  - repeat split. constructor.
  - destruct (character_segment_ok c Hc)
      as (mm & ss & f & E & S & Hs & Hsec & T & B & _).
    destruct Hc as (_ & Hb & Hl).
    cbn [map concat]. rewrite E. cbn [segment_character segment_source].
    split; [|split; [|split]].
    + constructor; [|exact IH1]. cbn [accepted]. auto.
    + rewrite T, IH2. destruct c; reflexivity.
    + rewrite S, IH3. reflexivity.
    + rewrite S, !no_linebreak_app, B, Hl, IH4. reflexivity.
Qed.

(** A printed enhanced line is read back. *)
Lemma enhanced_parse_line_str (l : EnhancedLyricLine) :
  printable_enhanced_line l ->
  strip (EnhancedLyricLine_str l) = EnhancedLyricLine_str l
  /\ enhanced_parse_line (EnhancedLyricLine_str l) = Ok (ELine l)
  /\ EnhancedLyricLine_str l <> []
  /\ no_linebreak (EnhancedLyricLine_str l) = true.
Proof.
  destruct l as [cs ov]. unfold printable_enhanced_line.
  cbn [characters end_time_override].
  intros (-> & Hc & cs' & c & Ecs & Hl).
  destruct (characters_segments cs Hc) as (Ha & Hch & Hsrc & Hnb).
  unfold EnhancedLyricLine_str. cbn [characters].
  (* the first character *)
  assert (Hne : cs <> []) by (rewrite Ecs; destruct cs'; discriminate).
  destruct cs as [|c0 cs0]; [congruence|].
  inversion Hc as [|? ? Hc0 _]; subst.
  destruct (character_segment_ok c0 Hc0)
    as (mm & ss & f & _ & S0 & Hs & Hsec & T0 & _ & d & r & -> & Hd).
  set (rest := concat (map TimedCharacter_str cs0)).
  assert (E0 : concat (map TimedCharacter_str (c0 :: cs0))
               = [] ++ bracket (d :: r) ss f ++ character c0 ++ rest).
  { cbn [map concat]. rewrite S0, <- app_assoc. reflexivity. }
  (* the last character *)
  assert (Hlast : Unicode.isspace
                    (last (concat (map TimedCharacter_str (c0 :: cs0)))
                       chr_lbracket) = false).
  { rewrite Ecs, map_app, concat_app. cbn [map concat].
    rewrite app_nil_r.
    assert (Pc : printable_character c).
    { rewrite Forall_forall in Hc. apply Hc. rewrite Ecs.
      apply in_or_app. right. left. reflexivity. }
    destruct (character_segment_ok c Pc)
      as (mm' & ss' & f' & _ & S' & _).
    rewrite S'. unfold bracket.
    replace (concat (map TimedCharacter_str cs')
             ++ (chr_lbracket :: mm' ++ chr_colon :: ss' ++ chr_dot :: f'
                 ++ [chr_rbracket]) ++ character c)
      with (((concat (map TimedCharacter_str cs')
              ++ chr_lbracket :: mm' ++ chr_colon :: ss' ++ chr_dot :: f')
             ++ [chr_rbracket]) ++ character c).
    - rewrite last_behind. exact Hl.
    - repeat (cbn [app]; rewrite <- ?app_assoc; progress f_equal). }
  assert (Hhead : exists tl, concat (map TimedCharacter_str (c0 :: cs0))
                             = chr_lbracket :: d :: tl).
  { rewrite E0. unfold bracket. cbn [app]. eexists. reflexivity. }
  destruct Hhead as (tl & Hhead).
  split; [|split; [|split]].
  - rewrite Hhead in Hlast |- *.
    apply strip_id; [reflexivity|].
    rewrite last_cons_default in Hlast. exact Hlast.
  - unfold enhanced_parse_line.
    rewrite Hhead at 1. rewrite (tag_none_digit d tl Hd).
    rewrite enhanced_pattern_stamp.
    rewrite E0 at 1.
    rewrite findall_first_stamp;
      [|intros i Hi; simpl in Hi; lia | exact Hs].
    rewrite <- Hsrc, from_string_accepted by exact Ha.
    rewrite Hch. reflexivity.
  - rewrite Hhead. discriminate.
  - exact Hnb.
Qed.

Lemma enhanced_parse_line_meta_str (m : LyricMeta) :
  printable_meta m -> enhanced_parse_line (LyricMeta_str m) = Ok (EMeta m).
Proof.
  destruct m as [tg vl]. unfold printable_meta. cbn [tag value].
  intros (Lt & At & Hv & Hr & Hn).
  assert (E : LyricMeta_str (mk_LyricMeta tg vl) = tag_text tg vl ++ []).
  { rewrite app_nil_r. reflexivity. }
  rewrite E. unfold enhanced_parse_line.
  rewrite (tag_pattern_complete tg vl [] Lt At Hv
             (proj2 (not_rbracket_all vl) Hr)).
  unfold LyricMeta_init. destruct tg; [simpl in Lt; lia|].
  destruct vl; [congruence | reflexivity].
Qed.

Lemma enhanced_lines_of_printed (ms : list LyricMeta)
  (ls : list EnhancedLyricLine) :
  enhanced_lines_of (map EMeta ms ++ map ELine ls) = ls
  /\ enhanced_metas_of (map EMeta ms ++ map ELine ls) = ms.
Proof.
  unfold enhanced_lines_of, enhanced_metas_of. rewrite !flat_map_app.
  assert (A : forall xs,
             flat_map (fun p => match p with ELine l => [l] | _ => [] end)
               (map EMeta xs) = []).
  { induction xs as [|x xs IH]; [reflexivity | exact IH]. }
  assert (B : forall xs,
             flat_map (fun p => match p with ELine l => [l] | _ => [] end)
               (map ELine xs) = xs).
  { induction xs as [|x xs IH]; [reflexivity|]. cbn [map flat_map app].
    rewrite IH. reflexivity. }
  assert (C : forall xs,
             flat_map (fun p => match p with EMeta m => [m] | _ => [] end)
               (map EMeta xs) = xs).
  { induction xs as [|x xs IH]; [reflexivity|]. cbn [map flat_map app].
    rewrite IH. reflexivity. }
  assert (D : forall xs,
             flat_map (fun p => match p with EMeta m => [m] | _ => [] end)
               (map ELine xs) = []).
  { induction xs as [|x xs IH]; [reflexivity | exact IH]. }
  rewrite A, B, C, D, app_nil_r. split; reflexivity.
Qed.

(** X20.  An enhanced document whose lines are printable (no end time set
    by hand, at least one character, every character below one hundred
    minutes with a text without brackets and line boundaries, no white
    space at the end of the last text) and whose tags are printable is
    read back unchanged from the text [to_lrc] prints.  Unlike the
    standard parser, the enhanced parser can return a document that is not
    read back from its own text: a blank in front of a stray closing
    bracket ends a character text, and is stripped when the printed line is
    parsed again. *)
Theorem enhanced_print_then_parse :
  (forall d,
      printable_enhanced d ->
      EnhancedLyricParser_parse (EnhancedLyricDocument_to_lrc d) = Ok d)
  /\ (exists d d',
         EnhancedLyricParser_parse s_blank_before_bracket = Ok d
         /\ EnhancedLyricParser_parse (EnhancedLyricDocument_to_lrc d) = Ok d'
         /\ d' <> d).
Proof.
  split.
  - intros [ls ms]. unfold printable_enhanced.
    cbn [enhanced_lines enhanced_meta].
    intros [Hl Hm]. rewrite Forall_forall in Hl, Hm.
    unfold EnhancedLyricParser_parse, EnhancedLyricDocument_to_lrc.
    cbn [enhanced_lines enhanced_meta].
    rewrite splitlines_join.
    + rewrite enhanced_parse_lines_mapM, mapM_app.
      rewrite (mapM_map_ok _ _ _ (fun line => enhanced_parse_line (strip line))
                 LyricMeta_str EMeta ms).
      * rewrite (mapM_map_ok _ _ _
                   (fun line => enhanced_parse_line (strip line))
                   EnhancedLyricLine_str ELine ls).
        -- cbn [bind enhanced_lines enhanced_meta app].
           destruct (enhanced_lines_of_printed ms ls) as [-> ->]. reflexivity.
        -- intros l Hin.
           destruct (enhanced_parse_line_str l (Hl l Hin)) as (-> & E & _).
           exact E.
      * intros m Hin.
        destruct (parse_line_meta_str m (Hm m Hin)) as (-> & _).
        apply enhanced_parse_line_meta_str, Hm, Hin.
    + apply Forall_app. split; apply Forall_forall; intros s Hs;
        apply in_map_iff in Hs; destruct Hs as (x & <- & Hx).
      * destruct (parse_line_meta_str x (Hm x Hx)) as (_ & _ & N & B). auto.
      * destruct (enhanced_parse_line_str x (Hl x Hx)) as (_ & _ & N & B).
        auto.
  - eexists. eexists. split; [vm_compute; reflexivity|].
    split; [vm_compute; reflexivity|]. discriminate.
Qed.

Lemma enhanced_print_then_parse_witness :
  EnhancedLyricParser_parse (EnhancedLyricDocument_to_lrc tagged_tsuma)
  = Ok tagged_tsuma.
Proof.
  apply (proj1 enhanced_print_then_parse tagged_tsuma).
  split.
  - constructor; [|constructor]. split; [reflexivity|]. split.
    + constructor; [|constructor; [|constructor]].
      * split; [exists 19845; split; [lia | reflexivity]|].
        split; reflexivity.
      * split; [exists 20084; split; [lia | reflexivity]|].
        split; reflexivity.
    + eexists [_]. eexists. split; [reflexivity|]. reflexivity.
  - constructor; [|constructor].
    unfold printable_meta. cbn [tag value length].
    split; [lia|]. split; [reflexivity|]. split; [discriminate|].
    split; [|reflexivity].
    intros [H|[H|[H|[]]]]; discriminate H.
Defined.

(** ** Sorting the characters of a line *)

Lemma TimedCharacter_ltb_asym (a b : TimedCharacter) :
  TimedCharacter_ltb a b = true -> TimedCharacter_ltb b a = false.
Proof. apply timedelta_ltb_asym. Qed.

Lemma TimedCharacter_ltb_negtrans (a b c : TimedCharacter) :
  TimedCharacter_ltb b a = false -> TimedCharacter_ltb c b = false ->
  TimedCharacter_ltb c a = false.
Proof. apply timedelta_ltb_negtrans. Qed.

Lemma TimedCharacter_ltb_irrefl (a : TimedCharacter) :
  TimedCharacter_ltb a a = false.
Proof.
  destruct (TimedCharacter_ltb a a) eqn:E; [|reflexivity].
  rewrite (TimedCharacter_ltb_asym a a E) in E. discriminate E.
Qed.

Lemma ordered_before_last (A : Type) (ltb : A -> A -> bool) (l : list A)
  (z : A) :
  ordered ltb (l ++ [z]) -> forall a, In a l -> ltb z a = false.
Proof.
  unfold ordered. induction l as [|x l IH]; intros H a Ha; [destruct Ha|].
  cbn [app] in H. inversion H as [|? ? Hl Hx]; subst.
  destruct Ha as [<-|Ha].
  - rewrite Forall_forall in Hx. apply Hx. apply in_or_app. right.
    left. reflexivity.
  - apply IH; assumption.
Qed.

(** X21.  [sort_characters] keeps the characters of a line and any end
    time set by hand, puts the characters in time order, and changes
    nothing when applied again.  Afterwards [start_time] is not later than
    any character of the line and, when no end time was set by hand,
    [end_time] is not earlier than any. *)
Theorem sort_characters_bounds (l : EnhancedLyricLine) :
  Permutation (characters (sort_characters l)) (characters l)
  /\ ordered TimedCharacter_ltb (characters (sort_characters l))
  /\ sort_characters (sort_characters l) = sort_characters l
  /\ end_time_override (sort_characters l) = end_time_override l
  /\ (forall c, In c (characters l) ->
        exists s, start_time (sort_characters l) = Some s
                  /\ LRCTime_leb s (char_time c) = true)
  /\ (end_time_override l = None ->
      forall c, In c (characters l) ->
        exists e, end_time (sort_characters l) = Some e
                  /\ LRCTime_leb (char_time c) e = true).
Proof.
  pose proof (sort_perm _ TimedCharacter_ltb (characters l)) as P.
  pose proof (sort_ordered _ TimedCharacter_ltb TimedCharacter_ltb_asym
                TimedCharacter_ltb_negtrans (characters l)) as O.
  unfold sort_characters. cbn [characters end_time_override].
  split; [exact P|]. split; [exact O|].
  split; [rewrite (sort_ordered_id _ _ _ O); reflexivity|].
  split; [reflexivity|].
  split.
  - intros c Hc. apply (Permutation_in _ (Permutation_sym P)) in Hc.
    unfold start_time. cbn [characters].
    destruct (sort TimedCharacter_ltb (characters l)) as [|x r];
      [destruct Hc|].
    exists (char_time x). split; [reflexivity|].
    rewrite LRCTime_leb_ltb. apply negb_true_iff.
    destruct Hc as [<-|Hc]; [apply (TimedCharacter_ltb_irrefl x)|].
    inversion O as [|? ? _ Hx]; subst.
    rewrite Forall_forall in Hx. apply (Hx c Hc).
  - intros Hov c Hc. apply (Permutation_in _ (Permutation_sym P)) in Hc.
    unfold end_time. cbn [characters end_time_override]. rewrite Hov.
    destruct (sort TimedCharacter_ltb (characters l)) as [|x r] eqn:E;
      [destruct Hc|].
    exists (char_time (last r x)). split; [reflexivity|].
    rewrite LRCTime_leb_ltb. apply negb_true_iff.
    assert (D : x :: r = removelast (x :: r) ++ [last r x]).
    { rewrite (app_removelast_last x (l := x :: r)) at 1 by discriminate.
      rewrite last_cons_default. reflexivity. }
    rewrite D in O, Hc. apply in_app_or in Hc.
    destruct Hc as [Hc|[<-|[]]].
    + apply (ordered_before_last _ TimedCharacter_ltb _ _ O c Hc).
    + apply (TimedCharacter_ltb_irrefl (last r x)).
Qed.

Lemma sort_characters_bounds_witness :
  exists e, end_time (sort_characters out_of_order) = Some e
            /\ LRCTime_leb (time_of_milliseconds 1000) e = true.
Proof.
  apply (proj2 (proj2 (proj2 (proj2 (proj2
           (sort_characters_bounds out_of_order)))))
           eq_refl (mk_TimedCharacter (time_of_milliseconds 1000) [97])).
  right. left. reflexivity.
Defined.

(** ** The tolerance window, in the milliseconds of the timestamps *)

Lemma held_time_of (n : Z) : held_milliseconds (time_of_milliseconds n) = n.
Proof.
  unfold held_milliseconds. rewrite time_of_milliseconds_microseconds.
  rewrite Z.mul_comm. apply Z.div_mul. lia.
Qed.

(** Every line of a parsed document holds a whole number of milliseconds
    below one hundred minutes. *)
Lemma parsed_line_time (d : StandardLyricDocument LyricLine) (l : LyricLine) :
  parsed_document d -> In l (lines d) ->
  exists n, 0 <= n < 6000000
            /\ line_time l = time_of_milliseconds n
            /\ held_milliseconds (line_time l) = n
            /\ LRCTime_total_milliseconds (line_time l) = n.
Proof.
  intros (text & H) Hl. destruct (parse_printable text d H) as [P _].
  rewrite Forall_forall in P. destruct (P l Hl) as ((n & Hn & E) & _).
  exists n. split; [exact Hn|]. split; [exact E|]. rewrite E.
  split; [apply held_time_of|].
  apply total_milliseconds_time_of.
  change (2 ^ 50) with 1125899906842624. lia.
Qed.

(** On parsed lines the measure of the merge is the gap between the
    timestamps, and the order of the lines is the order of their
    milliseconds. *)
Lemma parsed_distance (po pt : StandardLyricDocument LyricLine)
  (o x : LyricLine) :
  parsed_document po -> In o (lines po) ->
  parsed_document pt -> In x (lines pt) ->
  distance x o = gap x o.
Proof.
  intros Hpo Ho Hpt Hx.
  destruct (parsed_line_time po o Hpo Ho) as (no & _ & _ & Ho1 & Ho2).
  destruct (parsed_line_time pt x Hpt Hx) as (nx & _ & _ & Hx1 & Hx2).
  unfold distance, gap. rewrite Ho1, Ho2, Hx1, Hx2. reflexivity.
Qed.

Lemma parsed_order (pt : StandardLyricDocument LyricLine) (x y : LyricLine) :
  parsed_document pt -> In x (lines pt) -> In y (lines pt) ->
  (LyricLine_ltb y x = false
   <-> held_milliseconds (line_time x) <= held_milliseconds (line_time y)).
Proof.
  intros Hpt Hx Hy.
  destruct (parsed_line_time pt x Hpt Hx) as (nx & Bx & Ex & Hx1 & _).
  destruct (parsed_line_time pt y Hpt Hy) as (ny & By & Ey & Hy1 & _).
  rewrite Hx1, Hy1. unfold LyricLine_ltb. rewrite Ex, Ey.
  assert (L : LRCTime_ltb (time_of_milliseconds ny) (time_of_milliseconds nx)
              = true <-> ny < nx).
  { apply (time_of_milliseconds_ltb ny nx); lia. }
  split.
  - intros E. destruct (Z_le_gt_dec nx ny) as [G|G]; [exact G|].
    assert (C : LRCTime_ltb (time_of_milliseconds ny)
                  (time_of_milliseconds nx) = true) by (apply L; lia).
    congruence.
  - intros G. apply not_true_is_false. intros E. apply L in E. lia.
Qed.

(** C1.  In the merge of parsed documents, for an origin line and one
    translation document, the candidates are the lines of the document
    whose timestamps lie within [interval] milliseconds of the timestamp
    of the origin line.  The document contributes the first candidate of
    the sorted document: no candidate stands before it in the sorted
    document and none has an earlier timestamp, whether or not one is
    nearer to the origin line.  It contributes nothing exactly when it has
    no candidate, and what the combined line receives is the contributions
    of the documents, each chosen without regard to the others. *)
Theorem merge_selects_first_candidate (interval : Z)
  (po pt : StandardLyricDocument LyricLine) (o : LyricLine) :
  parsed_document po -> In o (lines po) -> parsed_document pt ->
  (forall x,
      In x (available_tran interval o (sort LyricLine_ltb (lines pt)))
      <-> In x (lines pt) /\ gap x o <= interval)
  /\ (forall x,
         selected interval o (lines pt) = Some x ->
         exists l1 l2,
           sort LyricLine_ltb (lines pt) = l1 ++ x :: l2
           /\ In x (lines pt) /\ gap x o <= interval
           /\ (forall y, In y l1 -> interval < gap y o)
           /\ (forall y, In y (lines pt) -> gap y o <= interval ->
                 held_milliseconds (line_time x)
                 <= held_milliseconds (line_time y)))
  /\ (selected interval o (lines pt) = None <->
      forall x, In x (lines pt) -> interval < gap x o)
  /\ (forall docs,
         available_trans interval o (map (sort LyricLine_ltb) docs)
         = flat_map (fun t => match selected interval o t with
                              | Some x => [x]
                              | None => []
                              end) docs).
Proof.
  intros Hpo Ho Hpt.
  assert (G : forall x, In x (lines pt) -> distance x o = gap x o).
  { intros x Hx. exact (parsed_distance po pt o x Hpo Ho Hpt Hx). }
  split; [|split; [|split]].
  - intros x. rewrite candidates_sorted. split; intros [Hx Hd].
    + rewrite <- (G x Hx). auto.
    + rewrite (G x Hx). auto.
  - intros x Hsel.
    destruct (selected_first interval o (lines pt) x Hsel)
      as (l1 & l2 & Hs & Hx & Hd & Hl1 & Hmin).
    exists l1, l2. split; [exact Hs|]. split; [exact Hx|].
    split; [rewrite <- (G x Hx); exact Hd|]. split.
    + intros y Hy. rewrite <- G; [apply Hl1, Hy|].
      apply (sort_In _ LyricLine_ltb). rewrite Hs.
      apply in_or_app. left. exact Hy.
    + intros y Hy Hyd. apply (parsed_order pt x y Hpt Hx Hy).
      apply Hmin; [exact Hy|]. rewrite (G y Hy). exact Hyd.
  - rewrite selected_none. split; intros H x Hx.
    + rewrite <- (G x Hx). apply H, Hx.
    + rewrite (G x Hx). apply H, Hx.
  - apply available_trans_selected.
Qed.

(** The first candidate need not be the nearest one: with a tolerance of
    700 ms the origin line "[00:13.000]o" receives the translation at
    12.340 s, 660 ms away, although the translation text has a line at
    13.000 s. *)
Lemma merge_selects_first_candidate_witness :
  selected 700 (line_at 13000 [111]) (lines translation_13_12)
  = Some (line_at 12340 [97])
  /\ gap (line_at 13000 [98]) (line_at 13000 [111]) = 0
  /\ exists l1 l2,
      sort LyricLine_ltb (lines translation_13_12)
      = l1 ++ line_at 12340 [97] :: l2
      /\ In (line_at 12340 [97]) (lines translation_13_12)
      /\ gap (line_at 12340 [97]) (line_at 13000 [111]) <= 700.
Proof.
  assert (Hpo : parsed_document origin_13)
    by (exists s_origin_13; vm_compute; reflexivity).
  assert (Hpt : parsed_document translation_13_12)
    by (exists s_translation_13_12; vm_compute; reflexivity).
  assert (Ho : In (line_at 13000 [111]) (lines origin_13))
    by (left; reflexivity).
  assert (H : selected 700 (line_at 13000 [111]) (lines translation_13_12)
              = Some (line_at 12340 [97])) by (vm_compute; reflexivity).
  split; [exact H|]. split; [vm_compute; reflexivity|].
  destruct (merge_selects_first_candidate 700 origin_13 translation_13_12
              (line_at 13000 [111]) Hpo Ho Hpt) as (_ & Hsel & _).
  destruct (Hsel _ H) as (l1 & l2 & Hs & Hx & Hd & _).
  exists l1, l2. auto.
Defined.

(** C2.  The window is closed.  In the merge of parsed documents the
    measure the program compares with [interval] is the gap between the
    timestamp of the translation line and that of the origin line, in
    milliseconds; a line of the document whose timestamp is exactly
    [interval] milliseconds from that of the origin line is a candidate, a
    line [interval + 1] milliseconds from it is not. *)
Theorem tolerance_window_inclusive (interval : Z)
  (po pt : StandardLyricDocument LyricLine) (o x : LyricLine) :
  parsed_document po -> In o (lines po) ->
  parsed_document pt -> In x (lines pt) ->
  distance x o = gap x o
  /\ (gap x o = interval ->
      In x (available_tran interval o (sort LyricLine_ltb (lines pt))))
  /\ (gap x o = interval + 1 ->
      ~ In x (available_tran interval o (sort LyricLine_ltb (lines pt)))).
Proof.
  intros Hpo Ho Hpt Hx.
  pose proof (parsed_distance po pt o x Hpo Ho Hpt Hx) as G.
  split; [exact G|]. split; intros Hd.
  - apply candidates_sorted. split; [exact Hx | lia].
  - intros H. apply candidates_sorted in H. lia.
Qed.

(** With a tolerance of 500 ms and the origin line "[00:12.340]o", the
    translation line at 12.840 s is a candidate and the one at 12.841 s is
    not. *)
Lemma tolerance_window_inclusive_witness :
  In (line_at 12840 [97])
     (available_tran 500 (line_at 12340 [111])
        (sort LyricLine_ltb (lines translation_841_840)))
  /\ ~ In (line_at 12841 [98])
          (available_tran 500 (line_at 12340 [111])
             (sort LyricLine_ltb (lines translation_841_840))).
Proof.
  assert (Hpo : parsed_document origin_12)
    by (exists s_origin_12; vm_compute; reflexivity).
  assert (Hpt : parsed_document translation_841_840)
    by (exists s_translation_841_840; vm_compute; reflexivity).
  assert (Ho : In (line_at 12340 [111]) (lines origin_12))
    by (left; reflexivity).
  split.
  - apply (tolerance_window_inclusive 500 origin_12 translation_841_840
             (line_at 12340 [111]) (line_at 12840 [97]) Hpo Ho Hpt).
    + right; left; reflexivity.
    + vm_compute; reflexivity.
  - apply (tolerance_window_inclusive 500 origin_12 translation_841_840
             (line_at 12340 [111]) (line_at 12841 [98]) Hpo Ho Hpt).
    + left; reflexivity.
    + vm_compute; reflexivity.
Defined.
